(** * SPR (Swagger Proxy Runner): value synthesis and request planning

    A shallow embedding of [cmd/spr/main.go]: the recursive synthesizer
    [getDummyValue], the fuzz-eligibility test [hasIntegerParams], and
    [main] (flags, request counting, URL and body construction, the sends on
    the channel that the workers receive from, one round of a worker),
    followed by the properties of the specification that concern them.

    Conventions.
    - A Go [interface{}] value is an [any]; a [map[string]interface{}] is a
      [gmap string any]; a nil map reads like the empty one.  Go's [int] is
      [Z]: the code does no arithmetic on it.
    - A failed single-value type assertion [x.(T)] is a run-time panic.  It
      is the only way the modelled code can fail once the document is
      parsed; it is the [Panic] outcome, and nothing in the source recovers
      from it.
    - [float64] is the primitive binary64 [float].  The two library routines
      that print one ([fmt.Sprint] on a float, [json.Marshal]) are the
      fields of the class [GoRuntime], over which everything is stated.
    - The channel is unbuffered and the HTTP client has no timeout: a send
      completes when a worker is there to receive it, and a worker whose
      call never returns receives nothing more.  Which calls return is a
      parameter of [main], next to the number of workers.
    - Go visits a map in an unspecified order.  The producer is modelled on
      lists of paths and methods, visited in the order given.  The
      properties below are about one operation or one request, or, for the
      totals, hold whatever the order is ([total_and_sent_any_order]).

    Layout: the program, the notions used to state properties, sample data,
    then the lemmas and theorems. *)

From Stdlib Require Import PrimFloat ZArith Ascii.
From stdpp Require Import gmap strings list fin_maps sorting pretty.

Set Warnings "-register-all".

Local Open Scope string_scope.
Local Open Scope Z_scope.

(** ** Go values *)

Inductive any :=
| VNil
| VBool (b : bool)
| VInt (n : Z)
| VFloat (f : float)
| VStr (s : string)
| VArr (elems : list any)
| VObj (fields : gmap string any).

(** [example != nil] *)
Definition isNil (v : any) : bool :=
  match v with VNil => true | _ => false end.

(** [s, _ := m[key].(string)]: the string, or the zero value. *)
Definition stringAt (m : gmap string any) (key : string) : string :=
  match m !! key with Some (VStr s) => s | _ => "" end.

(** [x, ok := m[key].(map[string]interface{})] *)
Definition mapAt (m : gmap string any) (key : string) : option (gmap string any) :=
  match m !! key with Some (VObj x) => Some x | _ => None end.

(** ** Outcomes: a value, or a run-time panic *)

Inductive outcome (A : Type) :=
| Ok (a : A)
| Panic.
Arguments Ok {A} a.
Arguments Panic {A}.

#[global] Instance outcome_ret : MRet outcome := @Ok.
#[global] Instance outcome_bind : MBind outcome := λ A B f x,
  match x with Ok a => f a | Panic => Panic end.
#[global] Instance outcome_fmap : FMap outcome := λ A B f x,
  match x with Ok a => Ok (f a) | Panic => Panic end.

(** [v.(map[string]interface{})] on the result of a map index: a missing key
    yields the nil interface, on which the assertion panics. *)
Definition mustMapAt (m : gmap string any) (key : string) : outcome (gmap string any) :=
  match m !! key with Some (VObj x) => Ok x | _ => Panic end.

(** ** Constants *)

Definition staticUUID : string := "11111111-1111-1111-1111-111111111111".

Definition intFuzzValues : list Z :=
  [1; 10; 100; 1000; 10000; 100000; 1000000; 10000000;
   2; 20; 200; 2000; 20000; 200000; 2000000; 20000000;
   5; 50; 500; 5000; 50000; 500000; 5000000; 50000000;
   9; 90; 900; 9000; 90000; 900000; 9000000; 90000000].

(** ** [getDummyValue] *)

(** The body of [for key, prop := range properties { result[key] = ... }],
    each entry given as the call still waiting for its key.  The first entry
    that panics aborts the loop; which one is first does not show in the
    outcome. *)
Definition collect (calls : gmap string (string → outcome any)) : outcome (gmap string any) :=
  map_fold (λ key call acc,
              match acc, call key with
              | Ok result, Ok v => Ok (<[key := v]> result)
              | _, _ => Panic
              end) (Ok ∅) calls.

(** The recursion runs on the schema as a JSON tree.  A recursive call on a
    member [schema[k]] is written as a map over the members followed by a
    lookup of [k], which is how the termination checker sees that the member
    is smaller; [getDummyValue_unfold] below gives the equation in the shape of
    the Go source.  A node that is not an object stands for the failed
    assertion [prop.(map[string]interface{})] at the call site. *)
Fixpoint synthesize (node example : any) (intFuzz : bool) (fuzzValue : Z)
    (paramName : string) (paramOverrides : gmap string string) {struct node}
  : outcome any :=
  match node with
  | VObj schema =>
    match paramOverrides !! paramName, intFuzz with
    | Some override, false => Ok (VStr override)
    | _, _ =>
      if negb (isNil example) then Ok example else
      let schemaType := stringAt schema "type" in
      let schemaFormat := stringAt schema "format" in
      if String.eqb schemaFormat "uuid" then Ok (VStr staticUUID) else
      let fromProperties (v : any) : option (outcome any) :=
        match v with
        | VObj properties =>
          Some (VObj <$> collect
            ((λ prop key, synthesize prop VNil intFuzz fuzzValue key paramOverrides)
               <$> properties))
        | _ => None
        end in
      let byProperties : option (outcome any) :=
        (fromProperties <$> schema) !! "properties" ≫= id in
      let byItems : option (outcome any) :=
        ((λ items, synthesize items VNil intFuzz fuzzValue paramName paramOverrides)
           <$> schema) !! "items" in
      match (if String.eqb schemaType "" then byProperties else None) with
      | Some result => result
      | None =>
        if String.eqb schemaType "string" then Ok (VStr "test_string")
        else if String.eqb schemaType "integer" then
          if intFuzz then
            match paramOverrides !! paramName with
            | Some override => Ok (VStr override)
            | None => Ok (VInt fuzzValue)
            end
          else Ok (VInt 1000)
        else if String.eqb schemaType "number" then Ok (VFloat 1%float)
        else if String.eqb schemaType "boolean" then Ok (VBool true)
        else if String.eqb schemaType "array" then
          match byItems with
          | Some item => (λ v, VArr [v]) <$> item
          | None => Panic
          end
        else if String.eqb schemaType "object" then
          match byProperties with
          | Some result => result
          | None => Ok (VObj ∅)
          end
        else
          match byProperties with
          | Some result => result
          | None => Ok (VStr "test_value")
          end
      end
    end
  | _ => Panic
  end.

Definition getDummyValue (schema : gmap string any) (example : any) (intFuzz : bool)
    (fuzzValue : Z) (paramName : string) (paramOverrides : gmap string string)
  : outcome any :=
  synthesize (VObj schema) example intFuzz fuzzValue paramName paramOverrides.

(** [prop.(map[string]interface{})] followed by the recursive call. *)
Definition propertyValue (intFuzz : bool) (fuzzValue : Z)
    (paramOverrides : gmap string string) (prop : any) (key : string) : outcome any :=
  match prop with
  | VObj propMap => getDummyValue propMap VNil intFuzz fuzzValue key paramOverrides
  | _ => Panic
  end.

(** The three identical [range properties] loops of the source. *)
Definition objectFromProperties (intFuzz : bool) (fuzzValue : Z)
    (paramOverrides : gmap string string) (properties : gmap string any) : outcome any :=
  VObj <$> collect (propertyValue intFuzz fuzzValue paramOverrides <$> properties).

(** The [switch schemaType] of the source, with its [default] case. *)
Definition byType (schema : gmap string any) (intFuzz : bool) (fuzzValue : Z)
    (paramName : string) (paramOverrides : gmap string string)
    (schemaType : string) : outcome any :=
  if String.eqb schemaType "string" then Ok (VStr "test_string")
  else if String.eqb schemaType "integer" then
    if intFuzz then
      match paramOverrides !! paramName with
      | Some override => Ok (VStr override)
      | None => Ok (VInt fuzzValue)
      end
    else Ok (VInt 1000)
  else if String.eqb schemaType "number" then Ok (VFloat 1%float)
  else if String.eqb schemaType "boolean" then Ok (VBool true)
  else if String.eqb schemaType "array" then
    items ← mustMapAt schema "items";
    v ← getDummyValue items VNil intFuzz fuzzValue paramName paramOverrides;
    Ok (VArr [v])
  else if String.eqb schemaType "object" then
    match mapAt schema "properties" with
    | Some properties => objectFromProperties intFuzz fuzzValue paramOverrides properties
    | None => Ok (VObj ∅)
    end
  else
    match mapAt schema "properties" with
    | Some properties => objectFromProperties intFuzz fuzzValue paramOverrides properties
    | None => Ok (VStr "test_value")
    end.


(** ** The document *)

(** Go's [Parameter] struct ([Parameter] is a reserved word here).  A JSON
    [null] or absent [example] decodes to the nil interface, [VNil]. *)
Record Param := {
  Name : string;
  In : string;
  Required : bool;
  Schema : gmap string any;
  Example : any;
}.

(** [RequestBody] is a map that may be nil: [None]. *)
Record Operation := {
  Parameters : list Param;
  RequestBody : option (gmap string any);
}.

(** The operation pointers may be nil: [None]. *)
Record PathItem := {
  Get : option Operation;
  Post : option Operation;
  Put : option Operation;
  Delete : option Operation;
  Patch : option Operation;
  PathItem_Parameters : list Param;
}.

Record OpenAPI := {
  Paths : gmap string PathItem;
}.

(** ** Library routines used by [main] *)

(** Printing a [float64] is left to the Go library: [formatFloat] is what
    [fmt.Sprint] prints for one, and [jsonMarshal v] the bytes that
    [json.Marshal(v)] returns (none when it reports an error, which the
    source drops). *)
Class GoRuntime := {
  formatFloat : float → string;
  jsonMarshal : any → string;
}.

(** Entries of a map by increasing key, as [fmt] and [url.Values.Encode]
    visit them. *)
Definition sortedEntries {A} (m : gmap string A) : list (string * A) :=
  merge_sort (λ x y, (x.1 ≤ y.1)%string) (map_to_list m).

(** [fmt.Sprint(value)] for a single operand. *)
Fixpoint Sprint `{rt : GoRuntime} (value : any) : string :=
  match value with
  | VNil => "<nil>"
  | VBool b => if b then "true" else "false"
  | VInt n => pretty n
  | VFloat f => formatFloat f
  | VStr s => s
  | VArr elems => "[" +:+ String.concat " " (Sprint <$> elems) +:+ "]"
  | VObj fields =>
    "map[" +:+ String.concat " "
       ((λ kv, kv.1 +:+ ":" +:+ kv.2) <$> sortedEntries (Sprint <$> fields)) +:+ "]"
  end.

(** [strings.TrimRight(host, "/")] *)
Fixpoint trimRightSlash (s : string) : string :=
  match s with
  | "" => ""
  | String c rest =>
    match trimRightSlash rest with
    | "" => if Ascii.eqb c "/"%char then "" else String c ""
    | kept => String c kept
    end
  end.

Definition normalizeHost (host : string) : string := trimRightSlash host.

(** [strings.Replace(s, old, new, -1)] for a non-empty [old] (the source
    passes ["{"+param.Name+"}"]): the occurrences of [old] are found from the
    left and do not overlap.  [skip] counts the bytes of a matched
    occurrence that are still to be dropped. *)
Fixpoint replaceFrom (old new : string) (skip : nat) (s : string) : string :=
  match s with
  | "" => ""
  | String c rest =>
    match skip with
    | S k => replaceFrom old new k rest
    | O =>
      if String.prefix old s
      then new +:+ replaceFrom old new (String.length old - 1) rest
      else String c (replaceFrom old new 0 rest)
    end
  end.

Definition Replace (s old new : string) : string := replaceFrom old new 0 s.

(** [url.QueryEscape]: letters, digits and [-_.~] stay, a space becomes [+],
    every other byte becomes [%XX]. *)
Definition isUnreserved (c : ascii) : bool :=
  let n := N_of_ascii c in
  ((48 <=? n) && (n <=? 57) || (65 <=? n) && (n <=? 90)
   || (97 <=? n) && (n <=? 122))%N
  || Ascii.eqb c "-"%char || Ascii.eqb c "_"%char || Ascii.eqb c "."%char || Ascii.eqb c "~"%char.

Definition upperhex (n : N) : ascii :=
  match String.get (N.to_nat n) "0123456789ABCDEF" with
  | Some c => c
  | None => "0"%char
  end.

Definition escapeByte (c : ascii) : string :=
  if isUnreserved c then String c ""
  else if Ascii.eqb c " "%char then "+"
  else String "%"%char (String (upperhex (N_of_ascii c / 16))
                     (String (upperhex (N_of_ascii c mod 16)) "")).

Fixpoint QueryEscape (s : string) : string :=
  match s with
  | "" => ""
  | String c rest => escapeByte c +:+ QueryEscape rest
  end.

(** [url.Values] is a [map[string][]string]; [Add] appends to the key's
    slice. *)
Definition Values_Add (v : gmap string (list string)) (key value : string)
  : gmap string (list string) :=
  <[key := (default [] (v !! key) ++ [value])%list]> v.

(** [url.Values.Encode]: [key=value] pairs joined by [&], keys sorted. *)
Definition Values_Encode (v : gmap string (list string)) : string :=
  String.concat "&"
    (kv ← sortedEntries v;
     (λ value, QueryEscape kv.1 +:+ "=" +:+ QueryEscape value) <$> kv.2).

(** ** [hasIntegerParams] *)

Definition isIntegerSchema (schema : gmap string any) : bool :=
  match schema !! "type" with
  | Some (VStr schemaType) => String.eqb schemaType "integer"
  | _ => false
  end.

Definition hasIntegerParams (operation : Operation) (pathParams : list Param)
  : outcome bool :=
  let allParams := (pathParams ++ Parameters operation)%list in
  if existsb (λ param, isIntegerSchema (Schema param)) allParams then Ok true else
  match RequestBody operation with
  | None => Ok false
  | Some requestBody =>
    match mapAt requestBody "content" with
    | None => Ok false
    | Some content =>
      match content !! "application/json" with
      | None => Ok false
      | Some (VObj jsonContent) =>
        match mapAt jsonContent "schema" with
        | Some schema => Ok (isIntegerSchema schema)
        | None => Ok false
        end
      | Some _ => Panic
      end
    end
  end.

(** ** The producer loop of [main] *)

(** The anonymous struct sent on [requestChan].  A nil [body] and an empty
    one are the same string: the worker reads it through [string(req.body)]. *)
Record request := {
  method : string;
  url : string;
  body : string;
  headerMap : gmap string string;
}.

(** The three variables the parameter loop updates. *)
Record building := {
  requestURL : string;
  queryParams : gmap string (list string);
  bodyParams : gmap string any;
}.

Definition carriesBody (method : string) : bool :=
  String.eqb method "POST" || String.eqb method "PUT" || String.eqb method "PATCH".

(** One round of [for _, param := range allParams] after [value] is known. *)
Definition placeParam `{rt : GoRuntime} (method : string) (param : Param) (value : any)
    (st : building) : building :=
  if carriesBody method && String.eqb (In param) "query" then
    {| requestURL := requestURL st;
       queryParams := queryParams st;
       bodyParams := <[Name param := value]> (bodyParams st) |}
  else if String.eqb (In param) "path" then
    {| requestURL := Replace (requestURL st) ("{" +:+ Name param +:+ "}") (Sprint value);
       queryParams := queryParams st;
       bodyParams := bodyParams st |}
  else if String.eqb (In param) "query" then
    {| requestURL := requestURL st;
       queryParams := Values_Add (queryParams st) (Name param) (Sprint value);
       bodyParams := bodyParams st |}
  else st.

Section Producer.
Context `{rt : GoRuntime}.
Context (normalizedHost : string) (methodsMap : gmap string bool) (intFuzzing : bool)
  (headerMap0 : gmap string string) (paramOverrideMap : gmap string string).

Fixpoint resolveParams (method : string) (fuzzValue : Z) (allParams : list Param)
    (st : building) : outcome building :=
  match allParams with
  | [] => Ok st
  | param :: rest =>
    value ← getDummyValue (Schema param) (Example param) intFuzzing fuzzValue
              (Name param) paramOverrideMap;
    resolveParams method fuzzValue rest (placeParam method param value st)
  end.

(** "Create request body" *)
Definition makeBody (method : string) (operation : Operation) (fuzzValue : Z)
    (folded : gmap string any) : outcome string :=
  match RequestBody operation with
  | Some requestBody =>
    content ← mustMapAt requestBody "content";
    match content !! "application/json" with
    | Some jsonContent =>
      schema ← match jsonContent with
               | VObj jsonContent => mustMapAt jsonContent "schema"
               | _ => Panic
               end;
      bodyData ← getDummyValue schema VNil intFuzzing fuzzValue "" paramOverrideMap;
      Ok (jsonMarshal bodyData)
    | None => Ok ""
    end
  | None =>
    if carriesBody method then
      if (0 <? size folded)%nat then Ok (jsonMarshal (VObj folded))
      else Ok "{}"
    else Ok ""
  end.

(** The body of [for _, fuzzValue := range fuzzValues], up to the send. *)
Definition buildRequest (path method : string) (pathItem : PathItem)
    (operation : Operation) (fuzzValue : Z) : outcome request :=
  let allParams := (PathItem_Parameters pathItem ++ Parameters operation)%list in
  st ← resolveParams method fuzzValue allParams
         {| requestURL := normalizedHost +:+ path; queryParams := ∅; bodyParams := ∅ |};
  let requestURL :=
    if (0 <? size (queryParams st))%nat
    then requestURL st +:+ "?" +:+ Values_Encode (queryParams st)
    else requestURL st in
  body ← makeBody method operation fuzzValue (bodyParams st);
  Ok {| method := method; url := requestURL; body := body; headerMap := headerMap0 |}.

(** What the producer puts on [requestChan], each request sent once the send
    before it has completed, and whether it got to the end ([Ok]) or panicked
    on the way. *)
Definition sending : Type := list request * outcome unit.

Definition andThen (first second : sending) : sending :=
  match first.2 with
  | Ok _ => ((first.1 ++ second.1)%list, second.2)
  | Panic => first
  end.

Fixpoint sendEach (build : Z → outcome request) (fuzzValues : list Z) : sending :=
  match fuzzValues with
  | [] => ([], Ok ())
  | fuzzValue :: rest =>
    match build fuzzValue with
    | Ok req => andThen ([req], Ok ()) (sendEach build rest)
    | Panic => ([], Panic)
    end
  end.

Definition fuzzValuesFor (hasIntegers : bool) : list Z :=
  if intFuzzing && hasIntegers then intFuzzValues else [1000].

(** [methodsMap[method]] *)
Definition allowed (method : string) : bool := default false (methodsMap !! method).

(** One round of [for method, operation := range operations] in the second
    loop ("Process each path"). *)
Definition processOperation (path : string) (pathItem : PathItem) (method : string)
    (operation : option Operation) : sending :=
  match operation with
  | Some operation =>
    if allowed method then
      match hasIntegerParams operation (PathItem_Parameters pathItem) with
      | Ok hasIntegers =>
        sendEach (buildRequest path method pathItem operation) (fuzzValuesFor hasIntegers)
      | Panic => ([], Panic)
      end
    else ([], Ok ())
  | None => ([], Ok ())
  end.

(** The [operations] map built for a path item.  Go visits a map in an
    unspecified order; the model visits it in the order written. *)
Definition operations (pathItem : PathItem) : list (string * option Operation) :=
  [("GET", Get pathItem); ("POST", Post pathItem); ("PUT", Put pathItem);
   ("DELETE", Delete pathItem); ("PATCH", Patch pathItem)].

Definition processPath (entry : string * PathItem) : sending :=
  foldr (λ op rest, andThen (processOperation entry.1 entry.2 op.1 op.2) rest)
    ([], Ok ()) (operations entry.2).

Definition processPaths (entries : list (string * PathItem)) : sending :=
  foldr (λ entry rest, andThen (processPath entry) rest) ([], Ok ()) entries.

(** One round of the inner loop of "Count total requests to be made". *)
Definition countOperation (pathItem : PathItem) (method : string)
    (operation : option Operation) (totalRequests : nat) : outcome nat :=
  match operation with
  | Some operation =>
    if allowed method then
      hasIntegers ← hasIntegerParams operation (PathItem_Parameters pathItem);
      if intFuzzing && hasIntegers
      then Ok (totalRequests + length intFuzzValues)%nat
      else Ok (totalRequests + 1)%nat
    else Ok totalRequests
  | None => Ok totalRequests
  end.

Definition countPath (pathItem : PathItem) (totalRequests : nat) : outcome nat :=
  foldl (λ acc op, total ← acc; countOperation pathItem op.1 op.2 total)
    (Ok totalRequests) (operations pathItem).

Definition countPaths (entries : list (string * PathItem)) : outcome nat :=
  foldl (λ acc entry, total ← acc; countPath entry.2 total) (Ok 0%nat) entries.

End Producer.

(** ** The channel and the workers *)

(** [main] starts [threads] workers, none when [threads] is not positive,
    which receive from the unbuffered [requestChan].  A worker that has
    received a request receives again once its round has ended, that is once
    [http.NewRequest] has failed or [client.Do] has returned; the client has
    no timeout, so [client.Do] may never return, and then that worker
    receives nothing more.  [answered n] tells whether the round for the
    [n]-th request sent ends.  A send completes when a worker is left that
    is not held up for ever: [deliver] gives the requests whose send
    completes, [free] being the number of such workers and [n] the number
    of requests sent before. *)
Fixpoint deliver (free : nat) (answered : nat → bool) (n : nat) (reqs : list request)
  : list request :=
  match reqs, free with
  | req :: rest, S others =>
    req :: deliver (if answered n then free else others) answered (S n) rest
  | _, _ => []
  end.

(** ** [main], from the parsed document on *)

(** How [main] ends: by returning, by [os.Exit(1)] after printing a message,
    by a run-time panic that nothing recovers, or not at all: it stays in a
    send that no worker receives or in [wg.Wait] behind a worker that never
    finishes (where the Go runtime finds every goroutine asleep it stops the
    program instead). *)
Inductive termination :=
| Returned
| Exit1 (message : string)
| RuntimePanic
| Stuck.

Record run := {
  totalRequests : option nat;
  sent : list request;
  ending : termination;
}.

(** [main] once the flags are parsed, the swagger file is read and decoded
    into [api] and the proxy URL is parsed (reading, decoding and parsing
    end the program with a message and [os.Exit(1)] when they fail).
    [methodsMap], [headerMap0] and [paramOverrideMap] are the maps [main]
    builds from the flags, [threads] is the [-threads] flag and [answered]
    says which rounds of the workers end, the requests sent being counted
    from 0.  The paths are visited in the order of [map_to_list]; Go leaves
    the order open.

    The producer builds a request, sends it, and only then goes on: it gets
    as far as its sends complete.  When one does not, [main] stays there;
    when all do, it ends by the panic of the producer if there is one, and
    otherwise closes the channel and waits for the workers. *)
Definition main `{rt : GoRuntime} (swaggerFile host : string) (methodsMap : gmap string bool)
    (intFuzzing : bool) (headerMap0 paramOverrideMap : gmap string string)
    (threads : Z) (answered : nat → bool) (api : OpenAPI) : run :=
  if String.eqb swaggerFile "" || String.eqb host "" then
    {| totalRequests := None; sent := [];
       ending := Exit1 "Please provide swagger file path and host" |}
  else
    let entries := map_to_list (Paths api) in
    match countPaths methodsMap intFuzzing entries with
    | Panic => {| totalRequests := None; sent := []; ending := RuntimePanic |}
    | Ok total =>
      let produced :=
        processPaths (normalizeHost host) methodsMap intFuzzing headerMap0
          paramOverrideMap entries in
      let received := deliver (Z.to_nat threads) answered 0 produced.1 in
      {| totalRequests := Some total;
         sent := received;
         ending :=
           if (length received <? length produced.1)%nat then Stuck
           else match produced.2 with
                | Panic => RuntimePanic
                | Ok _ =>
                  if forallb answered (seq 0 (length received)) then Returned else Stuck
                end |}
    end.

(** The [Header.Set] calls a worker makes for a request taken from the
    channel: the default content type, then the custom headers. *)
Definition workerHeaderSets (req : request) : list (string * string) :=
  ("Content-Type", "application/json") :: map_to_list (headerMap req).

(** ** Notions used to state the properties *)

(** The parameter loop, given the value synthesized for each parameter. *)
Definition placeParams `{rt : GoRuntime} (method : string) (values : list (Param * any))
    (st : building) : building :=
  foldl (λ st pv, placeParam method pv.1 pv.2 st) st values.

(** The mapping of the query-declared parameters, later ones overwriting
    earlier ones of the same name. *)
Definition foldedQuery (values : list (Param * any)) : gmap string any :=
  foldl (λ folded pv,
           if String.eqb (In pv.1) "query" then <[Name pv.1 := pv.2]> folded else folded)
    ∅ values.

(** Parameters located in a header or a cookie. *)
Definition inHeaderOrCookie (param : Param) : bool :=
  String.eqb (In param) "header" || String.eqb (In param) "cookie".

Definition withoutHeaderCookie (params : list Param) : list Param :=
  filter (λ param, inHeaderOrCookie param = false) params.

Definition dropHeaderCookie_operation (operation : Operation) : Operation :=
  {| Parameters := withoutHeaderCookie (Parameters operation);
     RequestBody := RequestBody operation |}.

Definition dropHeaderCookie_pathItem (pathItem : PathItem) : PathItem :=
  {| Get := Get pathItem; Post := Post pathItem; Put := Put pathItem;
     Delete := Delete pathItem; Patch := Patch pathItem;
     PathItem_Parameters := withoutHeaderCookie (PathItem_Parameters pathItem) |}.

(** [values] pairs each parameter of [params], in order, with the value
    [getDummyValue] returns for it. *)
Definition valuesOf (intFuzzing : bool) (paramOverrideMap : gmap string string)
    (fuzzValue : Z) (params : list Param) (values : list (Param * any)) : Prop :=
  Forall2 (λ param pv,
             pv.1 = param
             ∧ getDummyValue (Schema param) (Example param) intFuzzing fuzzValue
                 (Name param) paramOverrideMap = Ok pv.2)
    params values.

(** [c] is one of the bytes of [s]. *)
Fixpoint occurs (c : ascii) (s : string) : bool :=
  match s with
  | "" => false
  | String d rest => Ascii.eqb c d || occurs c rest
  end.

(** [sub] is a substring of [s]. *)
Fixpoint contains (sub s : string) : bool :=
  match s with
  | "" => String.prefix sub ""
  | String _ rest => String.prefix sub s || contains sub rest
  end.

(** A URL template cut into literal text and placeholders [{name}]. *)
Inductive segment :=
| Lit (text : string)
| Hole (name : string).

Definition renderSegment (seg : segment) : string :=
  match seg with
  | Lit text => text
  | Hole name => "{" +:+ name +:+ "}"
  end.

Definition render (segs : list segment) : string :=
  foldr (λ seg rest, renderSegment seg +:+ rest) "" segs.

(** Literal text has no opening brace and a placeholder name no brace. *)
Definition wellFormedSegment (seg : segment) : bool :=
  match seg with
  | Lit text => negb (occurs "{" text)
  | Hole name => negb (occurs "{" name) && negb (occurs "}" name)
  end.

Definition isHole (seg : segment) : bool :=
  match seg with Hole _ => true | Lit _ => false end.

Definition fillSegment (name text : string) (seg : segment) : segment :=
  match seg with
  | Hole n => if String.eqb n name then Lit text else seg
  | Lit _ => seg
  end.

(** The printed value of the first path-located parameter called [name]. *)
Fixpoint firstPathValue `{rt : GoRuntime} (name : string) (values : list (Param * any))
  : option string :=
  match values with
  | [] => None
  | pv :: rest =>
    if String.eqb (In pv.1) "path" && String.eqb (Name pv.1) name
    then Some (Sprint pv.2)
    else firstPathValue name rest
  end.

Definition resolveSegment `{rt : GoRuntime} (values : list (Param * any)) (seg : segment)
  : segment :=
  match seg with
  | Hole name =>
    match firstPathValue name values with
    | Some text => Lit text
    | None => seg
    end
  | Lit _ => seg
  end.

(** Braces that keep [strings.Replace] within the placeholders: the name of
    a path-located parameter has no closing brace and its printed value no
    opening one. *)
Definition braceFree `{rt : GoRuntime} (pv : Param * any) : Prop :=
  In pv.1 = "path" → occurs "}" (Name pv.1) = false ∧ occurs "{" (Sprint pv.2) = false.

(** The URL sent once the parameter loop has ended in [st]. *)
Definition finalURL (st : building) : string :=
  if (0 <? size (queryParams st))%nat
  then requestURL st +:+ "?" +:+ Values_Encode (queryParams st)
  else requestURL st.

Definition startOf (normalizedHost path : string) : building :=
  {| requestURL := normalizedHost +:+ path; queryParams := ∅; bodyParams := ∅ |}.

(** ** Sample data for the closed statements *)

(** A runtime to evaluate the model with.  It prints every float as ["1"]
    (which is what Go prints for [1.0], the one float [getDummyValue]
    creates) and writes JSON without escaping, so it agrees with
    [encoding/json] on values whose strings need no escape and whose floats,
    if any, are [1.0]. *)
Definition quote : string := String "034"%char "".

Fixpoint compactJSON (v : any) : string :=
  match v with
  | VNil => "null"
  | VBool b => if b then "true" else "false"
  | VInt n => pretty n
  | VFloat _ => "1"
  | VStr s => quote +:+ s +:+ quote
  | VArr elems => "[" +:+ String.concat "," (compactJSON <$> elems) +:+ "]"
  | VObj fields =>
    "{" +:+ String.concat ","
       ((λ kv, quote +:+ kv.1 +:+ quote +:+ ":" +:+ kv.2)
          <$> sortedEntries (compactJSON <$> fields)) +:+ "}"
  end.

Definition sampleRuntime : GoRuntime :=
  {| formatFloat := λ _, "1"; jsonMarshal := compactJSON |}.

Definition integerSchema : gmap string any := {["type" := VStr "integer"]}.
Definition stringSchema : gmap string any := {["type" := VStr "string"]}.
Definition arrayWithoutItems : gmap string any := {["type" := VStr "array"]}.

Definition onlyGet (operation : Operation) (pathParams : list Param) : PathItem :=
  {| Get := Some operation; Post := None; Put := None; Delete := None; Patch := None;
     PathItem_Parameters := pathParams |}.

Definition onlyPost (operation : Operation) (pathParams : list Param) : PathItem :=
  {| Get := None; Post := Some operation; Put := None; Delete := None; Patch := None;
     PathItem_Parameters := pathParams |}.

Definition getOnly : gmap string bool := {["GET" := true]}.
Definition postOnly : gmap string bool := {["POST" := true]}.

(** [GET /items/{id}] with an integer path parameter [id] (the scenario of
    the specification). *)
Definition idParam : Param :=
  {| Name := "id"; In := "path"; Required := true; Schema := integerSchema;
     Example := VNil |}.
Definition getItem : Operation := {| Parameters := [idParam]; RequestBody := None |}.
Definition itemsApi : OpenAPI :=
  {| Paths := {["/items/{id}" := onlyGet getItem []]} |}.

(** [GET /things] with a query parameter whose array schema has no [items]. *)
Definition tagsParam : Param :=
  {| Name := "tags"; In := "query"; Required := false; Schema := arrayWithoutItems;
     Example := VNil |}.
Definition listThings : Operation := {| Parameters := [tagsParam]; RequestBody := None |}.
Definition thingsApi : OpenAPI :=
  {| Paths := {["/things" := onlyGet listThings []]} |}.

(** [POST /upload] whose [requestBody] has no [content]. *)
Definition upload : Operation := {| Parameters := []; RequestBody := Some ∅ |}.
Definition uploadApi : OpenAPI := {| Paths := {["/upload" := onlyPost upload []]} |}.

(** [POST /notes] whose body schema has an array property without [items]. *)
Definition noteSchema : gmap string any :=
  {["type" := VStr "object";
    "properties" := VObj {["labels" := VObj arrayWithoutItems]}]}.
Definition createNote : Operation :=
  {| Parameters := [];
     RequestBody :=
       Some {["content" := VObj {["application/json" := VObj {["schema" := VObj noteSchema]}]}]} |}.
Definition notesApi : OpenAPI := {| Paths := {["/notes" := onlyPost createNote []]} |}.

(** [POST /search] with a query parameter [q] and a body declared only as
    XML. *)
Definition qParam : Param :=
  {| Name := "q"; In := "query"; Required := false; Schema := stringSchema;
     Example := VNil |}.
Definition searchXml : Operation :=
  {| Parameters := [qParam];
     RequestBody := Some {["content" := VObj {["application/xml" := VObj ∅]}]} |}.
Definition searchPlain : Operation := {| Parameters := [qParam]; RequestBody := None |}.
Definition searchJson : Operation :=
  {| Parameters := [qParam];
     RequestBody :=
       Some {["content" :=
                VObj {["application/json" := VObj {["schema" := VObj integerSchema]}]}]} |}.

(** A header parameter next to the path parameter [id]. *)
Definition traceParam : Param :=
  {| Name := "X-Trace"; In := "header"; Required := false; Schema := stringSchema;
     Example := VStr "abc" |}.
Definition getItemTraced : Operation :=
  {| Parameters := [traceParam; idParam]; RequestBody := None |}.

(** [GET /items/{id}] declaring no parameter at all. *)
Definition getItemBare : Operation := {| Parameters := []; RequestBody := None |}.

(** The parameter [id] declared twice, on the path item with the example
    ["A"] and on the operation with the example ["B"]. *)
Definition idParamA : Param :=
  {| Name := "id"; In := "path"; Required := true; Schema := stringSchema;
     Example := VStr "A" |}.
Definition idParamB : Param :=
  {| Name := "id"; In := "path"; Required := true; Schema := stringSchema;
     Example := VStr "B" |}.
Definition getItemB : Operation := {| Parameters := [idParamB]; RequestBody := None |}.

(** The same for a query parameter [q]. *)
Definition qParamA : Param :=
  {| Name := "q"; In := "query"; Required := false; Schema := stringSchema;
     Example := VStr "A" |}.
Definition qParamB : Param :=
  {| Name := "q"; In := "query"; Required := false; Schema := stringSchema;
     Example := VStr "B" |}.
Definition searchB : Operation := {| Parameters := [qParamB]; RequestBody := None |}.

(** [https://h/items/{id}] as a template. *)
Definition itemTemplate : list segment := [Lit "https://h/items/"; Hole "id"].

(** The path parameter [id] given a value that is itself a placeholder, and
    a parameter [ab] for the nested template [/{{ab}b}]. *)
Definition idParamEcho : Param :=
  {| Name := "id"; In := "path"; Required := true; Schema := stringSchema;
     Example := VStr "{id}" |}.
Definition getItemEcho : Operation := {| Parameters := [idParamEcho]; RequestBody := None |}.
Definition abParam : Param :=
  {| Name := "ab"; In := "path"; Required := true; Schema := stringSchema;
     Example := VStr "a" |}.
Definition getNested : Operation := {| Parameters := [abParam]; RequestBody := None |}.

(** ** Further notions: the shape of a schema *)

(** The number of nodes of a value; the measure for inductions on schemas. *)
Fixpoint anySize (v : any) : nat :=
  match v with
  | VArr elems => S (foldr (λ n acc, n + acc)%nat 0%nat (anySize <$> elems))
  | VObj fields => S (map_fold (λ _ n acc, n + acc)%nat 0%nat (anySize <$> fields))
  | _ => 1%nat
  end.

Definition allTrue (flags : gmap string bool) : bool :=
  map_fold (λ _ flag acc, flag && acc) true flags.

(** A schema node on which every type assertion of [getDummyValue] holds
    wherever the walk may go: the node is an object, the entries of its
    [properties] (when that is a map) are such nodes, and so is its [items]
    when its type is ["array"]. *)
Fixpoint wellShaped (node : any) : bool :=
  match node with
  | VObj schema =>
    let entriesShaped (v : any) : bool :=
      match v with
      | VObj properties => allTrue (wellShaped <$> properties)
      | _ => true
      end in
    default true ((entriesShaped <$> schema) !! "properties")
    && (if String.eqb (stringAt schema "type") "array"
        then default false ((wellShaped <$> schema) !! "items")
        else true)
  | _ => false
  end.

(** The value of an outcome, if it has one. *)
Definition okValue (r : outcome any) : option any :=
  match r with Ok v => Some v | Panic => None end.

(** Sample schemas: an object with an integer [id], a string [name] and a
    nested object [owner] that has an integer [id] of its own. *)
Definition ownerSchema : gmap string any :=
  {["type" := VStr "object"; "properties" := VObj {["id" := VObj integerSchema]}]}.
Definition petSchema : gmap string any :=
  {["type" := VStr "object";
    "properties" := VObj {["id" := VObj integerSchema; "name" := VObj stringSchema;
                           "owner" := VObj ownerSchema]}]}.

(** ** Further notions: hosts and documents *)

(** [s] consists of slashes only. *)
Fixpoint onlySlashes (s : string) : bool :=
  match s with
  | "" => true
  | String c rest => Ascii.eqb c "/"%char && onlySlashes rest
  end.

(** The last byte of [s], if any. *)
Fixpoint lastByte (s : string) : option ascii :=
  match s with
  | "" => None
  | String c "" => Some c
  | String _ rest => lastByte rest
  end.

(** The five method names of the [operations] map. *)
Definition methodNames : list string := ["GET"; "POST"; "PUT"; "DELETE"; "PATCH"].

(** An operation on which neither [hasIntegerParams] nor the building of a
    request can panic: the schemas of the merged parameters are well shaped,
    and a [requestBody], if there is one, has a [content] map whose
    [application/json] entry, if there is one, is an object with a well-shaped
    [schema]. *)
Definition operationShaped (pathItem : PathItem) (operation : Operation) : Prop :=
  Forall (λ param, wellShaped (VObj (Schema param)) = true)
    (PathItem_Parameters pathItem ++ Parameters operation)%list
  ∧ match RequestBody operation with
    | None => True
    | Some requestBody =>
      ∃ content, mapAt requestBody "content" = Some content
      ∧ match content !! "application/json" with
        | None => True
        | Some jsonContent =>
          ∃ members schema, jsonContent = VObj members
          ∧ mapAt members "schema" = Some schema
          ∧ wellShaped (VObj schema) = true
        end
    end.

(** [POST /import] whose [application/json] content entry is a string. *)
Definition importOp : Operation :=
  {| Parameters := [];
     RequestBody := Some {["content" := VObj {["application/json" := VStr "oops"]}]} |}.
Definition importApi : OpenAPI := {| Paths := {["/import" := onlyPost importOp []]} |}.

(** [POST /pets] with the body schema [petSchema] and a query parameter. *)
Definition createPet : Operation :=
  {| Parameters := [qParam];
     RequestBody :=
       Some {["content" := VObj {["application/json" := VObj {["schema" := VObj petSchema]}]}]} |}.
Definition petsApi : OpenAPI := {| Paths := {["/pets" := onlyPost createPet []]} |}.

(** The printed values of the query-located parameters called [name], in
    the order of the merged list. *)
Definition queryValuesOf `{rt : GoRuntime} (name : string) (values : list (Param * any))
  : list string :=
  (λ pv, Sprint pv.2)
    <$> filter (λ pv, String.eqb (In pv.1) "query" && String.eqb (Name pv.1) name = true)
          values.

(** ** Further notions: malformed operations *)

(** An operation on which the producer panics: a merged parameter whose
    synthesis panics, or a [requestBody] whose [content] is not a map, or
    whose [application/json] entry is not an object, has no map as [schema],
    or has a schema whose synthesis (with no example, under the empty name)
    panics. *)
Definition malformed (intFuzzing : bool) (paramOverrideMap : gmap string string)
    (pathItem : PathItem) (operation : Operation) : Prop :=
  (∃ param fuzzValue,
     param ∈ (PathItem_Parameters pathItem ++ Parameters operation)%list
     ∧ getDummyValue (Schema param) (Example param) intFuzzing fuzzValue (Name param)
         paramOverrideMap = Panic)
  ∨ ∃ requestBody,
      RequestBody operation = Some requestBody
      ∧ match mapAt requestBody "content" with
        | None => True
        | Some content =>
          match content !! "application/json" with
          | None => False
          | Some (VObj members) =>
            match mapAt members "schema" with
            | None => True
            | Some schema =>
              ∃ fuzzValue,
                getDummyValue schema VNil intFuzzing fuzzValue "" paramOverrideMap = Panic
            end
          | Some _ => True
          end
        end.

(** ** The flags of [main] *)

(** Text routines of the Go library that work on Unicode text:
    [strings.TrimSpace], [strings.ToUpper] and, for [http.Header.Set],
    [textproto.CanonicalMIMEHeaderKey]. *)
Class GoText := {
  TrimSpace : string → string;
  ToUpper : string → string;
  CanonicalMIMEHeaderKey : string → string;
}.

(** [strings.Cut(s, sep)] for a one-byte [sep]: the text before and after
    the first [sep], if there is one. *)
Fixpoint cutAt (sep : ascii) (s : string) : option (string * string) :=
  match s with
  | "" => None
  | String c rest =>
    if Ascii.eqb c sep then Some ("", rest)
    else match cutAt sep rest with
         | Some (before, after) => Some (String c before, after)
         | None => None
         end
  end.

(** [strings.SplitN(s, sep, 2)] for a one-byte [sep]. *)
Definition SplitN2 (s : string) (sep : ascii) : list string :=
  match cutAt sep s with
  | Some (before, after) => [before; after]
  | None => [s]
  end.

(** [strings.Split(s, sep)] for a one-byte [sep]; the result is never
    empty. *)
Fixpoint Split (s : string) (sep : ascii) : list string :=
  match s with
  | "" => [""]
  | String c rest =>
    if Ascii.eqb c sep then "" :: Split rest sep
    else match Split rest sep with
         | piece :: pieces => String c piece :: pieces
         | [] => [String c ""]
         end
  end.

(** [arrayFlags]: the flag package calls [Set] once for each occurrence of
    the flag, in the order of the command line. *)
Definition arrayFlags : Type := list string.
Definition arrayFlags_String (i : arrayFlags) : string := String.concat "," i.
Definition arrayFlags_Set (i : arrayFlags) (value : string) : arrayFlags :=
  (i ++ [value])%list.

(** "Parse param overrides" *)
Definition addParamOverride (paramOverrideMap : gmap string string) (override : string)
  : gmap string string :=
  match SplitN2 override "="%char with
  | [name; value] => <[name := value]> paramOverrideMap
  | _ => paramOverrideMap
  end.

Definition parseParamOverrides (paramOverrides : arrayFlags) : gmap string string :=
  foldl addParamOverride ∅ paramOverrides.

(** "Parse headers" *)
Definition addHeader `{tx : GoText} (headerMap : gmap string string) (h : string)
  : gmap string string :=
  match SplitN2 h ":"%char with
  | [name; value] => <[TrimSpace name := TrimSpace value]> headerMap
  | _ => headerMap
  end.

Definition parseHeaders `{tx : GoText} (headers : string) : gmap string string :=
  if String.eqb headers "" then ∅
  else foldl addHeader ∅ (Split headers ","%char).

(** "Parse allowed methods" *)
Definition parseMethods `{tx : GoText} (methods : string) : gmap string bool :=
  foldl (λ methodsMap m, <[TrimSpace m := true]> methodsMap) ∅
    (Split (ToUpper methods) ","%char).

(** ** A worker *)

(** [http.Header] with [Set], which replaces the values stored under the
    canonical form of the key. *)
Abbreviation Header := (gmap string (list string)).
Definition Header_Set `{tx : GoText} (h : Header) (key value : string) : Header :=
  <[CanonicalMIMEHeaderKey key := [value]]> h.

(** The header of the request a worker sends: the [Set] calls of
    [workerHeaderSets] applied to the empty header [http.NewRequest] gives. *)
Definition workerHeader `{tx : GoText} (req : request) : Header :=
  foldl (λ h kv, Header_Set h kv.1 kv.2) ∅ (workerHeaderSets req).

(** What the library answers for one request: [http.NewRequest] fails with
    an error, or succeeds and [client.Do] fails with an error, or answers
    with a status code. *)
Inductive answer :=
| CreateError (err : string)
| SendError (err : string)
| Status (code : Z).

(** What a worker does that can be seen: a line printed, the progress bar
    advanced. *)
Inductive effect :=
| Printf (line : string)
| BarAdd (n : Z).

(** One round of [for req := range requestChan]. *)
Definition handle (verbose : bool) (req : request) (got : answer) : list effect :=
  match got with
  | CreateError err =>
    ((if verbose then [Printf ("Error creating request: " +:+ err +:+ String "010"%char "")]
      else [])
     ++ (if negb verbose then [BarAdd 1] else []))%list
  | SendError err =>
    ((if verbose then [Printf ("Error sending request: " +:+ err +:+ String "010"%char "")]
      else [])
     ++ (if negb verbose then [BarAdd 1] else []))%list
  | Status code =>
    if verbose
    then [Printf (method req +:+ " " +:+ url req +:+ " -> " +:+ pretty code
                  +:+ String "010"%char "")]
    else [BarAdd 1]
  end.

(** By how much a list of effects advances the bar. *)
Definition barAdvance (effects : list effect) : Z :=
  foldr (λ e total, match e with BarAdd n => n + total | Printf _ => total end) 0 effects.

(** A sample of the text routines, for ASCII text: blanks are trimmed,
    ASCII letters are put in upper case and header keys are taken as they
    are (the sample keys are in canonical form). *)
Fixpoint trimLeftBlanks (s : string) : string :=
  match s with
  | String " " rest => trimLeftBlanks rest
  | _ => s
  end.
Fixpoint trimRightBlanks (s : string) : string :=
  match s with
  | "" => ""
  | String c rest =>
    match trimRightBlanks rest with
    | "" => if Ascii.eqb c " "%char then "" else String c ""
    | kept => String c kept
    end
  end.
Definition upperByte (c : ascii) : ascii :=
  let n := N_of_ascii c in
  if ((97 <=? n) && (n <=? 122))%N then ascii_of_N (n - 32) else c.
Fixpoint upperAscii (s : string) : string :=
  match s with
  | "" => ""
  | String c rest => String (upperByte c) (upperAscii rest)
  end.
Definition sampleText : GoText :=
  {| TrimSpace := λ s, trimRightBlanks (trimLeftBlanks s);
     ToUpper := upperAscii;
     CanonicalMIMEHeaderKey := λ key, key |}.
Lemma propertyValue_synthesize intFuzz fuzzValue paramOverrides prop :
  (λ key, synthesize prop VNil intFuzz fuzzValue key paramOverrides)
  = propertyValue intFuzz fuzzValue paramOverrides prop.
Proof. by destruct prop. Qed.

Lemma byProperties_lookup intFuzz fuzzValue paramOverrides (schema : gmap string any) :
  ((λ v : any,
      match v with
      | VObj properties =>
        Some (VObj <$> collect
          ((λ prop key, synthesize prop VNil intFuzz fuzzValue key paramOverrides)
             <$> properties))
      | _ => None
      end) <$> schema) !! "properties" ≫= id
  = objectFromProperties intFuzz fuzzValue paramOverrides <$> mapAt schema "properties".
Proof.
  rewrite lookup_fmap. unfold mapAt.
  destruct (schema !! "properties") as [[]|]; simpl; try done.
  unfold objectFromProperties. do 3 f_equal.
  apply map_fmap_ext. intros ? prop _. apply propertyValue_synthesize.
Qed.

Lemma byItems_lookup intFuzz fuzzValue paramName paramOverrides (schema : gmap string any) :
  match ((λ items, synthesize items VNil intFuzz fuzzValue paramName paramOverrides)
           <$> schema) !! "items" with
  | Some item => (λ v, VArr [v]) <$> item
  | None => Panic
  end
  = (items ← mustMapAt schema "items";
     v ← getDummyValue items VNil intFuzz fuzzValue paramName paramOverrides;
     Ok (VArr [v])).
Proof.
  rewrite lookup_fmap. unfold mustMapAt.
  by destruct (schema !! "items") as [[]|].
Qed.

(** [getDummyValue], statement by statement as in the source. *)
Lemma getDummyValue_unfold schema example intFuzz fuzzValue paramName paramOverrides :
  getDummyValue schema example intFuzz fuzzValue paramName paramOverrides =
  match paramOverrides !! paramName, intFuzz with
  | Some override, false => Ok (VStr override)
  | _, _ =>
    if negb (isNil example) then Ok example else
    let schemaType := stringAt schema "type" in
    let schemaFormat := stringAt schema "format" in
    if String.eqb schemaFormat "uuid" then Ok (VStr staticUUID) else
    match (if String.eqb schemaType "" then mapAt schema "properties" else None) with
    | Some properties => objectFromProperties intFuzz fuzzValue paramOverrides properties
    | None => byType schema intFuzz fuzzValue paramName paramOverrides schemaType
    end
  end.
Proof.
  unfold getDummyValue at 1. cbn [synthesize].
  rewrite byProperties_lookup, byItems_lookup. unfold byType. cbv zeta.
  destruct (paramOverrides !! paramName), intFuzz, (negb (isNil example)),
    (String.eqb (stringAt schema "format") "uuid"),
    (String.eqb (stringAt schema "type") ""),
    (mapAt schema "properties"); reflexivity.
Qed.

(** ** Precedence inside [getDummyValue] *)

Lemma stringAt_Some (m : gmap string any) key s :
  m !! key = Some (VStr s) → stringAt m key = s.
Proof. unfold stringAt. by intros ->. Qed.

Lemma getDummyValue_override schema example fuzzValue paramName paramOverrides override :
  paramOverrides !! paramName = Some override →
  getDummyValue schema example false fuzzValue paramName paramOverrides
  = Ok (VStr override).
Proof. intros Hov. by rewrite getDummyValue_unfold, Hov. Qed.

(** Past the first [if]: the override is absent, or fuzzing is on. *)
Lemma getDummyValue_no_override schema example intFuzz fuzzValue paramName paramOverrides :
  intFuzz = true ∨ paramOverrides !! paramName = None →
  getDummyValue schema example intFuzz fuzzValue paramName paramOverrides =
  if negb (isNil example) then Ok example else
  if String.eqb (stringAt schema "format") "uuid" then Ok (VStr staticUUID) else
  match (if String.eqb (stringAt schema "type") "" then mapAt schema "properties" else None) with
  | Some properties => objectFromProperties intFuzz fuzzValue paramOverrides properties
  | None => byType schema intFuzz fuzzValue paramName paramOverrides (stringAt schema "type")
  end.
Proof.
  intros Hno. rewrite getDummyValue_unfold.
  destruct Hno as [-> | ->]; [by destruct (paramOverrides !! paramName)|done].
Qed.

(** Past the example and the uuid test as well. *)
Lemma getDummyValue_by_type schema intFuzz fuzzValue paramName paramOverrides :
  intFuzz = true ∨ paramOverrides !! paramName = None →
  stringAt schema "format" ≠ "uuid" →
  stringAt schema "type" ≠ "" →
  getDummyValue schema VNil intFuzz fuzzValue paramName paramOverrides
  = byType schema intFuzz fuzzValue paramName paramOverrides (stringAt schema "type").
Proof.
  intros Hno Hfmt Hty. rewrite getDummyValue_no_override by done. simpl.
  apply String.eqb_neq in Hfmt, Hty. by rewrite Hfmt, Hty.
Qed.

(** C1, as stated, fails: an integer schema with an example returns the
    example although fuzzing is on and an override exists; one with the
    [uuid] format returns the static UUID instead of the fuzz value; and
    with fuzzing off an override is returned, not 1000. *)
Lemma C1_counterexample :
  getDummyValue integerSchema (VStr "e") true 5 "id" {["id" := "42"]} = Ok (VStr "e")
  ∧ getDummyValue (<["format" := VStr "uuid"]> integerSchema) VNil true 5 "id" ∅
    = Ok (VStr staticUUID)
  ∧ getDummyValue integerSchema VNil false 5 "id" {["id" := "42"]} = Ok (VStr "42").
Proof. by vm_compute. Qed.

(** C1, amended: for a schema of type ["integer"] that comes with no example
    and whose format is not ["uuid"]: with fuzzing on, the override of the
    parameter name is returned when there is one, for every fuzz value, and
    the current fuzz value otherwise; with fuzzing off and no override, the
    result is the integer 1000. *)
Theorem C1_integer_schema schema fuzzValue paramName paramOverrides :
  schema !! "type" = Some (VStr "integer") →
  stringAt schema "format" ≠ "uuid" →
  (∀ override, paramOverrides !! paramName = Some override →
     getDummyValue schema VNil true fuzzValue paramName paramOverrides
     = Ok (VStr override))
  ∧ (paramOverrides !! paramName = None →
     getDummyValue schema VNil true fuzzValue paramName paramOverrides
     = Ok (VInt fuzzValue))
  ∧ (paramOverrides !! paramName = None →
     getDummyValue schema VNil false fuzzValue paramName paramOverrides
     = Ok (VInt 1000)).
Proof.
  intros Hty%stringAt_Some Hfmt.
  split_and!; [intros override Hov | intros Hov ..];
    (rewrite getDummyValue_by_type; [|auto|done|by rewrite Hty]);
    by rewrite Hty; unfold byType; simpl; rewrite ?Hov.
Qed.

Lemma C1_integer_schema_witness :
  getDummyValue integerSchema VNil true 5 "id" {["id" := "42"]} = Ok (VStr "42")
  ∧ getDummyValue integerSchema VNil true 5 "id" ∅ = Ok (VInt 5)
  ∧ getDummyValue integerSchema VNil false 5 "id" ∅ = Ok (VInt 1000).
Proof.
  pose proof (C1_integer_schema integerSchema 5 "id" {["id" := "42"]}
                eq_refl ltac:(done)) as (Hov & _ & _).
  pose proof (C1_integer_schema integerSchema 5 "id" ∅
                eq_refl ltac:(done)) as (_ & Hfuzz & Hoff).
  split_and!; [by apply Hov | by apply Hfuzz | by apply Hoff].
Defined.

(** C8: with fuzzing off, an override for the parameter name is returned
    whatever the schema and the example are; when no override applies (none
    exists, or fuzzing is on) and an example is present, the example is
    returned as it is. *)
Theorem C8_override_then_example schema example intFuzz fuzzValue paramName paramOverrides :
  (∀ override, paramOverrides !! paramName = Some override → intFuzz = false →
     getDummyValue schema example intFuzz fuzzValue paramName paramOverrides
     = Ok (VStr override))
  ∧ (intFuzz = true ∨ paramOverrides !! paramName = None → isNil example = false →
     getDummyValue schema example intFuzz fuzzValue paramName paramOverrides
     = Ok example).
Proof.
  split.
  - intros override Hov ->. by apply getDummyValue_override.
  - intros Hno Hex. rewrite getDummyValue_no_override by done. by rewrite Hex.
Qed.

Lemma C8_override_then_example_witness :
  getDummyValue {["type" := VStr "string"; "format" := VStr "uuid"]} (VStr "e") false 5
    "id" {["id" := "42"]} = Ok (VStr "42")
  ∧ getDummyValue {["type" := VStr "string"; "format" := VStr "uuid"]} (VStr "e") true 5
      "id" {["id" := "42"]} = Ok (VStr "e").
Proof.
  split.
  - by apply (C8_override_then_example _ (VStr "e") false 5 "id" {["id" := "42"]}).
  - apply (C8_override_then_example _ (VStr "e") true 5 "id" {["id" := "42"]});
      [by left | done].
Defined.

(** C9, as stated, fails: a schema whose type is none of the six names but
    that has [properties] is built as an object, not as the fallback
    string. *)
Lemma C9_counterexample :
  getDummyValue
    {["type" := VStr "file"; "properties" := VObj {["a" := VObj {["type" := VStr "string"]}]}]}
    VNil false 5 "p" ∅
  = Ok (VObj {["a" := VStr "test_string"]}).
Proof. by vm_compute. Qed.

(** C9, amended: with no override, no example and a format other than
    ["uuid"], a schema whose type is none of string, integer, number,
    boolean, array, object (a missing type included) and that has no
    [properties] mapping yields the fallback string ["test_value"]. *)
Theorem C9_fallback schema intFuzz fuzzValue paramName paramOverrides :
  paramOverrides !! paramName = None →
  stringAt schema "format" ≠ "uuid" →
  stringAt schema "type" ∉ ["string"; "integer"; "number"; "boolean"; "array"; "object"] →
  mapAt schema "properties" = None →
  getDummyValue schema VNil intFuzz fuzzValue paramName paramOverrides
  = Ok (VStr "test_value").
Proof.
  intros Hov Hfmt Hty Hprops. rewrite getDummyValue_no_override by auto. simpl.
  apply String.eqb_neq in Hfmt. rewrite Hfmt, Hprops.
  assert (∀ name, name ∈ ["string"; "integer"; "number"; "boolean"; "array"; "object"] →
            String.eqb (stringAt schema "type") name = false) as Hne.
  { intros name Hin. apply String.eqb_neq. by intros <-. }
  assert (byType schema intFuzz fuzzValue paramName paramOverrides (stringAt schema "type")
          = Ok (VStr "test_value")) as ->.
  { unfold byType. by rewrite !Hne, Hprops by (by apply (bool_decide_unpack _)). }
  by destruct (String.eqb _ "").
Qed.

Lemma C9_fallback_witness :
  getDummyValue {["type" := VStr "file"]} VNil true 5 "p" ∅ = Ok (VStr "test_value")
  ∧ getDummyValue ∅ VNil false 5 "p" ∅ = Ok (VStr "test_value").
Proof.
  split.
  - apply (C9_fallback {["type" := VStr "file"]} true 5 "p" ∅); try done.
    by apply (bool_decide_unpack _).
  - apply (C9_fallback ∅ false 5 "p" ∅); try done.
    by apply (bool_decide_unpack _).
Defined.

(** ** Eligibility for fuzzing *)

Lemma isIntegerSchema_true schema :
  isIntegerSchema schema = true ↔ schema !! "type" = Some (VStr "integer").
Proof.
  unfold isIntegerSchema. destruct (schema !! "type") as [[]|]; try by split.
  rewrite String.eqb_eq. split; [by intros ->|by intros [= ->]].
Qed.

Lemma existsb_isIntegerSchema params :
  existsb (λ param, isIntegerSchema (Schema param)) params = true ↔
  ∃ param, param ∈ params ∧ Schema param !! "type" = Some (VStr "integer").
Proof.
  induction params as [|param params IH]; simpl.
  { split; [done|]. by intros (? & []%elem_of_nil & _). }
  rewrite orb_true_iff, IH, isIntegerSchema_true. split.
  - intros [?|(param' & ? & ?)]; [exists param; by split; [left|]|].
    exists param'. by split; [right|].
  - intros (param' & Hin & ?). apply elem_of_cons in Hin as [->|?]; [by left|].
    right. by exists param'.
Qed.

(** [hasIntegerParams] is true exactly when a parameter of the merged list,
    or the body schema under [application/json], has the type ["integer"] at
    its top level. *)
Lemma hasIntegerParams_true operation pathParams :
  hasIntegerParams operation pathParams = Ok true ↔
  (∃ param, param ∈ (pathParams ++ Parameters operation)%list
            ∧ Schema param !! "type" = Some (VStr "integer"))
  ∨ (∃ requestBody content jsonContent schema,
       RequestBody operation = Some requestBody
       ∧ mapAt requestBody "content" = Some content
       ∧ content !! "application/json" = Some (VObj jsonContent)
       ∧ mapAt jsonContent "schema" = Some schema
       ∧ schema !! "type" = Some (VStr "integer")).
Proof.
  unfold hasIntegerParams.
  destruct (existsb _ _) eqn:Hparams.
  { apply existsb_isIntegerSchema in Hparams. by split; [left|]. }
  assert (¬ ∃ param, param ∈ (pathParams ++ Parameters operation)%list
                     ∧ Schema param !! "type" = Some (VStr "integer")) as Hnone.
  { intros Hsome%existsb_isIntegerSchema. congruence. }
  split.
  - intros Htrue. right.
    destruct (RequestBody operation) as [requestBody|]; [|done].
    destruct (mapAt requestBody "content") as [content|] eqn:Hcontent; [|done].
    destruct (content !! "application/json") as [[| | | | | |jsonContent]|] eqn:Hjson;
      try done.
    destruct (mapAt jsonContent "schema") as [schema|] eqn:Hschema; [|done].
    injection Htrue as Htrue%isIntegerSchema_true.
    by exists requestBody, content, jsonContent, schema.
  - intros [?|(requestBody & content & jsonContent & schema & -> & -> & -> & -> & Hty)];
      [done|].
    by apply isIntegerSchema_true in Hty as ->.
Qed.

(** ** The producer: how many requests are sent *)

Lemma andThen_ok (first second : sending) u :
  first.2 = Ok u → andThen first second = ((first.1 ++ second.1)%list, second.2).
Proof. unfold andThen. by intros ->. Qed.

Lemma andThen_panic (first second : sending) :
  first.2 = Panic → andThen first second = first.
Proof. unfold andThen. by intros ->. Qed.

Lemma andThen_ok_inv (first second : sending) u :
  (andThen first second).2 = Ok u → first.2 = Ok () ∧ second.2 = Ok u.
Proof.
  unfold andThen. destruct first as [l [[]|]]; simpl; [done|].
  by intros ?.
Qed.

Section Producer_facts.
Context `{rt : GoRuntime}.
Context (normalizedHost : string) (methodsMap : gmap string bool) (intFuzzing : bool)
  (headerMap0 : gmap string string) (paramOverrideMap : gmap string string).

Local Abbreviation buildRequest :=
  (buildRequest normalizedHost intFuzzing headerMap0 paramOverrideMap).
Local Abbreviation processOperation :=
  (processOperation normalizedHost methodsMap intFuzzing headerMap0 paramOverrideMap).
Local Abbreviation processPath :=
  (processPath normalizedHost methodsMap intFuzzing headerMap0 paramOverrideMap).
Local Abbreviation processPaths :=
  (processPaths normalizedHost methodsMap intFuzzing headerMap0 paramOverrideMap).

Lemma length_fuzzValuesFor hasIntegers :
  length (fuzzValuesFor intFuzzing hasIntegers)
  = if intFuzzing && hasIntegers then 32%nat else 1%nat.
Proof. unfold fuzzValuesFor. by destruct (intFuzzing && hasIntegers). Qed.

(** When every build succeeds, one request is sent per fuzz value, in
    order. *)
Lemma sendEach_all (build : Z → outcome request) fuzzValues :
  (∀ fuzzValue, fuzzValue ∈ fuzzValues → build fuzzValue ≠ Panic) →
  ∃ reqs, sendEach build fuzzValues = (reqs, Ok ())
          ∧ Forall2 (λ fuzzValue req, build fuzzValue = Ok req) fuzzValues reqs.
Proof.
  induction fuzzValues as [|fuzzValue rest IH]; intros Hok; simpl.
  { exists []. by split; [|constructor]. }
  destruct IH as (reqs & Hsend & Hall); [intros; apply Hok; by right|].
  destruct (build fuzzValue) as [req|] eqn:Hbuild; [|by destruct (Hok fuzzValue); [left|]].
  exists (req :: reqs). rewrite Hsend. split; [done|]. by constructor.
Qed.

(** A build that panics stops the loop: strictly fewer requests than fuzz
    values have been sent. *)
Lemma sendEach_length (build : Z → outcome request) fuzzValues :
  match (sendEach build fuzzValues).2 with
  | Ok _ => length (sendEach build fuzzValues).1 = length fuzzValues
  | Panic => (length (sendEach build fuzzValues).1 < length fuzzValues)%nat
  end.
Proof.
  induction fuzzValues as [|fuzzValue rest IH]; simpl; [done|].
  destruct (build fuzzValue) as [req|]; simpl; [|lia].
  destruct (sendEach build rest) as [reqs [[]|]]; simpl in *; lia.
Qed.

Lemma sendEach_ok_inv (build : Z → outcome request) fuzzValues u :
  (sendEach build fuzzValues).2 = Ok u →
  ∀ fuzzValue, fuzzValue ∈ fuzzValues → build fuzzValue ≠ Panic.
Proof.
  induction fuzzValues as [|fuzzValue rest IH]; simpl; intros Hok fv Hin.
  { by apply elem_of_nil in Hin. }
  destruct (build fuzzValue) as [req|] eqn:Hbuild; [|done].
  apply andThen_ok_inv in Hok as [_ Hok].
  apply elem_of_cons in Hin as [->|Hin]; [by rewrite Hbuild|by eapply IH].
Qed.

(** The count of one operation and what is sent for it. *)
Lemma countOperation_processOperation path pathItem method operation total total' :
  countOperation methodsMap intFuzzing pathItem method operation total = Ok total' →
  (total ≤ total')%nat ∧
  match (processOperation path pathItem method operation).2 with
  | Ok _ => length (processOperation path pathItem method operation).1 = (total' - total)%nat
  | Panic => (length (processOperation path pathItem method operation).1 < total' - total)%nat
  end.
Proof.
  unfold countOperation, processOperation.
  destruct operation as [operation|]; [|intros [= <-]; simpl; lia].
  destruct (allowed methodsMap method); [|intros [= <-]; simpl; lia].
  destruct (hasIntegerParams operation _) as [hasIntegers|]; [simpl|done].
  pose proof (sendEach_length (buildRequest path method pathItem operation)
                (fuzzValuesFor intFuzzing hasIntegers)) as Hlen.
  rewrite length_fuzzValuesFor in Hlen.
  destruct (intFuzzing && hasIntegers); intros [= <-]; (split; [simpl; lia|]);
    destruct (sendEach _ _).2; simpl in *; lia.
Qed.

Lemma foldl_outcome_panic {A B} (f : B → A → outcome B) l :
  foldl (λ acc x, b ← acc; f b x) Panic l = Panic.
Proof. by induction l. Qed.

Lemma count_process_operations path pathItem ops total total' :
  foldl (λ acc op, total ← acc; countOperation methodsMap intFuzzing pathItem op.1 op.2 total)
    (Ok total) ops = Ok total' →
  let sending :=
    foldr (λ op rest, andThen (processOperation path pathItem op.1 op.2) rest)
      ([], Ok ()) ops in
  (total ≤ total')%nat ∧
  match sending.2 with
  | Ok _ => length sending.1 = (total' - total)%nat
  | Panic => (length sending.1 < total' - total)%nat
  end.
Proof.
  revert total. induction ops as [|[method operation] ops IH]; intros total; simpl.
  { intros [= <-]. split; [done|lia]. }
  destruct (countOperation _ _ _ _ _ total) as [mid|] eqn:Hcount; simpl;
    [|by rewrite foldl_outcome_panic].
  intros Hrest. apply IH in Hrest as [Hle Hrest].
  apply (countOperation_processOperation path) in Hcount as [Hle' Hcount].
  split; [lia|].
  destruct (processOperation path pathItem method operation) as [reqs [[]|]];
    [rewrite (andThen_ok _ _ ()) by done|rewrite andThen_panic by done];
    simpl in *; [|lia].
  rewrite length_app. revert Hrest.
  match goal with |- context [foldr ?f ?a ops] => destruct (foldr f a ops) as [? []] end;
    simpl; lia.
Qed.

Lemma processPaths_cons entry entries :
  processPaths (entry :: entries) = andThen (processPath entry) (processPaths entries).
Proof. done. Qed.

Lemma count_process_paths entries total total' :
  foldl (λ acc entry, total ← acc; countPath methodsMap intFuzzing entry.2 total)
    (Ok total) entries = Ok total' →
  (total ≤ total')%nat ∧
  match (processPaths entries).2 with
  | Ok _ => length (processPaths entries).1 = (total' - total)%nat
  | Panic => (length (processPaths entries).1 < total' - total)%nat
  end.
Proof.
  revert total. induction entries as [|[path pathItem] entries IH]; intros total.
  { intros [= <-]. split; [done|simpl; lia]. }
  rewrite processPaths_cons. cbn [foldl mbind outcome_bind snd].
  destruct (countPath _ _ pathItem total) as [mid|] eqn:Hcount;
    [|by rewrite foldl_outcome_panic].
  intros Hrest. apply IH in Hrest as [Hle Hrest].
  apply (count_process_operations path) in Hcount as [Hle' Hcount].
  split; [lia|].
  change (foldr _ _ (operations pathItem)) with (processPath (path, pathItem)) in Hcount.
  cbv zeta in Hcount. revert Hcount Hrest.
  destruct (processPath (path, pathItem)) as [reqs [[]|]];
    [rewrite (andThen_ok _ _ ()) by done|rewrite andThen_panic by done];
    simpl; [|lia].
  rewrite length_app.
  destruct (processPaths entries) as [? []]; simpl; lia.
Qed.

Lemma processOperations_ok_inv path pathItem ops u method operation :
  (foldr (λ op rest, andThen (processOperation path pathItem op.1 op.2) rest)
     ([], Ok ()) ops).2 = Ok u →
  (method, operation) ∈ ops →
  (processOperation path pathItem method operation).2 = Ok ().
Proof.
  induction ops as [|op ops IH]; intros Hok Hin; [by apply elem_of_nil in Hin|].
  cbn [foldr] in Hok. apply andThen_ok_inv in Hok as [Hthis Hrest].
  apply elem_of_cons in Hin as [<-|Hin]; [done|by apply IH].
Qed.

(** A producer that reaches the end has got through every operation. *)
Lemma processPaths_ok_inv entries u path pathItem method operation :
  (processPaths entries).2 = Ok u →
  (path, pathItem) ∈ entries →
  (method, operation) ∈ operations pathItem →
  (processOperation path pathItem method operation).2 = Ok ().
Proof.
  intros Hok Hentry Hop.
  induction entries as [|entry entries IH]; [by apply elem_of_nil in Hentry|].
  rewrite processPaths_cons in Hok. apply andThen_ok_inv in Hok as [Hpath Hrest].
  apply elem_of_cons in Hentry as [<-|Hentry]; [|by apply IH].
  by eapply processOperations_ok_inv.
Qed.

Lemma processOperation_ok_inv path pathItem method operation u :
  (processOperation path pathItem method (Some operation)).2 = Ok u →
  allowed methodsMap method = true →
  ∃ hasIntegers,
    hasIntegerParams operation (PathItem_Parameters pathItem) = Ok hasIntegers
    ∧ ∀ fuzzValue, fuzzValue ∈ fuzzValuesFor intFuzzing hasIntegers →
        buildRequest path method pathItem operation fuzzValue ≠ Panic.
Proof.
  unfold processOperation. intros Hok Hallowed. rewrite Hallowed in Hok.
  destruct (hasIntegerParams _ _) as [hasIntegers|]; [|done].
  exists hasIntegers. split; [done|]. by eapply sendEach_ok_inv.
Qed.

End Producer_facts.

(** ** The total does not depend on the order of the visit *)

Section Count_order.
Context (methodsMap : gmap string bool) (intFuzzing : bool).

Local Abbreviation countOperation := (countOperation methodsMap intFuzzing).
Local Abbreviation countPath := (countPath methodsMap intFuzzing).
Local Abbreviation countPaths := (countPaths methodsMap intFuzzing).

Lemma countOperation_shift pathItem method operation total :
  countOperation pathItem method operation total
  = (λ n, (total + n)%nat) <$> countOperation pathItem method operation 0%nat.
Proof.
  unfold countOperation. destruct operation as [operation|]; simpl; [|f_equal; lia].
  destruct (allowed methodsMap method); simpl; [|f_equal; lia].
  destruct (hasIntegerParams _ _) as [hasIntegers|]; simpl; [|done].
  by destruct (intFuzzing && hasIntegers).
Qed.

Lemma countOperations_shift pathItem ops total :
  foldl (λ acc op, total ← acc; countOperation pathItem op.1 op.2 total) (Ok total) ops
  = (λ n, (total + n)%nat)
      <$> foldl (λ acc op, total ← acc; countOperation pathItem op.1 op.2 total)
            (Ok 0%nat) ops.
Proof.
  revert total. induction ops as [|[method operation] ops IH]; intros total; simpl.
  { f_equal. lia. }
  rewrite (countOperation_shift _ _ _ total).
  destruct (countOperation pathItem method operation 0) as [n|]; simpl;
    [|by rewrite !foldl_outcome_panic].
  rewrite (IH (total + n)%nat), (IH n).
  match goal with |- context [foldl ?f (Ok 0%nat) ops] => destruct (foldl f (Ok 0%nat) ops) end;
    simpl; [f_equal; lia|done].
Qed.

Lemma countPath_shift pathItem total :
  countPath pathItem total = (λ n, (total + n)%nat) <$> countPath pathItem 0%nat.
Proof. apply countOperations_shift. Qed.

(** Two rounds of the outer count loop can be swapped. *)
Lemma countPath_swap (acc : outcome nat) pathItem1 pathItem2 :
  (total ← (total ← acc; countPath pathItem1 total); countPath pathItem2 total)
  = (total ← (total ← acc; countPath pathItem2 total); countPath pathItem1 total).
Proof.
  destruct acc as [total|]; simpl; [|done].
  rewrite (countPath_shift pathItem1 total), (countPath_shift pathItem2 total).
  destruct (countPath pathItem1 0) as [n1|] eqn:H1,
           (countPath pathItem2 0) as [n2|] eqn:H2; simpl; try done.
  - rewrite (countPath_shift pathItem2 (total + n1)),
            (countPath_shift pathItem1 (total + n2)), H1, H2. simpl. f_equal. lia.
  - by rewrite (countPath_shift pathItem2 (total + n1)), H2.
  - by rewrite (countPath_shift pathItem1 (total + n2)), H1.
Qed.

Lemma countPaths_Permutation entries1 entries2 :
  entries1 ≡ₚ entries2 → countPaths entries1 = countPaths entries2.
Proof.
  unfold countPaths. generalize (Ok 0%nat : outcome nat).
  intros acc Hperm. revert acc.
  induction Hperm as [|entry entries1 entries2 _ IH|entry1 entry2 entries|
                      entries1 entries2 entries3 _ IH1 _ IH2]; intros acc; simpl.
  - done.
  - apply IH.
  - by rewrite countPath_swap.
  - by rewrite IH1.
Qed.

End Count_order.

(** ** One operation *)

Section Operation_facts.
Context `{rt : GoRuntime}.
Context (normalizedHost : string) (methodsMap : gmap string bool) (intFuzzing : bool)
  (headerMap0 : gmap string string) (paramOverrideMap : gmap string string).

Local Abbreviation resolveParams := (resolveParams intFuzzing paramOverrideMap).
Local Abbreviation buildRequest :=
  (buildRequest normalizedHost intFuzzing headerMap0 paramOverrideMap).
Local Abbreviation processOperation :=
  (processOperation normalizedHost methodsMap intFuzzing headerMap0 paramOverrideMap).

(** C2, amended: for an operation that passes the method filter and whose
    requests all build (no run-time panic while its parameters and body are
    synthesized), exactly one request is sent when fuzzing is off or
    [hasIntegerParams] is false, and exactly 32, one per fuzz value in the
    order of the table, when fuzzing is on and [hasIntegerParams] is true. *)
Theorem C2_requests_per_operation path pathItem method operation hasIntegers :
  allowed methodsMap method = true →
  hasIntegerParams operation (PathItem_Parameters pathItem) = Ok hasIntegers →
  (∀ fuzzValue, fuzzValue ∈ fuzzValuesFor intFuzzing hasIntegers →
     buildRequest path method pathItem operation fuzzValue ≠ Panic) →
  ∃ reqs,
    processOperation path pathItem method (Some operation) = (reqs, Ok ())
    ∧ Forall2 (λ fuzzValue req,
                 buildRequest path method pathItem operation fuzzValue = Ok req)
        (if intFuzzing && hasIntegers then intFuzzValues else [1000]) reqs
    ∧ length reqs = if intFuzzing && hasIntegers then 32%nat else 1%nat.
Proof.
  intros Hallowed Hint Hbuild. unfold processOperation. rewrite Hallowed, Hint.
  destruct (sendEach_all _ _ Hbuild) as (reqs & -> & Hall).
  exists reqs. split_and!; [done..|].
  apply Forall2_length in Hall. by rewrite <-Hall, length_fuzzValuesFor.
Qed.

Lemma resolveParams_panic method fuzzValue allParams st param :
  param ∈ allParams →
  getDummyValue (Schema param) (Example param) intFuzzing fuzzValue (Name param)
    paramOverrideMap = Panic →
  resolveParams method fuzzValue allParams st = Panic.
Proof.
  intros Hin Hpanic. revert st.
  induction allParams as [|first rest IH]; intros st; [by apply elem_of_nil in Hin|].
  simpl. apply elem_of_cons in Hin as [<-|Hin]; [by rewrite Hpanic|].
  destruct (getDummyValue (Schema first) _ _ _ _ _); simpl; [by apply IH|done].
Qed.

Lemma buildRequest_param_panic path method pathItem operation fuzzValue param :
  param ∈ (PathItem_Parameters pathItem ++ Parameters operation)%list →
  getDummyValue (Schema param) (Example param) intFuzzing fuzzValue (Name param)
    paramOverrideMap = Panic →
  buildRequest path method pathItem operation fuzzValue = Panic.
Proof.
  intros Hin Hpanic. unfold buildRequest.
  by erewrite resolveParams_panic.
Qed.

Lemma buildRequest_no_content path method pathItem operation fuzzValue requestBody :
  RequestBody operation = Some requestBody →
  mapAt requestBody "content" = None →
  buildRequest path method pathItem operation fuzzValue = Panic.
Proof.
  intros Hbody Hcontent. unfold buildRequest.
  destruct (resolveParams _ _ _ _) as [st|]; simpl; [|done].
  unfold makeBody. rewrite Hbody.
  unfold mapAt in Hcontent. unfold mustMapAt.
  by destruct (requestBody !! "content") as [[]|].
Qed.

(** When the first build panics, nothing is sent for the operation. *)
Lemma processOperation_panic path pathItem method operation :
  allowed methodsMap method = true →
  (∀ fuzzValue, buildRequest path method pathItem operation fuzzValue = Panic) →
  processOperation path pathItem method (Some operation) = ([], Panic).
Proof.
  intros Hallowed Hpanic. unfold processOperation. rewrite Hallowed.
  destruct (hasIntegerParams _ _) as [hasIntegers|]; [|done].
  unfold fuzzValuesFor, intFuzzValues.
  destruct (intFuzzing && hasIntegers); simpl; by rewrite Hpanic.
Qed.

End Operation_facts.

(** C2, as stated, fails: this operation passes the filter and has no integer
    parameter, fuzzing is off, and no request is sent for it, because the
    synthesis of its parameter panics. *)
Lemma C2_counterexample :
  allowed getOnly "GET" = true
  ∧ hasIntegerParams listThings [] = Ok false
  ∧ processOperation (rt := sampleRuntime) "https://h" getOnly false ∅ ∅
      "/things" (onlyGet listThings []) "GET" (Some listThings)
    = ([], Panic).
Proof. by vm_compute. Qed.

Lemma C2_requests_per_operation_witness :
  ∃ reqs,
    processOperation (rt := sampleRuntime) "https://h" getOnly true ∅ ∅
      "/items/{id}" (onlyGet getItem []) "GET" (Some getItem) = (reqs, Ok ())
    ∧ Forall2 (λ fuzzValue req,
                 buildRequest (rt := sampleRuntime) "https://h" true ∅ ∅
                   "/items/{id}" "GET" (onlyGet getItem []) getItem fuzzValue = Ok req)
        intFuzzValues reqs
    ∧ length reqs = 32%nat.
Proof.
  apply (C2_requests_per_operation (rt := sampleRuntime) "https://h" getOnly true ∅ ∅
           "/items/{id}" (onlyGet getItem []) "GET" getItem true);
    [done..|].
  intros fuzzValue Hin.
  assert (Forall (λ fuzzValue,
            buildRequest (rt := sampleRuntime) "https://h" true ∅ ∅
              "/items/{id}" "GET" (onlyGet getItem []) getItem fuzzValue ≠ Panic)
            intFuzzValues) as Hall.
  { unfold intFuzzValues. repeat constructor; by vm_compute. }
  by eapply Forall_forall in Hall.
Defined.

(** ** The sends that complete *)

Lemma deliver_none answered n reqs : deliver 0 answered n reqs = [].
Proof. by destruct reqs. Qed.

(** With a worker and every round ending, every send completes. *)
Lemma deliver_all free answered n reqs :
  (0 < free)%nat →
  (∀ i, (n ≤ i < n + length reqs)%nat → answered i = true) →
  deliver free answered n reqs = reqs.
Proof.
  intros Hfree. revert n. induction reqs as [|req reqs IH]; intros n Hanswered.
  { by destruct free. }
  destruct free as [|others]; [lia|]. cbn [deliver length] in *.
  rewrite Hanswered by lia. f_equal. apply IH. intros i Hi. apply Hanswered. lia.
Qed.

(** The sends that complete are the first ones. *)
Lemma deliver_prefix free answered n reqs :
  ∃ rest, reqs = (deliver free answered n reqs ++ rest)%list.
Proof.
  revert free n. induction reqs as [|req reqs IH]; intros free n.
  { exists []. by destruct free. }
  destruct free as [|others]; [by eexists|]. cbn [deliver].
  destruct (IH (if answered n then S others else others) (S n)) as [rest Hrest].
  exists rest. cbn [app]. by rewrite <-Hrest.
Qed.

Lemma deliver_length free answered n reqs :
  (length (deliver free answered n reqs) ≤ length reqs)%nat.
Proof.
  destruct (deliver_prefix free answered n reqs) as [rest Hrest].
  rewrite Hrest at 2. rewrite length_app. lia.
Qed.

Lemma deliver_elem free answered n reqs req :
  req ∈ deliver free answered n reqs → req ∈ reqs.
Proof.
  destruct (deliver_prefix free answered n reqs) as [rest Hrest].
  intros Hin. rewrite Hrest. apply elem_of_app. by left.
Qed.

(** ** Running [main] *)

Section Main_facts.
Context `{rt : GoRuntime}.
Context (swaggerFile host : string) (methodsMap : gmap string bool) (intFuzzing : bool)
  (headerMap0 : gmap string string) (paramOverrideMap : gmap string string)
  (threads : Z) (answered : nat → bool).

Local Abbreviation processOperation :=
  (processOperation (normalizeHost host) methodsMap intFuzzing headerMap0 paramOverrideMap).
Local Abbreviation processPaths :=
  (processPaths (normalizeHost host) methodsMap intFuzzing headerMap0 paramOverrideMap).
Local Abbreviation main :=
  (main swaggerFile host methodsMap intFuzzing headerMap0 paramOverrideMap threads answered).

Lemma main_unfold api :
  swaggerFile ≠ "" → host ≠ "" →
  main api =
  match countPaths methodsMap intFuzzing (map_to_list (Paths api)) with
  | Panic => {| totalRequests := None; sent := []; ending := RuntimePanic |}
  | Ok total =>
    let produced := processPaths (map_to_list (Paths api)) in
    let received := deliver (Z.to_nat threads) answered 0 produced.1 in
    {| totalRequests := Some total;
       sent := received;
       ending :=
         if (length received <? length produced.1)%nat then Stuck
         else match produced.2 with
              | Panic => RuntimePanic
              | Ok _ =>
                if forallb answered (seq 0 (length received)) then Returned else Stuck
              end |}
  end.
Proof.
  intros Hfile%String.eqb_neq Hhost%String.eqb_neq. unfold main.
  by rewrite Hfile, Hhost.
Qed.

Lemma main_flags_missing api :
  swaggerFile = "" ∨ host = "" →
  main api = {| totalRequests := None; sent := [];
                ending := Exit1 "Please provide swagger file path and host" |}.
Proof.
  intros Hempty. unfold main.
  assert (String.eqb swaggerFile "" || String.eqb host "" = true) as ->; [|done].
  destruct Hempty as [-> | ->]; [done|]. by rewrite orb_true_r.
Qed.

(** C3, amended: the total computed before any request is sent equals the
    number of requests sent whenever [main] returns; in a run that a panic
    cuts short, strictly fewer requests than the total have been sent. *)
Theorem C3_total_and_sent api :
  (ending (main api) = Returned →
     ∃ total, totalRequests (main api) = Some total ∧ length (sent (main api)) = total)
  ∧ (∀ total, totalRequests (main api) = Some total →
       ending (main api) = RuntimePanic →
       (length (sent (main api)) < total)%nat).
Proof.
  destruct (decide (swaggerFile = "" ∨ host = "")) as [Hempty|Hfull].
  { rewrite main_flags_missing by done. by split. }
  rewrite main_unfold by (intros ->; apply Hfull; auto).
  unfold countPaths.
  destruct (foldl _ _ _) as [total|] eqn:Hcount; simpl; [|by split].
  apply (count_process_paths (normalizeHost host) methodsMap intFuzzing headerMap0
           paramOverrideMap) in Hcount as [_ Hcount].
  rewrite Nat.sub_0_r in Hcount.
  pose proof (deliver_length (Z.to_nat threads) answered 0
                (processPaths (map_to_list (Paths api))).1) as Hle.
  destruct (Nat.ltb_spec (length (deliver (Z.to_nat threads) answered 0
                                    (processPaths (map_to_list (Paths api))).1))
              (length (processPaths (map_to_list (Paths api))).1)) as [Hlt|Hge];
    [by split|].
  split.
  - intros Hend. exists total. split; [done|].
    destruct (processPaths _).2; [lia|done].
  - intros ? [= <-] Hend. destruct (processPaths _).2; [|lia].
    by destruct (forallb _ _).
Qed.

(** The same holds when the two loops visit the paths in different orders,
    as Go allows. *)
Lemma total_and_sent_any_order countEntries sendEntries total :
  countEntries ≡ₚ sendEntries →
  countPaths methodsMap intFuzzing countEntries = Ok total →
  match (processPaths sendEntries).2 with
  | Ok _ => length (processPaths sendEntries).1 = total
  | Panic => (length (processPaths sendEntries).1 < total)%nat
  end.
Proof.
  intros Hperm Hcount. rewrite (countPaths_Permutation _ _ _ _ Hperm) in Hcount.
  apply (count_process_paths (normalizeHost host) methodsMap intFuzzing headerMap0
           paramOverrideMap) in Hcount as [_ Hcount].
  by rewrite Nat.sub_0_r in Hcount.
Qed.

(** A run in which some operation panics ends by that panic, or stays in a
    send before that; it ends by the panic when every send completes. *)
Lemma main_panics api path pathItem method operation :
  swaggerFile ≠ "" → host ≠ "" →
  Paths api !! path = Some pathItem →
  (method, operation) ∈ operations pathItem →
  (processOperation path pathItem method operation).2 = Panic →
  (ending (main api) = RuntimePanic ∨ ending (main api) = Stuck)
  ∧ ((0 < threads)%Z → (∀ n, answered n = true) → ending (main api) = RuntimePanic).
Proof.
  intros Hfile Hhost Hpath Hop Hpanic. rewrite main_unfold by done.
  destruct (countPaths _ _ _); [simpl|by split; [left|]].
  assert ((processPaths (map_to_list (Paths api))).2 = Panic) as Hproduced.
  { destruct (processPaths _).2 as [u|] eqn:Hok; [|done].
    eapply processPaths_ok_inv in Hok; [|by apply elem_of_map_to_list|done].
    congruence. }
  rewrite Hproduced. split.
  - destruct (_ <? _)%nat; [by right|by left].
  - intros Hthreads Hanswered. rewrite deliver_all by (done || lia).
    by rewrite Nat.ltb_irrefl.
Qed.

End Main_facts.

(** C3, as stated, fails: for this document the total is 1 and nothing is
    sent, the run ending in a panic. *)
Lemma C3_counterexample :
  main (rt := sampleRuntime) "swagger.json" "https://h" getOnly false ∅ ∅ 10 (λ _, true)
    thingsApi
  = {| totalRequests := Some 1%nat; sent := []; ending := RuntimePanic |}.
Proof. by vm_compute. Qed.

Lemma C3_total_and_sent_witness :
  ∃ total,
    totalRequests (main (rt := sampleRuntime) "swagger.json" "https://h/" getOnly true ∅ ∅
                     10 (λ _, true) itemsApi) = Some total
    ∧ length (sent (main (rt := sampleRuntime) "swagger.json" "https://h/" getOnly true ∅ ∅
                      10 (λ _, true) itemsApi)) = total.
Proof.
  apply (C3_total_and_sent (rt := sampleRuntime) "swagger.json" "https://h/" getOnly true
           ∅ ∅ 10 (λ _, true) itemsApi).
  by vm_compute.
Defined.

(** ** Malformed schemas *)

Lemma mustMapAt_None (m : gmap string any) key :
  mapAt m key = None → mustMapAt m key = Panic.
Proof. unfold mapAt, mustMapAt. by destruct (m !! key) as [[]|]. Qed.

Lemma mustMapAt_Some (m : gmap string any) key x :
  mustMapAt m key = Ok x ↔ mapAt m key = Some x.
Proof.
  unfold mapAt, mustMapAt. destruct (m !! key) as [[]|]; split; congruence.
Qed.

Lemma getDummyValue_array_without_items schema intFuzz fuzzValue paramName paramOverrides :
  intFuzz = true ∨ paramOverrides !! paramName = None →
  stringAt schema "format" ≠ "uuid" →
  stringAt schema "type" = "array" →
  mapAt schema "items" = None →
  getDummyValue schema VNil intFuzz fuzzValue paramName paramOverrides = Panic.
Proof.
  intros Hno Hfmt Hty Hitems.
  rewrite getDummyValue_by_type by (done || by rewrite Hty).
  rewrite Hty. unfold byType. simpl. by rewrite mustMapAt_None.
Qed.


(** ** What a request is built from *)

Lemma inHeaderOrCookie_In param :
  inHeaderOrCookie param = true → In param = "header" ∨ In param = "cookie".
Proof.
  unfold inHeaderOrCookie. intros [?%String.eqb_eq|?%String.eqb_eq]%orb_true_iff; auto.
Qed.

Lemma placeParam_header_cookie `{rt : GoRuntime} method param value st :
  inHeaderOrCookie param = true → placeParam method param value st = st.
Proof.
  intros Hin%inHeaderOrCookie_In. unfold placeParam.
  destruct Hin as [-> | ->]; simpl; by rewrite andb_false_r.
Qed.

Lemma foldedQuery_snoc values pv :
  foldedQuery (values ++ [pv])
  = if String.eqb (In pv.1) "query" then <[Name pv.1 := pv.2]> (foldedQuery values)
    else foldedQuery values.
Proof. unfold foldedQuery. by rewrite foldl_app. Qed.

Section Request_facts.
Context `{rt : GoRuntime}.
Context (normalizedHost : string) (intFuzzing : bool)
  (headerMap0 : gmap string string) (paramOverrideMap : gmap string string).

Local Abbreviation resolveParams := (resolveParams intFuzzing paramOverrideMap).
Local Abbreviation makeBody := (makeBody intFuzzing paramOverrideMap).
Local Abbreviation valuesOf := (valuesOf intFuzzing paramOverrideMap).
Local Abbreviation buildRequest :=
  (buildRequest normalizedHost intFuzzing headerMap0 paramOverrideMap).

(** The loop over the parameters succeeds exactly when every parameter has a
    value, and then it is the fold of [placeParam] over these values. *)
Lemma resolveParams_values method fuzzValue params st st' :
  resolveParams method fuzzValue params st = Ok st' ↔
  ∃ values, valuesOf fuzzValue params values ∧ st' = placeParams method values st.
Proof.
  revert st. induction params as [|param rest IH]; intros st; simpl.
  { split.
    - intros [= <-]. exists []. by split; [constructor|].
    - intros (values & ->%Forall2_nil_inv_l & ->). done. }
  destruct (getDummyValue (Schema param) _ _ _ _ _) as [value|] eqn:Hvalue; simpl.
  - rewrite IH. split.
    + intros (values & Hvalues & ->). exists ((param, value) :: values).
      split; [by constructor|done].
    + intros (values & Hvalues & ->).
      apply Forall2_cons_inv_l in Hvalues as ([p v] & values' & [Hp Hv] & Hvalues & ->).
      simpl in *. subst p. rewrite Hvalue in Hv. injection Hv as <-.
      by exists values'.
  - split; [done|]. intros (values & Hvalues & _).
    apply Forall2_cons_inv_l in Hvalues as (pv & values' & [_ Hv] & _ & _).
    by rewrite Hvalue in Hv.
Qed.

Lemma resolveParams_withoutHeaderCookie method fuzzValue params st st' :
  resolveParams method fuzzValue params st = Ok st' →
  resolveParams method fuzzValue (withoutHeaderCookie params) st = Ok st'.
Proof.
  unfold withoutHeaderCookie. revert st.
  induction params as [|param rest IH]; intros st; simpl; [done|].
  destruct (getDummyValue (Schema param) _ _ _ _ _) as [value|] eqn:Hvalue; [simpl|done].
  intros Hrest. rewrite filter_cons. case_decide as Hkeep.
  - simpl. rewrite Hvalue. simpl. by apply IH.
  - apply not_false_is_true in Hkeep.
    rewrite placeParam_header_cookie in Hrest by done. by apply IH.
Qed.

(** C10: a request is built as if the parameters located in a header or a
    cookie were not declared at all, under every method and fuzz setting;
    its header map is the configured one, and so are the headers the worker
    sets. *)
Theorem C10_header_cookie_dropped path method pathItem operation fuzzValue req :
  buildRequest path method pathItem operation fuzzValue = Ok req →
  buildRequest path method (dropHeaderCookie_pathItem pathItem)
    (dropHeaderCookie_operation operation) fuzzValue = Ok req
  ∧ headerMap req = headerMap0
  ∧ workerHeaderSets req
    = ("Content-Type", "application/json") :: map_to_list headerMap0.
Proof.
  unfold buildRequest. simpl.
  destruct (resolveParams _ _ _ _) as [st|] eqn:Hst; [simpl|done].
  apply resolveParams_withoutHeaderCookie in Hst.
  unfold withoutHeaderCookie in *. rewrite filter_app in Hst. rewrite Hst. simpl.
  assert (makeBody method (dropHeaderCookie_operation operation) fuzzValue (bodyParams st)
          = makeBody method operation fuzzValue (bodyParams st)) as -> by done.
  destruct (makeBody _ _ _ _) as [b|]; [simpl|done].
  by intros [= <-].
Qed.

(** The folded mapping is the [bodyParams] of the loop. *)
Lemma placeParams_bodyParams method values st :
  carriesBody method = true →
  bodyParams (placeParams method values st)
  = foldl (λ folded pv,
             if String.eqb (In pv.1) "query" then <[Name pv.1 := pv.2]> folded else folded)
      (bodyParams st) values.
Proof.
  intros Hbody. revert st. unfold placeParams.
  induction values as [|[param value] values IH]; intros st; simpl; [done|].
  rewrite IH. f_equal. unfold placeParam. rewrite Hbody. simpl.
  destruct (String.eqb (In param) "query") eqn:Hq; [done|].
  by destruct (String.eqb (In param) "path").
Qed.

(** C6, amended: for a POST, PUT or PATCH request that is built: if the
    operation has no [requestBody] at all, the body is the JSON of the
    mapping of the query-declared parameters, or [{}] when that mapping is
    empty; if it has a [requestBody] whose content has an
    [application/json] entry, the body is the JSON of the value synthesized
    from that entry's schema (under the empty parameter name) and the folded
    parameters are not used; if its content has no [application/json]
    entry, the body is empty. *)
Theorem C6_request_body path method pathItem operation fuzzValue req :
  carriesBody method = true →
  buildRequest path method pathItem operation fuzzValue = Ok req →
  ∃ values,
    valuesOf fuzzValue (PathItem_Parameters pathItem ++ Parameters operation)%list values
    ∧ match RequestBody operation with
      | None =>
        body req = if (0 <? size (foldedQuery values))%nat
                   then jsonMarshal (VObj (foldedQuery values))
                   else "{}"
      | Some requestBody =>
        ∃ content, mapAt requestBody "content" = Some content
        ∧ match content !! "application/json" with
          | None => body req = ""
          | Some jsonContent =>
            ∃ members schema bodyData,
              jsonContent = VObj members
              ∧ mapAt members "schema" = Some schema
              ∧ getDummyValue schema VNil intFuzzing fuzzValue "" paramOverrideMap
                = Ok bodyData
              ∧ body req = jsonMarshal bodyData
          end
      end.
Proof.
  intros Hbody. unfold buildRequest.
  destruct (resolveParams _ _ _ _) as [st|] eqn:Hst; [simpl|done].
  apply resolveParams_values in Hst as (values & Hvalues & ->).
  destruct (makeBody _ _ _ _) as [b|] eqn:Hb; [simpl|done].
  intros [= <-]. simpl. exists values. split; [done|].
  unfold makeBody in Hb. rewrite Hbody in Hb.
  rewrite placeParams_bodyParams in Hb by done.
  change (foldl _ _ values) with (foldedQuery values) in Hb.
  destruct (RequestBody operation) as [requestBody|].
  - destruct (mustMapAt requestBody "content") as [content|] eqn:Hcontent; [|done].
    apply mustMapAt_Some in Hcontent. exists content. split; [done|].
    simpl in Hb. destruct (content !! "application/json") as [jsonContent|];
      [|by injection Hb as <-].
    destruct jsonContent as [| | | | | |members]; try done.
    destruct (mustMapAt members "schema") as [schema|] eqn:Hschema; [|done].
    apply mustMapAt_Some in Hschema. simpl in Hb.
    destruct (getDummyValue schema _ _ _ _ _) as [bodyData|] eqn:Hdata; [|done].
    injection Hb as <-. by exists members, schema, bodyData.
  - revert Hb. by destruct (0 <? size (foldedQuery values))%nat; intros [= <-].
Qed.

End Request_facts.

Lemma C10_header_cookie_dropped_witness :
  buildRequest (rt := sampleRuntime) "https://h" false {["X-Api-Key" := "k"]} ∅
    "/items/{id}" "GET" (dropHeaderCookie_pathItem (onlyGet getItemTraced []))
    (dropHeaderCookie_operation getItemTraced) 1000
  = Ok {| method := "GET"; url := "https://h/items/1000"; body := "";
          headerMap := {["X-Api-Key" := "k"]} |}
  ∧ headerMap {| method := "GET"; url := "https://h/items/1000"; body := "";
                 headerMap := {["X-Api-Key" := "k"]} |} = {["X-Api-Key" := "k"]}
  ∧ workerHeaderSets {| method := "GET"; url := "https://h/items/1000"; body := "";
                        headerMap := {["X-Api-Key" := "k"]} |}
    = ("Content-Type", "application/json") :: map_to_list {["X-Api-Key" := "k"]}.
Proof.
  apply (C10_header_cookie_dropped (rt := sampleRuntime) "https://h" false
           {["X-Api-Key" := "k"]} ∅ "/items/{id}" "GET" (onlyGet getItemTraced [])
           getItemTraced 1000).
  by vm_compute.
Defined.

(** C6, as stated, fails: this POST operation declares no body schema under
    [application/json] and has the query parameter [q], yet its body is
    empty, neither the folded mapping nor [{}]. *)
Lemma C6_counterexample :
  buildRequest (rt := sampleRuntime) "https://h" false ∅ ∅
    "/search" "POST" (onlyPost searchXml []) searchXml 1000
  = Ok {| method := "POST"; url := "https://h/search"; body := ""; headerMap := ∅ |}
  ∧ foldedQuery [(qParam, VStr "test_string")] = {["q" := VStr "test_string"]}.
Proof. by vm_compute. Qed.

Lemma C6_request_body_witness :
  ∃ values,
    valuesOf false ∅ 1000 [qParam] values
    ∧ body {| method := "POST"; url := "https://h/search";
              body := jsonMarshal (GoRuntime := sampleRuntime)
                        (VObj {["q" := VStr "test_string"]});
              headerMap := ∅ |}
      = if (0 <? size (foldedQuery values))%nat
        then jsonMarshal (GoRuntime := sampleRuntime) (VObj (foldedQuery values))
        else "{}".
Proof.
  apply (C6_request_body (rt := sampleRuntime) "https://h" false ∅ ∅
           "/search" "POST" (onlyPost searchPlain []) searchPlain 1000); [done|].
  by vm_compute.
Defined.

(** ** Replacing placeholders *)

Section Strings.
Local Arguments String.append : simpl nomatch.

Lemma append_assoc s1 s2 s3 : (s1 +:+ s2) +:+ s3 = s1 +:+ s2 +:+ s3.
Proof.
  induction s1 as [|c s1 IH]; cbn [String.append]; [done|]. by rewrite IH.
Qed.

Lemma occurs_app c s1 s2 : occurs c (s1 +:+ s2) = occurs c s1 || occurs c s2.
Proof.
  induction s1 as [|d s1 IH]; cbn [occurs String.append]; [done|].
  by rewrite IH, orb_assoc.
Qed.

Lemma occurs_concat c sep parts :
  occurs c sep = false →
  Forall (λ part, occurs c part = false) parts →
  occurs c (String.concat sep parts) = false.
Proof.
  intros Hsep. induction 1 as [|part parts Hpart Hparts IH]; [done|].
  cbn [String.concat]. destruct parts; [done|].
  by rewrite !occurs_app, Hpart, Hsep, IH.
Qed.

Lemma contains_occurs c sub s :
  occurs c s = false → contains (String c sub) s = false.
Proof.
  induction s as [|d s IH]; cbn [occurs contains String.prefix]; [done|].
  intros [Hd Hs]%orb_false_iff. rewrite IH by done.
  destruct (ascii_dec c d) as [<-|]; [|done]. by rewrite Ascii.eqb_refl in Hd.
Qed.

(** Text without an opening brace is copied. *)
Lemma replaceFrom_text old new text rest :
  occurs "{" text = false →
  replaceFrom (String "{" old) new 0 (text +:+ rest)
  = text +:+ replaceFrom (String "{" old) new 0 rest.
Proof.
  induction text as [|c text IH];
    cbn [occurs replaceFrom String.prefix String.append]; [done|].
  intros [Hc Htext]%orb_false_iff.
  destruct (ascii_dec "{" c) as [<-|]; [by rewrite Ascii.eqb_refl in Hc|].
  by rewrite IH.
Qed.

(** The bytes of a matched occurrence are skipped. *)
Lemma replaceFrom_skip old new matched rest :
  replaceFrom old new (String.length matched) (matched +:+ rest)
  = replaceFrom old new 0 rest.
Proof.
  induction matched as [|c matched IH];
    cbn [replaceFrom String.length String.append]; done.
Qed.

Lemma prefix_same s rest : String.prefix s (s +:+ rest) = true.
Proof.
  induction s as [|c s IH]; cbn [String.prefix String.append]; [by destruct rest|].
  by destruct (ascii_dec c c).
Qed.

(** Two names without a closing brace are told apart by the brace that
    ends them. *)
Lemma prefix_other_name name n rest :
  n ≠ name → occurs "}" name = false → occurs "}" n = false →
  String.prefix (name +:+ "}") (n +:+ "}" +:+ rest) = false.
Proof.
  revert n. induction name as [|a name IH]; intros [|c n] Hne;
    cbn [occurs String.prefix String.append]; try done.
  - intros _ [Hc _]%orb_false_iff.
    destruct (ascii_dec "}" c) as [<-|]; [by rewrite Ascii.eqb_refl in Hc|done].
  - intros [Ha _]%orb_false_iff _.
    destruct (ascii_dec a "}") as [->|]; [by rewrite Ascii.eqb_refl in Ha|done].
  - intros [_ Hname]%orb_false_iff [_ Hn]%orb_false_iff.
    destruct (ascii_dec a c) as [->|]; [|done].
    apply IH; [congruence|done..].
Qed.

Lemma length_append s1 s2 :
  String.length (s1 +:+ s2) = (String.length s1 + String.length s2)%nat.
Proof.
  induction s1 as [|c s1 IH]; cbn [String.length String.append]; [done|].
  by rewrite IH.
Qed.

Lemma replaceFrom_hole name new n rest :
  occurs "}" name = false → occurs "{" n = false → occurs "}" n = false →
  replaceFrom ("{" +:+ name +:+ "}") new 0 ("{" +:+ n +:+ "}" +:+ rest)
  = renderSegment (fillSegment name new (Hole n))
    +:+ replaceFrom ("{" +:+ name +:+ "}") new 0 rest.
Proof.
  intros Hname Hopen Hclose.
  change ("{" +:+ n +:+ "}" +:+ rest) with (String "{" (n +:+ "}" +:+ rest)).
  change ("{" +:+ name +:+ "}") with (String "{" (name +:+ "}")).
  cbn [replaceFrom String.prefix String.length fillSegment].
  destruct (ascii_dec "{" "{") as [_|]; [|done].
  destruct (String.eqb_spec n name) as [->|Hne]; cbn [renderSegment].
  - rewrite <-(append_assoc name "}" rest), prefix_same.
    rewrite Nat.sub_succ, Nat.sub_0_r. by rewrite replaceFrom_skip.
  - rewrite prefix_other_name by done.
    rewrite <-(append_assoc n "}" rest).
    rewrite replaceFrom_text by (by rewrite occurs_app, Hopen).
    by rewrite !append_assoc.
Qed.

(** [strings.Replace] on a template fills the placeholders of that name and
    nothing else. *)
Lemma Replace_render segs name new :
  Forall (λ seg, wellFormedSegment seg = true) segs →
  occurs "}" name = false →
  Replace (render segs) ("{" +:+ name +:+ "}") new
  = render (fillSegment name new <$> segs).
Proof.
  intros Hwf Hname. unfold Replace.
  induction Hwf as [|seg segs Hseg Hwf IH]; [done|].
  cbn [render foldr fmap list_fmap]. fold (render segs).
  change (foldr _ _ (fillSegment name new <$> segs))
    with (render (fillSegment name new <$> segs)).
  rewrite <-IH. destruct seg as [text|n]; cbn [wellFormedSegment] in Hseg.
  - apply negb_true_iff in Hseg. cbn [fillSegment renderSegment].
    by apply (replaceFrom_text (name +:+ "}")).
  - apply andb_true_iff in Hseg as [Hopen%negb_true_iff Hclose%negb_true_iff].
    cbn [renderSegment]. rewrite !append_assoc.
    by apply replaceFrom_hole.
Qed.

End Strings.

(** ** The URL of a request *)

Section Url_facts.
Local Arguments String.append : simpl nomatch.

Lemma escapeByte_no_brace c : occurs "{" (escapeByte c) = false.
Proof. by destruct c as [[] [] [] [] [] [] [] []]. Qed.

Lemma QueryEscape_no_brace s : occurs "{" (QueryEscape s) = false.
Proof.
  induction s as [|c s IH]; cbn [QueryEscape]; [done|].
  by rewrite occurs_app, escapeByte_no_brace, IH.
Qed.

Lemma Values_Encode_no_brace v : occurs "{" (Values_Encode v) = false.
Proof.
  unfold Values_Encode. apply occurs_concat; [done|].
  apply Forall_bind, Forall_forall. intros [key values] _.
  apply Forall_fmap, Forall_forall. intros value _. unfold compose.
  rewrite !occurs_app, !QueryEscape_no_brace. reflexivity.
Qed.

Lemma render_app segs1 segs2 : render (segs1 ++ segs2) = render segs1 +:+ render segs2.
Proof.
  induction segs1 as [|seg segs1 IH]; cbn [render foldr app]; [done|].
  fold (render (segs1 ++ segs2)). fold (render segs1).
  by rewrite IH, append_assoc.
Qed.

(** A template whose placeholders are all filled has no opening brace. *)
Lemma render_no_brace segs :
  Forall (λ seg, wellFormedSegment seg = true ∧ isHole seg = false) segs →
  occurs "{" (render segs) = false.
Proof.
  induction 1 as [|seg segs [Hwf Hlit] _ IH]; [done|].
  cbn [render foldr]. fold (render segs). rewrite occurs_app, IH.
  destruct seg as [text|]; [|done]. cbn [wellFormedSegment] in Hwf.
  apply negb_true_iff in Hwf. cbn [renderSegment]. by rewrite Hwf.
Qed.

Context `{rt : GoRuntime}.

Lemma firstPathValue_elem name values text :
  firstPathValue name values = Some text →
  ∃ pv, pv ∈ values ∧ In pv.1 = "path" ∧ Name pv.1 = name ∧ text = Sprint pv.2.
Proof.
  induction values as [|pv values IH]; cbn [firstPathValue]; [done|].
  destruct (String.eqb (In pv.1) "path" && String.eqb (Name pv.1) name) eqn:Hpv.
  - intros [= <-]. exists pv.
    apply andb_true_iff in Hpv as [?%String.eqb_eq ?%String.eqb_eq].
    split_and!; [by left|done..].
  - intros (pv' & ? & ?)%IH. exists pv'. split; [by right|done].
Qed.

Lemma firstPathValue_is_Some name values pv :
  pv ∈ values → In pv.1 = "path" → Name pv.1 = name →
  is_Some (firstPathValue name values).
Proof.
  intros Hin Hpath Hname.
  induction values as [|pv' values IH]; [by apply elem_of_nil in Hin|].
  cbn [firstPathValue].
  destruct (String.eqb (In pv'.1) "path" && String.eqb (Name pv'.1) name) eqn:Hpv; [done|].
  apply elem_of_cons in Hin as [->|Hin]; [|by apply IH].
  by rewrite Hpath, Hname, !String.eqb_refl in Hpv.
Qed.

(** The first path-located parameter of a name is the one that counts. *)
Lemma firstPathValue_first before pv after :
  In pv.1 = "path" →
  (∀ earlier, earlier ∈ before → In earlier.1 = "path" → Name earlier.1 ≠ Name pv.1) →
  firstPathValue (Name pv.1) (before ++ pv :: after) = Some (Sprint pv.2).
Proof.
  intros Hpath. induction before as [|pv' before IH]; intros Hfirst;
    cbn [firstPathValue app].
  { by rewrite Hpath, !String.eqb_refl. }
  destruct (String.eqb (In pv'.1) "path" && String.eqb (Name pv'.1) (Name pv.1)) eqn:Hpv.
  - apply andb_true_iff in Hpv as [?%String.eqb_eq ?%String.eqb_eq].
    destruct (Hfirst pv'); [by left|done..].
  - apply IH. intros earlier ?. apply Hfirst. by right.
Qed.

(** The last query-declared parameter of a name is the one that stays in the
    folded mapping. *)
Lemma foldedQuery_last before pv after :
  In pv.1 = "query" →
  (∀ later, later ∈ after → In later.1 = "query" → Name later.1 ≠ Name pv.1) →
  foldedQuery (before ++ pv :: after) !! Name pv.1 = Some pv.2.
Proof.
  intros Hquery. induction after as [|pv' after IH] using rev_ind; intros Hlast.
  { change (pv :: []) with ([pv]). rewrite foldedQuery_snoc, Hquery. simpl.
    by rewrite lookup_insert_eq. }
  rewrite app_comm_cons, app_assoc, foldedQuery_snoc.
  assert (foldedQuery (before ++ pv :: after) !! Name pv.1 = Some pv.2) as Hrest.
  { apply IH. intros later ?. apply Hlast. apply elem_of_app. by left. }
  destruct (String.eqb (In pv'.1) "query") eqn:Hpv; [|done].
  apply String.eqb_eq in Hpv. rewrite lookup_insert_ne; [done|].
  apply Hlast; [|done]. apply elem_of_app. right. by left.
Qed.

Lemma resolveSegment_fill pv values seg :
  In pv.1 = "path" →
  resolveSegment values (fillSegment (Name pv.1) (Sprint pv.2) seg)
  = resolveSegment (pv :: values) seg.
Proof.
  intros Hpath. destruct seg as [text|n]; [done|].
  cbn [fillSegment resolveSegment firstPathValue]. rewrite Hpath. simpl.
  rewrite (String.eqb_sym (Name pv.1) n). by destruct (String.eqb n (Name pv.1)).
Qed.

Lemma resolveSegment_skip pv values seg :
  In pv.1 ≠ "path" → resolveSegment (pv :: values) seg = resolveSegment values seg.
Proof.
  intros Hpath%String.eqb_neq. destruct seg as [text|n]; [done|].
  cbn [resolveSegment firstPathValue]. by rewrite Hpath.
Qed.

Lemma wellFormedSegment_fill name text seg :
  occurs "{" text = false →
  wellFormedSegment seg = true →
  wellFormedSegment (fillSegment name text seg) = true.
Proof.
  intros Htext Hseg. destruct seg as [|n]; [done|]. cbn [fillSegment].
  destruct (String.eqb n name); [|done]. cbn. by rewrite Htext.
Qed.

(** After the parameter loop, each placeholder holds the value of the first
    path-located parameter of its name, and the others are as they were. *)
Lemma placeParams_requestURL method values st segs :
  Forall (λ seg, wellFormedSegment seg = true) segs →
  Forall braceFree values →
  requestURL st = render segs →
  requestURL (placeParams method values st) = render (resolveSegment values <$> segs).
Proof.
  intros Hwf Hvalues. revert st segs Hwf.
  induction Hvalues as [|pv values Hpv Hvalues IH]; intros st segs Hwf Hurl.
  { cbn [placeParams foldl]. rewrite Hurl. f_equal.
    rewrite <-(list_fmap_id segs) at 1. apply list_fmap_ext. by intros ? []. }
  cbn [placeParams foldl]. fold (placeParams method values (placeParam method pv.1 pv.2 st)).
  unfold placeParam.
  destruct (carriesBody method && String.eqb (In pv.1) "query") eqn:Hfold.
  { apply andb_true_iff in Hfold as [_ Hq%String.eqb_eq].
    rewrite (IH _ segs) by done. f_equal. apply list_fmap_ext.
    intros ? seg _. symmetry. apply resolveSegment_skip. by rewrite Hq. }
  destruct (String.eqb_spec (In pv.1) "path") as [Hpath|Hpath].
  - destruct (Hpv Hpath) as [Hname Hvalue].
    rewrite (IH _ (fillSegment (Name pv.1) (Sprint pv.2) <$> segs)).
    + rewrite <-list_fmap_compose. f_equal. apply list_fmap_ext.
      intros ? seg _. by apply resolveSegment_fill.
    + apply Forall_fmap. eapply Forall_impl; [done|].
      intros seg ?. by apply wellFormedSegment_fill.
    + cbn. rewrite Hurl. by apply Replace_render.
  - assert (∀ st', requestURL st' = requestURL st →
              requestURL (placeParams method values st')
              = render (resolveSegment (pv :: values) <$> segs)) as Hsame.
    { intros st' Hst'. rewrite (IH _ segs) by (by rewrite ?Hst'). f_equal.
      apply list_fmap_ext. intros ? seg _. symmetry. by apply resolveSegment_skip. }
    destruct (String.eqb (In pv.1) "query"); by apply Hsame.
Qed.

End Url_facts.

Section Contains.
Local Arguments String.append : simpl nomatch.

Lemma prefix_app sub s rest :
  String.prefix sub s = true → String.prefix sub (s +:+ rest) = true.
Proof.
  revert sub. induction s as [|c s IH]; intros [|a sub];
    cbn [String.prefix String.append]; try done.
  { by destruct rest. }
  destruct (ascii_dec a c); [apply IH|done].
Qed.

Lemma contains_here sub rest : contains sub (sub +:+ rest) = true.
Proof.
  pose proof (prefix_same sub rest) as Hprefix.
  destruct (sub +:+ rest); cbn [contains]; by rewrite Hprefix.
Qed.

Lemma contains_app_r sub before s :
  contains sub s = true → contains sub (before +:+ s) = true.
Proof.
  intros Hs. induction before as [|c before IH]; cbn [String.append contains]; [done|].
  by rewrite IH, orb_true_r.
Qed.

Lemma contains_app_l sub s rest :
  contains sub s = true → contains sub (s +:+ rest) = true.
Proof.
  induction s as [|c s IH]; cbn [String.append contains].
  { destruct sub; [|done]. intros _. by destruct rest. }
  intros [Hprefix|Hs]%orb_true_iff.
  - change (String c (s +:+ rest)) with (String c s +:+ rest).
    by rewrite prefix_app.
  - by rewrite IH, orb_true_r.
Qed.

(** A segment of a template shows in the text of the template. *)
Lemma contains_render seg segs :
  seg ∈ segs → contains (renderSegment seg) (render segs) = true.
Proof.
  induction segs as [|seg' segs IH]; intros Hin; [by apply elem_of_nil in Hin|].
  cbn [render foldr]. fold (render segs).
  apply elem_of_cons in Hin as [<-|Hin]; [apply contains_here|].
  by apply contains_app_r, IH.
Qed.

End Contains.

Section Url_of_request.
Context `{rt : GoRuntime}.
Context (normalizedHost : string) (intFuzzing : bool)
  (headerMap0 : gmap string string) (paramOverrideMap : gmap string string).

Local Abbreviation valuesOf := (valuesOf intFuzzing paramOverrideMap).
Local Abbreviation buildRequest :=
  (buildRequest normalizedHost intFuzzing headerMap0 paramOverrideMap).

(** A request that is built has the URL left by the parameter loop run on
    the values of the merged parameters. *)
Lemma buildRequest_url path method pathItem operation fuzzValue req :
  buildRequest path method pathItem operation fuzzValue = Ok req →
  ∃ values,
    valuesOf fuzzValue (PathItem_Parameters pathItem ++ Parameters operation)%list values
    ∧ url req = finalURL (placeParams method values (startOf normalizedHost path)).
Proof.
  unfold buildRequest.
  destruct (resolveParams _ _ _ _ _ _) as [st|] eqn:Hst; [simpl|done].
  apply resolveParams_values in Hst as (values & Hvalues & ->).
  destruct (makeBody _ _ _ _ _ _) as [b|]; [simpl|done].
  intros [= <-]. by exists values.
Qed.

Lemma valuesOf_elem fuzzValue params values pv :
  valuesOf fuzzValue params values → pv ∈ values →
  pv.1 ∈ params
  ∧ getDummyValue (Schema pv.1) (Example pv.1) intFuzzing fuzzValue (Name pv.1)
      paramOverrideMap = Ok pv.2.
Proof.
  induction 1 as [|param pv' params values [<- Hv] _ IH]; intros Hin;
    [by apply elem_of_nil in Hin|].
  apply elem_of_cons in Hin as [->|Hin]; [by split; [left|]|].
  destruct (IH Hin). by split; [right|].
Qed.

Lemma valuesOf_param fuzzValue params values param :
  valuesOf fuzzValue params values → param ∈ params →
  ∃ pv, pv ∈ values ∧ pv.1 = param.
Proof.
  induction 1 as [|param' pv params values [<- Hv] _ IH]; intros Hin;
    [by apply elem_of_nil in Hin|].
  apply elem_of_cons in Hin as [->|Hin]; [exists pv; by split; [left|]|].
  destruct (IH Hin) as (pv' & ? & ?). exists pv'. by split; [right|].
Qed.

Lemma finalURL_no_brace st :
  occurs "{" (requestURL st) = false → occurs "{" (finalURL st) = false.
Proof.
  intros Hurl. unfold finalURL. destruct (0 <? size (queryParams st))%nat; [|done].
  rewrite !occurs_app, Hurl, Values_Encode_no_brace. reflexivity.
Qed.

Lemma finalURL_contains sub st :
  contains sub (requestURL st) = true → contains sub (finalURL st) = true.
Proof.
  intros Hurl. unfold finalURL. destruct (0 <? size (queryParams st))%nat; [|done].
  by apply contains_app_l.
Qed.

(** C4, amended: when the host and the path form a template of literal text
    without an opening brace and placeholders [{name}] with brace-free names,
    no path-located parameter has a closing brace in its name and none is
    given a value whose printed form has an opening brace, then: if every
    placeholder names a declared path-located parameter, the URL of every
    request built has no opening brace, hence no placeholder; and a
    placeholder for which no path-located parameter is declared is still in
    the URL. *)
Theorem C4_declared_placeholders_filled path method pathItem operation fuzzValue req segs :
  normalizedHost +:+ path = render segs →
  Forall (λ seg, wellFormedSegment seg = true) segs →
  (∀ param value,
     param ∈ (PathItem_Parameters pathItem ++ Parameters operation)%list →
     getDummyValue (Schema param) (Example param) intFuzzing fuzzValue (Name param)
       paramOverrideMap = Ok value →
     braceFree (param, value)) →
  buildRequest path method pathItem operation fuzzValue = Ok req →
  ((∀ name, Hole name ∈ segs →
      ∃ param, param ∈ (PathItem_Parameters pathItem ++ Parameters operation)%list
               ∧ In param = "path" ∧ Name param = name) →
   occurs "{" (url req) = false
   ∧ ∀ name, contains ("{" +:+ name +:+ "}") (url req) = false)
  ∧ (∀ name, Hole name ∈ segs →
       (∀ param, param ∈ (PathItem_Parameters pathItem ++ Parameters operation)%list →
          In param = "path" → Name param ≠ name) →
       contains ("{" +:+ name +:+ "}") (url req) = true).
Proof.
  intros Htemplate Hwf Hbraces Hreq.
  apply buildRequest_url in Hreq as (values & Hvalues & ->).
  assert (Forall braceFree values) as Hfree.
  { apply Forall_forall. intros [param value] Hin.
    destruct (valuesOf_elem _ _ _ _ Hvalues Hin). by apply Hbraces. }
  split.
  - intros Hdeclared.
    assert (occurs "{" (finalURL (placeParams method values (startOf normalizedHost path)))
            = false) as Hurl.
    { apply finalURL_no_brace.
      rewrite (placeParams_requestURL _ _ _ segs) by done.
      apply render_no_brace, Forall_fmap, Forall_forall. intros seg Hseg. unfold compose.
      assert (wellFormedSegment seg = true) as Hseg_wf.
      { by eapply Forall_forall in Hwf. }
      destruct seg as [text|name]; [done|]. cbn [resolveSegment].
      destruct (Hdeclared name Hseg) as (param & Hparam & Hpath & Hname).
      destruct (valuesOf_param _ _ _ _ Hvalues Hparam) as (pv & Hpv & <-).
      destruct (firstPathValue_is_Some name values pv Hpv Hpath Hname) as [text Htext].
      rewrite Htext.
      apply firstPathValue_elem in Htext as (pv' & Hpv' & Hpath' & _ & ->).
      eapply Forall_forall in Hfree; [|exact Hpv'].
      destruct (Hfree Hpath') as [_ Hvalue]. cbn. by rewrite Hvalue. }
    split; [done|]. intros name. by apply contains_occurs.
  - intros name Hhole Hnone.
    apply finalURL_contains.
    rewrite (placeParams_requestURL _ _ _ segs) by done.
    apply (contains_render (Hole name)).
    apply list_elem_of_fmap. exists (Hole name). split; [|done].
    cbn [resolveSegment].
    destruct (firstPathValue name values) as [text|] eqn:Htext; [|done].
    apply firstPathValue_elem in Htext as (pv & Hpv & Hpath & Hname & _).
    destruct (valuesOf_elem _ _ _ _ Hvalues Hpv) as [Hparam _].
    by destruct (Hnone pv.1 Hparam Hpath).
Qed.

(** C5, amended: the parameters of a request are the path-level ones
    followed by the operation-level ones, entries of the same name kept, and
    they are synthesized and placed in that order.  For a query-declared
    parameter folded into the body, the value of the last entry of a name is
    the one in the folded mapping (the operation-level one on a collision);
    for a placeholder of the path, the value of the first path-located entry
    of a name is the one that fills it (the path-level one on a collision),
    in a template of brace-free literal text and placeholders, when no
    path-located parameter has a closing brace in its name and none is
    given a value whose printed form has an opening brace. *)
Theorem C5_merged_parameters path method pathItem operation fuzzValue req :
  buildRequest path method pathItem operation fuzzValue = Ok req →
  ∃ values,
    valuesOf fuzzValue (PathItem_Parameters pathItem ++ Parameters operation)%list values
    ∧ (carriesBody method = true →
       bodyParams (placeParams method values (startOf normalizedHost path))
       = foldedQuery values)
    ∧ (∀ before pv after,
         values = (before ++ pv :: after)%list → In pv.1 = "query" →
         (∀ later, later ∈ after → In later.1 = "query" → Name later.1 ≠ Name pv.1) →
         foldedQuery values !! Name pv.1 = Some pv.2)
    ∧ (∀ segs,
         normalizedHost +:+ path = render segs →
         Forall (λ seg, wellFormedSegment seg = true) segs →
         Forall braceFree values →
         requestURL (placeParams method values (startOf normalizedHost path))
         = render (resolveSegment values <$> segs)
         ∧ url req = finalURL (placeParams method values (startOf normalizedHost path)))
    ∧ (∀ before pv after,
         values = (before ++ pv :: after)%list → In pv.1 = "path" →
         (∀ earlier, earlier ∈ before → In earlier.1 = "path" →
            Name earlier.1 ≠ Name pv.1) →
         firstPathValue (Name pv.1) values = Some (Sprint pv.2)).
Proof.
  intros Hreq. apply buildRequest_url in Hreq as (values & Hvalues & Hurl).
  exists values. split_and!; [done|..].
  - intros Hbody. by rewrite placeParams_bodyParams.
  - intros before pv after -> Hquery Hlast. by apply foldedQuery_last.
  - intros segs Htemplate Hwf Hfree. split; [|done].
    by apply placeParams_requestURL.
  - intros before pv after -> Hpath Hfirst. by apply firstPathValue_first.
Qed.

End Url_of_request.

(** C4, as stated, fails: the operation declares no parameter for the
    placeholder of its path, and the request goes out with it.  A declared
    parameter does not help when its value brings the placeholder back, or
    when the replacement itself forms one out of a nested template. *)
Lemma C4_counterexample :
  buildRequest (rt := sampleRuntime) "https://h" false ∅ ∅
    "/items/{id}" "GET" (onlyGet getItemBare []) getItemBare 1000
  = Ok {| method := "GET"; url := "https://h/items/{id}"; body := ""; headerMap := ∅ |}
  ∧ contains "{id}" "https://h/items/{id}" = true
  ∧ buildRequest (rt := sampleRuntime) "https://h" false ∅ ∅
      "/items/{id}" "GET" (onlyGet getItemEcho []) getItemEcho 1000
    = Ok {| method := "GET"; url := "https://h/items/{id}"; body := ""; headerMap := ∅ |}
  ∧ buildRequest (rt := sampleRuntime) "https://h" false ∅ ∅
      "/{{ab}b}" "GET" (onlyGet getNested []) getNested 1000
    = Ok {| method := "GET"; url := "https://h/{ab}"; body := ""; headerMap := ∅ |}.
Proof. by vm_compute. Qed.

Lemma C4_declared_placeholders_filled_witness :
  (occurs "{" (url {| method := "GET"; url := "https://h/items/1000"; body := "";
                      headerMap := ∅ |}) = false
   ∧ ∀ name, contains ("{" +:+ name +:+ "}")
               (url {| method := "GET"; url := "https://h/items/1000"; body := "";
                       headerMap := ∅ |}) = false)
  ∧ contains ("{" +:+ "id" +:+ "}")
      (url {| method := "GET"; url := "https://h/items/{id}"; body := "";
              headerMap := ∅ |}) = true.
Proof.
  split.
  - apply (C4_declared_placeholders_filled (rt := sampleRuntime) "https://h" false ∅ ∅
             "/items/{id}" "GET" (onlyGet getItem []) getItem 1000 _ itemTemplate).
    + reflexivity.
    + by repeat constructor.
    + intros param value [->|[]%elem_of_nil]%elem_of_cons [= <-]. by intros _.
    + by vm_compute.
    + intros name Hhole. exists idParam. split; [by left|].
      unfold itemTemplate in Hhole. rewrite !elem_of_cons in Hhole.
      destruct Hhole as [[=]|[[= ->]|[]%elem_of_nil]]. done.
  - apply (C4_declared_placeholders_filled (rt := sampleRuntime) "https://h" false ∅ ∅
             "/items/{id}" "GET" (onlyGet getItemBare []) getItemBare 1000 _ itemTemplate).
    + reflexivity.
    + by repeat constructor.
    + by intros param value []%elem_of_nil.
    + by vm_compute.
    + unfold itemTemplate. rewrite !elem_of_cons. by right; left.
    + by intros param []%elem_of_nil.
Defined.

(** C5, as stated, fails: [id] is declared on the path item with the example
    ["A"] and on the operation with the example ["B"], and the URL carries the
    path-level ["A"]; declared as a query parameter of a GET, both values
    are sent. *)
Lemma C5_counterexample :
  buildRequest (rt := sampleRuntime) "https://h" false ∅ ∅
    "/items/{id}" "GET" (onlyGet getItemB [idParamA]) getItemB 1000
  = Ok {| method := "GET"; url := "https://h/items/A"; body := ""; headerMap := ∅ |}
  ∧ buildRequest (rt := sampleRuntime) "https://h" false ∅ ∅
      "/search" "GET" (onlyGet searchB [qParamA]) searchB 1000
    = Ok {| method := "GET"; url := "https://h/search?q=A&q=B"; body := "";
            headerMap := ∅ |}.
Proof. by vm_compute. Qed.

Lemma C5_merged_parameters_witness :
  ∃ values,
    valuesOf false ∅ 1000 ([idParamA] ++ [idParamB])%list values
    ∧ firstPathValue (rt := sampleRuntime) "id" values = Some "A".
Proof.
  destruct (C5_merged_parameters (rt := sampleRuntime) "https://h" false ∅ ∅
              "/items/{id}" "GET" (onlyGet getItemB [idParamA]) getItemB 1000
              {| method := "GET"; url := "https://h/items/A"; body := "";
                 headerMap := ∅ |})
    as (values & Hvalues & _ & _ & _ & Hfirst); [by vm_compute|].
  exists values. split; [done|].
  pose proof Hvalues as Hall.
  apply Forall2_cons_inv_l in Hall as ([param value] & rest & [Hparam Hvalue] & _ & ->).
  cbn in Hparam, Hvalue. subst param. injection Hvalue as <-.
  apply (Hfirst [] (idParamA, VStr "A") rest); [done..|].
  by intros earlier []%elem_of_nil.
Defined.

(** * Further properties of the program *)

(** ** Objects built by [getDummyValue] *)

(** The loop over [properties] succeeds exactly when every call does, and
    then stores each result under its key. *)
Lemma collect_cases (calls : gmap string (string → outcome any)) :
  match collect calls with
  | Ok result =>
    (∀ key, result !! key = calls !! key ≫= (λ call, okValue (call key)))
    ∧ (∀ key call, calls !! key = Some call → call key ≠ Panic)
  | Panic => ∃ key call, calls !! key = Some call ∧ call key = Panic
  end.
Proof.
  unfold collect.
  apply (map_fold_weak_ind (λ r (m : gmap string (string → outcome any)),
    match r with
    | Ok result =>
      (∀ key, result !! key = m !! key ≫= (λ call, okValue (call key)))
      ∧ (∀ key call, m !! key = Some call → call key ≠ Panic)
    | Panic => ∃ key call, m !! key = Some call ∧ call key = Panic
    end)).
  - split; [intros key; by rewrite !lookup_empty|]. intros ? ?. by rewrite lookup_empty.
  - intros key call m r Hfresh IH. destruct r as [result|].
    + destruct IH as [IHlookup IHok]. destruct (call key) as [v|] eqn:Hcall.
      * split.
        -- intros key'. destruct (decide (key = key')) as [<-|Hne].
           ++ rewrite !lookup_insert_eq. simpl. by rewrite Hcall.
           ++ rewrite !lookup_insert_ne by done. apply IHlookup.
        -- intros key' call'. destruct (decide (key = key')) as [<-|Hne].
           ++ rewrite lookup_insert_eq. intros [= <-]. by rewrite Hcall.
           ++ rewrite lookup_insert_ne by done. apply IHok.
      * exists key, call. by rewrite lookup_insert_eq.
    + destruct IH as (key' & call' & Hlookup & Hpanic). exists key', call'.
      split; [|done]. rewrite lookup_insert_ne; [done|]. intros ->. congruence.
Qed.

Lemma getDummyValue_object schema intFuzz fuzzValue paramName paramOverrides properties :
  intFuzz = true ∨ paramOverrides !! paramName = None →
  stringAt schema "format" ≠ "uuid" →
  stringAt schema "type" ∉ ["string"; "integer"; "number"; "boolean"; "array"] →
  mapAt schema "properties" = Some properties →
  getDummyValue schema VNil intFuzz fuzzValue paramName paramOverrides
  = objectFromProperties intFuzz fuzzValue paramOverrides properties.
Proof.
  intros Hno Hfmt Hty Hprops. rewrite getDummyValue_no_override by done. simpl.
  apply String.eqb_neq in Hfmt. rewrite Hfmt, Hprops.
  destruct (String.eqb (stringAt schema "type") ""); [done|].
  assert (∀ name, name ∈ ["string"; "integer"; "number"; "boolean"; "array"] →
            String.eqb (stringAt schema "type") name = false) as Hne.
  { intros name Hin. apply String.eqb_neq. by intros <-. }
  unfold byType. rewrite !Hne, Hprops by (by apply (bool_decide_unpack _)).
  by destruct (String.eqb _ "object").
Qed.

(** What the loop over [properties] returns. *)
Lemma objectFromProperties_cases intFuzz fuzzValue paramOverrides
    (properties : gmap string any) :
  match objectFromProperties intFuzz fuzzValue paramOverrides properties with
  | Ok value =>
    ∃ result, value = VObj result
    ∧ dom result = dom properties
    ∧ ∀ key prop, properties !! key = Some prop →
        ∃ propMap v, prop = VObj propMap
        ∧ getDummyValue propMap VNil intFuzz fuzzValue key paramOverrides = Ok v
        ∧ result !! key = Some v
  | Panic =>
    ∃ key prop, properties !! key = Some prop
    ∧ ∀ propMap, prop = VObj propMap →
        getDummyValue propMap VNil intFuzz fuzzValue key paramOverrides = Panic
  end.
Proof.
  unfold objectFromProperties.
  pose proof (collect_cases (propertyValue intFuzz fuzzValue paramOverrides <$> properties))
    as Hcases.
  destruct (collect _) as [result|]; simpl.
  - destruct Hcases as [Hlookup Hok]. exists result. split; [done|].
    assert (∀ key prop, properties !! key = Some prop →
      ∃ propMap v, prop = VObj propMap
      ∧ getDummyValue propMap VNil intFuzz fuzzValue key paramOverrides = Ok v
      ∧ result !! key = Some v) as Hentries.
    { intros key prop Hprop. specialize (Hlookup key).
      specialize (Hok key (propertyValue intFuzz fuzzValue paramOverrides prop)).
      rewrite lookup_fmap, Hprop in Hlookup, Hok. simpl in Hlookup.
      specialize (Hok eq_refl).
      destruct prop as [| | | | | |propMap]; try done. simpl in *.
      destruct (getDummyValue propMap _ _ _ _ _) as [v|] eqn:Hv; [|done].
      by exists propMap, v. }
    split; [|done]. apply set_eq. intros key. rewrite !elem_of_dom.
    specialize (Hlookup key). rewrite lookup_fmap in Hlookup.
    destruct (properties !! key) as [prop|] eqn:Hprop.
    + destruct (Hentries key prop Hprop) as (? & v & _ & _ & ->). by split.
    + rewrite Hlookup. by split; intros [? [=]].
  - destruct Hcases as (key & call & Hlookup & Hpanic).
    rewrite lookup_fmap in Hlookup.
    destruct (properties !! key) as [prop|] eqn:Hprop; [|done].
    injection Hlookup as <-. exists key, prop. split; [done|]. by intros propMap ->.
Qed.

(** X1.  A schema that reaches the object rules (no applicable override, no
    example, format not ["uuid"], a type that is none of the five scalar and
    array names, a [properties] map) yields an object with exactly the
    property names, each holding the value synthesized from that property's
    schema under the property's own name; it panics exactly when a property
    is not an object or its synthesis panics. *)
Theorem X1_object_from_properties schema intFuzz fuzzValue paramName paramOverrides
    properties :
  intFuzz = true ∨ paramOverrides !! paramName = None →
  stringAt schema "format" ≠ "uuid" →
  stringAt schema "type" ∉ ["string"; "integer"; "number"; "boolean"; "array"] →
  mapAt schema "properties" = Some properties →
  match getDummyValue schema VNil intFuzz fuzzValue paramName paramOverrides with
  | Ok value =>
    ∃ result, value = VObj result
    ∧ dom result = dom properties
    ∧ ∀ key prop, properties !! key = Some prop →
        ∃ propMap v, prop = VObj propMap
        ∧ getDummyValue propMap VNil intFuzz fuzzValue key paramOverrides = Ok v
        ∧ result !! key = Some v
  | Panic =>
    ∃ key prop, properties !! key = Some prop
    ∧ ∀ propMap, prop = VObj propMap →
        getDummyValue propMap VNil intFuzz fuzzValue key paramOverrides = Panic
  end.
Proof.
  intros Hno Hfmt Hty Hprops. rewrite (getDummyValue_object _ _ _ _ _ properties) by done.
  apply objectFromProperties_cases.
Qed.

Lemma X1_object_from_properties_witness :
  ∃ result, VObj {["id" := VInt 7; "name" := VStr "test_string";
                   "owner" := VObj {["id" := VInt 7]}]} = VObj result
  ∧ dom result = dom ({["id" := VObj integerSchema; "name" := VObj stringSchema;
                        "owner" := VObj ownerSchema]} : gmap string any)
  ∧ ∀ key prop,
      ({["id" := VObj integerSchema; "name" := VObj stringSchema;
         "owner" := VObj ownerSchema]} : gmap string any) !! key = Some prop →
      ∃ propMap v, prop = VObj propMap
      ∧ getDummyValue propMap VNil true 7 key ∅ = Ok v
      ∧ result !! key = Some v.
Proof.
  pose proof (X1_object_from_properties petSchema true 7 "" ∅
                {["id" := VObj integerSchema; "name" := VObj stringSchema;
                  "owner" := VObj ownerSchema]}) as Hobject.
  assert (getDummyValue petSchema VNil true 7 "" ∅
          = Ok (VObj {["id" := VInt 7; "name" := VStr "test_string";
                       "owner" := VObj {["id" := VInt 7]}]})) as Hvalue
    by (by vm_compute).
  rewrite Hvalue in Hobject. apply Hobject; [by left|done| |done].
  by apply (bool_decide_unpack _).
Defined.

(** X2.  Inside an object, a property is synthesized under its own name:
    with fuzzing off an override for that name replaces the property
    whatever its schema is, and with fuzzing on an integer property takes the
    override for its name, or else the current fuzz value. *)
Theorem X2_property_by_name schema intFuzz fuzzValue paramName paramOverrides
    properties key propMap result :
  intFuzz = true ∨ paramOverrides !! paramName = None →
  stringAt schema "format" ≠ "uuid" →
  stringAt schema "type" ∉ ["string"; "integer"; "number"; "boolean"; "array"] →
  mapAt schema "properties" = Some properties →
  properties !! key = Some (VObj propMap) →
  getDummyValue schema VNil intFuzz fuzzValue paramName paramOverrides
  = Ok (VObj result) →
  (∀ override, intFuzz = false → paramOverrides !! key = Some override →
     result !! key = Some (VStr override))
  ∧ (intFuzz = true → propMap !! "type" = Some (VStr "integer") →
     stringAt propMap "format" ≠ "uuid" →
     result !! key = Some (match paramOverrides !! key with
                           | Some override => VStr override
                           | None => VInt fuzzValue
                           end)).
Proof.
  intros Hno Hfmt Hty Hprops Hprop Hvalue.
  rewrite (getDummyValue_object _ _ _ _ _ properties) in Hvalue by done.
  pose proof (objectFromProperties_cases intFuzz fuzzValue paramOverrides properties)
    as Hcases.
  rewrite Hvalue in Hcases. destruct Hcases as (result' & [= <-] & _ & Hentries).
  destruct (Hentries key _ Hprop) as (propMap' & v & [= <-] & Hv & ->).
  split.
  - intros override -> Hov. rewrite (getDummyValue_override _ _ _ _ _ override) in Hv by done.
    by injection Hv as <-.
  - intros -> Hinteger Hformat. apply stringAt_Some in Hinteger.
    rewrite getDummyValue_by_type in Hv; [|by left|done|by rewrite Hinteger].
    rewrite Hinteger in Hv. unfold byType in Hv. simpl in Hv.
    by destruct (paramOverrides !! key); injection Hv as <-.
Qed.

Lemma X2_property_by_name_witness :
  ({["id" := VInt 7; "name" := VStr "test_string";
     "owner" := VObj {["id" := VInt 7]}]} : gmap string any) !! "id"
  = Some (match (∅ : gmap string string) !! "id" with
          | Some override => VStr override
          | None => VInt 7
          end).
Proof.
  apply (X2_property_by_name petSchema true 7 "" ∅
           {["id" := VObj integerSchema; "name" := VObj stringSchema;
             "owner" := VObj ownerSchema]} "id" integerSchema).
  - by left.
  - done.
  - by apply (bool_decide_unpack _).
  - done.
  - done.
  - by vm_compute.
  - done.
  - done.
  - done.
Defined.

(** ** Schemas on which [getDummyValue] cannot panic *)

Lemma allTrue_lookup (flags : gmap string bool) :
  allTrue flags = true ↔ ∀ key flag, flags !! key = Some flag → flag = true.
Proof.
  unfold allTrue.
  apply (map_fold_weak_ind (λ r (m : gmap string bool),
           r = true ↔ ∀ key flag, m !! key = Some flag → flag = true)).
  - split; [|done]. intros _ key flag. by rewrite lookup_empty.
  - intros key flag m r Hfresh IH. rewrite andb_true_iff, IH. split.
    + intros [-> Hall] key' flag'. destruct (decide (key = key')) as [<-|Hne].
      * rewrite lookup_insert_eq. by intros [= <-].
      * rewrite lookup_insert_ne by done. apply Hall.
    + intros Hall. split; [by apply (Hall key); rewrite lookup_insert_eq|].
      intros key' flag' Hlookup. apply (Hall key').
      rewrite lookup_insert_ne; [done|]. intros ->. congruence.
Qed.

Lemma sizes_lookup (sizes : gmap string nat) key n :
  sizes !! key = Some n → (n ≤ map_fold (λ _ n acc, n + acc) 0 sizes)%nat.
Proof.
  revert key n.
  apply (map_fold_weak_ind (λ r (m : gmap string nat),
           ∀ key n, m !! key = Some n → (n ≤ r)%nat)).
  - intros key n. by rewrite lookup_empty.
  - intros key' n' m r Hfresh IH key n. destruct (decide (key' = key)) as [<-|Hne].
    + rewrite lookup_insert_eq. intros [= <-]. lia.
    + rewrite lookup_insert_ne by done. intros Hn%IH. lia.
Qed.

(** A member of an object is smaller than the object. *)
Lemma anySize_lookup (fields : gmap string any) key v :
  fields !! key = Some v → (anySize v < anySize (VObj fields))%nat.
Proof.
  intros Hv. cbn [anySize]. apply Nat.lt_succ_r.
  apply (sizes_lookup _ key). by rewrite lookup_fmap, Hv.
Qed.

Lemma wellShaped_unfold schema :
  wellShaped (VObj schema) = true ↔
  (∀ properties, mapAt schema "properties" = Some properties →
     ∀ key prop, properties !! key = Some prop → wellShaped prop = true)
  ∧ (stringAt schema "type" = "array" →
     ∃ items, mapAt schema "items" = Some items ∧ wellShaped (VObj items) = true).
Proof.
  cbn [wellShaped]. rewrite andb_true_iff, !lookup_fmap. unfold mapAt.
  f_equiv.
  - destruct (schema !! "properties") as [[| | | | | |properties]|]; simpl;
      try (by split; [intros _ ? [=]|]).
    rewrite allTrue_lookup. split.
    + intros Hall ? [= <-] key prop Hprop. apply (Hall key).
      by rewrite lookup_fmap, Hprop.
    + intros Hall key flag. rewrite lookup_fmap.
      destruct (properties !! key) as [prop|] eqn:Hprop; [|done].
      intros [= <-]. by eapply Hall.
  - destruct (String.eqb_spec (stringAt schema "type") "array") as [->|Hne];
      [|by split].
    destruct (schema !! "items") as [[| | | | | |items]|]; simpl;
      try (by split; [|intros [? [[=] _]]; done]).
    split; [intros Hitems _; by exists items|].
    intros [items' [[= <-] Hitems]]; done.
Qed.

Lemma objectFromProperties_ok intFuzz fuzzValue paramOverrides
    (properties : gmap string any) :
  (∀ key prop, properties !! key = Some prop →
     ∃ propMap v, prop = VObj propMap
     ∧ getDummyValue propMap VNil intFuzz fuzzValue key paramOverrides = Ok v) →
  ∃ value, objectFromProperties intFuzz fuzzValue paramOverrides properties = Ok value.
Proof.
  intros Hall.
  pose proof (objectFromProperties_cases intFuzz fuzzValue paramOverrides properties)
    as Hcases.
  destruct (objectFromProperties _ _ _ _) as [value|]; [by exists value|].
  destruct Hcases as (key & prop & Hprop & Hpanic).
  destruct (Hall key prop Hprop) as (propMap & v & -> & Hv).
  by rewrite (Hpanic propMap) in Hv.
Qed.

Lemma mapAt_lookup (m : gmap string any) key x :
  mapAt m key = Some x ↔ m !! key = Some (VObj x).
Proof.
  unfold mapAt. destruct (m !! key) as [[]|]; split; congruence.
Qed.

Lemma wellShaped_object node :
  wellShaped node = true → ∃ schema, node = VObj schema.
Proof. destruct node; try done. by eexists. Qed.

Lemma getDummyValue_wellShaped_bounded n :
  ∀ schema example intFuzz fuzzValue paramName paramOverrides,
    (anySize (VObj schema) ≤ n)%nat →
    wellShaped (VObj schema) = true →
    ∃ value,
      getDummyValue schema example intFuzz fuzzValue paramName paramOverrides = Ok value.
Proof.
  induction n as [|n IH]; intros schema example intFuzz fuzzValue paramName paramOverrides
                                 Hsize Hshape.
  { cbn [anySize] in Hsize. lia. }
  apply wellShaped_unfold in Hshape as [Hprops Hitems].
  assert (∀ properties, mapAt schema "properties" = Some properties →
            ∃ value, objectFromProperties intFuzz fuzzValue paramOverrides properties
                     = Ok value) as Hobject.
  { intros properties Hmap. apply objectFromProperties_ok. intros key prop Hprop.
    pose proof (Hprops properties Hmap key prop Hprop) as Hshaped.
    destruct (wellShaped_object _ Hshaped) as [propMap ->].
    destruct (IH propMap VNil intFuzz fuzzValue key paramOverrides) as [v Hv]; [|done|].
    - apply mapAt_lookup, anySize_lookup in Hmap. apply anySize_lookup in Hprop. lia.
    - by exists propMap, v. }
  assert (∃ value, byType schema intFuzz fuzzValue paramName paramOverrides
                     (stringAt schema "type") = Ok value) as Hswitch.
  { unfold byType.
    destruct (String.eqb (stringAt schema "type") "string"); [by eexists|].
    destruct (String.eqb (stringAt schema "type") "integer").
    { destruct intFuzz; [destruct (paramOverrides !! paramName)|]; by eexists. }
    destruct (String.eqb (stringAt schema "type") "number"); [by eexists|].
    destruct (String.eqb (stringAt schema "type") "boolean"); [by eexists|].
    destruct (String.eqb_spec (stringAt schema "type") "array") as [Hty|_].
    { destruct (Hitems Hty) as (items & Hmap & Hshaped).
      apply mustMapAt_Some in Hmap as Hmust. rewrite Hmust. simpl.
      destruct (IH items VNil intFuzz fuzzValue paramName paramOverrides) as [v Hv];
        [apply mapAt_lookup, anySize_lookup in Hmap; lia|done|].
      rewrite Hv. by eexists. }
    destruct (String.eqb (stringAt schema "type") "object");
      (destruct (mapAt schema "properties") as [properties|]; [by apply Hobject|by eexists]). }
  rewrite getDummyValue_unfold.
  assert (∃ value,
    (if negb (isNil example) then Ok example else
     let schemaType := stringAt schema "type" in
     let schemaFormat := stringAt schema "format" in
     if String.eqb schemaFormat "uuid" then Ok (VStr staticUUID) else
     match (if String.eqb schemaType "" then mapAt schema "properties" else None) with
     | Some properties => objectFromProperties intFuzz fuzzValue paramOverrides properties
     | None => byType schema intFuzz fuzzValue paramName paramOverrides schemaType
     end) = Ok value) as Hrest.
  { destruct (negb (isNil example)); [by eexists|]. cbv zeta.
    destruct (String.eqb (stringAt schema "format") "uuid"); [by eexists|].
    destruct (String.eqb (stringAt schema "type") ""); [|done].
    destruct (mapAt schema "properties") as [properties|]; [by apply Hobject|done]. }
  destruct (paramOverrides !! paramName) as [override|], intFuzz; try done.
  by eexists.
Qed.

(** X3.  [getDummyValue] returns a value, whatever the example, the flags and
    the overrides are, for every schema in which the entries of each
    [properties] map are objects of that kind again and each ["array"] node
    has such an object as [items]. *)
Theorem X3_wellShaped_never_panics schema example intFuzz fuzzValue paramName
    paramOverrides :
  wellShaped (VObj schema) = true →
  ∃ value,
    getDummyValue schema example intFuzz fuzzValue paramName paramOverrides = Ok value.
Proof. intros Hshape. by eapply getDummyValue_wellShaped_bounded. Qed.

Lemma X3_wellShaped_never_panics_witness :
  ∃ value, getDummyValue petSchema VNil true 7 "" ∅ = Ok value.
Proof. apply (X3_wellShaped_never_panics petSchema VNil true 7 "" ∅). by vm_compute. Defined.

(** X4.  With fuzzing on, a schema of type string, number or boolean gets
    the same value whatever the overrides, the parameter name and the fuzz
    value are: an override is only consulted again inside the integer
    rule. *)
Theorem X4_fuzzing_ignores_overrides_of_scalars schema example
    fuzzValue fuzzValue' paramName paramName' paramOverrides paramOverrides' :
  stringAt schema "type" ∈ ["string"; "number"; "boolean"] →
  getDummyValue schema example true fuzzValue paramName paramOverrides
  = getDummyValue schema example true fuzzValue' paramName' paramOverrides'.
Proof.
  intros Hty. rewrite !getDummyValue_no_override by (by left).
  destruct (negb (isNil example)); [done|].
  destruct (String.eqb (stringAt schema "format") "uuid"); [done|].
  assert (String.eqb (stringAt schema "type") "" = false) as ->.
  { apply String.eqb_neq. intros Hempty. rewrite Hempty, !elem_of_cons in Hty.
    by destruct Hty as [? | [? | [? | ?%elem_of_nil]]]. }
  unfold byType. rewrite !elem_of_cons in Hty.
  destruct Hty as [-> | [-> | [-> | []%elem_of_nil]]]; done.
Qed.

Lemma X4_fuzzing_ignores_overrides_of_scalars_witness :
  getDummyValue stringSchema VNil true 1 "name" {["name" := "bob"]}
  = getDummyValue stringSchema VNil true 90 "q" ∅.
Proof.
  apply (X4_fuzzing_ignores_overrides_of_scalars stringSchema VNil 1 90 "name" "q"
           {["name" := "bob"]} ∅).
  by apply (bool_decide_unpack _).
Defined.

(** ** The host *)

Section Host.
Local Arguments String.append : simpl nomatch.

Lemma trimRightSlash_empty_iff s : trimRightSlash s = "" ↔ onlySlashes s = true.
Proof.
  induction s as [|c s IH]; cbn [trimRightSlash onlySlashes]; [done|].
  rewrite andb_true_iff, <-IH.
  destruct (trimRightSlash s) as [|d kept].
  - destruct (Ascii.eqb c "/"); split; try done; by intros [? _].
  - split; [done|]. by intros [_ [=]].
Qed.

Lemma trimRightSlash_split s :
  ∃ slashes, s = trimRightSlash s +:+ slashes ∧ onlySlashes slashes = true.
Proof.
  induction s as [|c s (slashes & Hs & Hslashes)]; [by exists ""|].
  cbn [trimRightSlash].
  destruct (trimRightSlash s) as [|d kept] eqn:Htrim.
  - destruct (Ascii.eqb_spec c "/") as [->|Hne].
    + exists (String "/" slashes). cbn [String.append] in *.
      split; [congruence|]. cbn [onlySlashes]. by rewrite Hslashes.
    + exists slashes. cbn [String.append] in *. split; [congruence|done].
  - exists slashes. cbn [String.append] in *. split; [congruence|done].
Qed.

Lemma trimRightSlash_lastByte s : lastByte (trimRightSlash s) ≠ Some "/"%char.
Proof.
  induction s as [|c s IH]; cbn [trimRightSlash]; [done|].
  destruct (trimRightSlash s) as [|d kept] eqn:Htrim.
  - destruct (Ascii.eqb_spec c "/") as [->|Hne]; [done|].
    cbn [lastByte]. congruence.
  - done.
Qed.

Lemma trimRightSlash_app_slashes s slashes :
  onlySlashes slashes = true → trimRightSlash (s +:+ slashes) = trimRightSlash s.
Proof.
  intros Hslashes%trimRightSlash_empty_iff.
  induction s as [|c s IH]; cbn [String.append trimRightSlash]; [done|].
  by rewrite IH.
Qed.

End Host.

(** X5.  [normalizeHost] cuts off exactly the trailing slashes: the host is
    the result followed by slashes only, the result does not end in a slash,
    and normalizing again, or adding slashes before normalizing, changes
    nothing.  A host made of slashes only becomes the empty string. *)
Theorem X5_normalizeHost host :
  (∃ slashes, host = normalizeHost host +:+ slashes ∧ onlySlashes slashes = true)
  ∧ lastByte (normalizeHost host) ≠ Some "/"%char
  ∧ normalizeHost (normalizeHost host) = normalizeHost host
  ∧ (∀ slashes, onlySlashes slashes = true →
       normalizeHost (host +:+ slashes) = normalizeHost host)
  ∧ (normalizeHost host = "" ↔ onlySlashes host = true).
Proof.
  unfold normalizeHost. split_and!.
  - apply trimRightSlash_split.
  - apply trimRightSlash_lastByte.
  - destruct (trimRightSlash_split host) as (slashes & Hhost & Hslashes).
    rewrite Hhost at 2. by rewrite trimRightSlash_app_slashes.
  - intros slashes. apply trimRightSlash_app_slashes.
  - apply trimRightSlash_empty_iff.
Qed.

(** ** Runs of [main] *)

Section Runs.
Context `{rt : GoRuntime}.
Context (swaggerFile host : string) (methodsMap : gmap string bool) (intFuzzing : bool)
  (headerMap0 : gmap string string) (paramOverrideMap : gmap string string)
  (threads : Z) (answered : nat → bool).

Local Abbreviation resolveParams := (resolveParams intFuzzing paramOverrideMap).
Local Abbreviation makeBody := (makeBody intFuzzing paramOverrideMap).
Local Abbreviation buildRequest :=
  (buildRequest (normalizeHost host) intFuzzing headerMap0 paramOverrideMap).
Local Abbreviation processOperation :=
  (processOperation (normalizeHost host) methodsMap intFuzzing headerMap0 paramOverrideMap).
Local Abbreviation processPaths :=
  (processPaths (normalizeHost host) methodsMap intFuzzing headerMap0 paramOverrideMap).
Local Abbreviation countOperation := (countOperation methodsMap intFuzzing).
Local Abbreviation main :=
  (main swaggerFile host methodsMap intFuzzing headerMap0 paramOverrideMap threads answered).

(** *** Where the requests come from *)

Lemma andThen_elem (first second : sending) req :
  req ∈ (andThen first second).1 → req ∈ first.1 ∨ req ∈ second.1.
Proof.
  unfold andThen. destruct first.2; simpl; [|by left]. by rewrite elem_of_app.
Qed.

Lemma sendEach_elem (build : Z → outcome request) fuzzValues req :
  req ∈ (sendEach build fuzzValues).1 →
  ∃ fuzzValue, fuzzValue ∈ fuzzValues ∧ build fuzzValue = Ok req.
Proof.
  induction fuzzValues as [|fuzzValue rest IH]; simpl; [by intros ?%elem_of_nil|].
  destruct (build fuzzValue) as [first|] eqn:Hbuild; [|by intros ?%elem_of_nil].
  intros [Hin|Hin]%andThen_elem.
  - apply list_elem_of_singleton in Hin as ->. exists fuzzValue. by split; [left|].
  - destruct (IH Hin) as (fv & ? & ?). exists fv. by split; [right|].
Qed.

Lemma processOperation_elem path pathItem method operation req :
  req ∈ (processOperation path pathItem method operation).1 →
  ∃ op hasIntegers fuzzValue,
    operation = Some op
    ∧ allowed methodsMap method = true
    ∧ hasIntegerParams op (PathItem_Parameters pathItem) = Ok hasIntegers
    ∧ fuzzValue ∈ fuzzValuesFor intFuzzing hasIntegers
    ∧ buildRequest path method pathItem op fuzzValue = Ok req.
Proof.
  unfold processOperation. destruct operation as [op|]; [|by intros ?%elem_of_nil].
  destruct (allowed methodsMap method); [|by intros ?%elem_of_nil].
  destruct (hasIntegerParams _ _) as [hasIntegers|] eqn:Hint; [|by intros ?%elem_of_nil].
  intros (fuzzValue & ? & ?)%sendEach_elem. by exists op, hasIntegers, fuzzValue.
Qed.

Lemma processPaths_elem entries req :
  req ∈ (processPaths entries).1 →
  ∃ path pathItem method operation,
    (path, pathItem) ∈ entries
    ∧ (method, operation) ∈ operations pathItem
    ∧ req ∈ (processOperation path pathItem method operation).1.
Proof.
  induction entries as [|[path pathItem] entries IH]; [by intros ?%elem_of_nil|].
  rewrite processPaths_cons. intros [Hin|Hin]%andThen_elem.
  - exists path, pathItem. unfold processPath in Hin. cbn [fst snd] in Hin.
    revert Hin. generalize (operations pathItem). intros ops.
    induction ops as [|[method operation] ops IHops]; [by intros ?%elem_of_nil|].
    cbn [foldr fst snd]. intros [Hin|Hin]%andThen_elem.
    + exists method, operation. split_and!; [by left|by left|done].
    + destruct (IHops Hin) as (m & o & _ & ? & ?). exists m, o.
      split_and!; [by left|by right|done].
  - destruct (IH Hin) as (p & pi & m & o & ? & ? & ?). exists p, pi, m, o.
    split_and!; [by right|done..].
Qed.

Lemma operations_method pathItem method operation :
  (method, operation) ∈ operations pathItem → method ∈ methodNames.
Proof.
  unfold operations, methodNames. rewrite !elem_of_cons.
  intros [[= -> _]|[[= -> _]|[[= -> _]|[[= -> _]|[[= -> _]|[]%elem_of_nil]]]]];
    auto 10.
Qed.

Lemma buildRequest_method_headers path m pathItem operation fuzzValue req :
  buildRequest path m pathItem operation fuzzValue = Ok req →
  method req = m ∧ headerMap req = headerMap0.
Proof.
  unfold buildRequest.
  destruct (resolveParams _ _ _ _) as [st|]; [simpl|done].
  destruct (makeBody _ _ _ _) as [b|]; [simpl|done].
  by intros [= <-].
Qed.

Lemma main_sent api req :
  req ∈ sent (main api) →
  swaggerFile ≠ "" ∧ host ≠ "" ∧ req ∈ (processPaths (map_to_list (Paths api))).1.
Proof.
  destruct (decide (swaggerFile = "")) as [->|Hfile].
  { rewrite main_flags_missing by auto. by intros ?%elem_of_nil. }
  destruct (decide (host = "")) as [->|Hhost].
  { rewrite main_flags_missing by auto. by intros ?%elem_of_nil. }
  rewrite main_unfold by done.
  destruct (countPaths _ _ _); [|by intros ?%elem_of_nil].
  intros Hin%deliver_elem. done.
Qed.

(** X6.  Every request sent comes from the document and the filter: it is
    the request built for an operation that the document defines under one
    of the five method names, with a method the filter allows, for the fuzz
    value 1000 or, when fuzzing is on, a value of the table; and it carries
    the configured header map. *)
Theorem X6_sent_requests_come_from_the_document api req :
  req ∈ sent (main api) →
  ∃ path pathItem operation fuzzValue,
    Paths api !! path = Some pathItem
    ∧ (method req, Some operation) ∈ operations pathItem
    ∧ method req ∈ methodNames
    ∧ allowed methodsMap (method req) = true
    ∧ (fuzzValue = 1000 ∨ intFuzzing = true ∧ fuzzValue ∈ intFuzzValues)
    ∧ buildRequest path (method req) pathItem operation fuzzValue = Ok req
    ∧ headerMap req = headerMap0.
Proof.
  intros (_ & _ & Hin)%main_sent.
  apply processPaths_elem in Hin as (path & pathItem & m & operation & Hentry & Hop & Hin).
  apply processOperation_elem in Hin
    as (op & hasIntegers & fuzzValue & -> & Hallowed & _ & Hfuzz & Hbuild).
  destruct (buildRequest_method_headers _ _ _ _ _ _ Hbuild) as [<- Hheaders].
  exists path, pathItem, op, fuzzValue. split_and!; try done.
  - by apply elem_of_map_to_list.
  - by eapply operations_method.
  - unfold fuzzValuesFor in Hfuzz. destruct intFuzzing; simpl in Hfuzz.
    + destruct hasIntegers; [by right|]. left. by apply list_elem_of_singleton in Hfuzz.
    + left. by apply list_elem_of_singleton in Hfuzz.
Qed.

(** *** Operations that are not looked at *)

Lemma processOperation_skipped path pathItem m operation :
  (∀ op, operation = Some op → allowed methodsMap m = false) →
  processOperation path pathItem m operation = ([], Ok ()).
Proof.
  unfold processOperation. destruct operation as [op|]; [|done].
  intros Hskip. by rewrite (Hskip op).
Qed.

Lemma countOperation_skipped pathItem m operation total :
  (∀ op, operation = Some op → allowed methodsMap m = false) →
  countOperation pathItem m operation total = Ok total.
Proof.
  unfold countOperation. destruct operation as [op|]; [|done].
  intros Hskip. by rewrite (Hskip op).
Qed.

Lemma nothing_allowed entries :
  (∀ path pathItem m op,
     (path, pathItem) ∈ entries → (m, Some op) ∈ operations pathItem →
     allowed methodsMap m = false) →
  processPaths entries = ([], Ok ()) ∧ countPaths methodsMap intFuzzing entries = Ok 0%nat.
Proof.
  unfold countPaths. generalize 0%nat.
  induction entries as [|[path pathItem] entries IH]; intros total Hskip; [done|].
  rewrite processPaths_cons. cbn [foldl snd mbind outcome_bind].
  assert (processPath (normalizeHost host) methodsMap intFuzzing headerMap0
            paramOverrideMap (path, pathItem) = ([], Ok ())
          ∧ countPath methodsMap intFuzzing pathItem total = Ok total) as [-> ->].
  { unfold processPath, countPath. cbn [fst snd].
    assert (∀ m op, (m, Some op) ∈ operations pathItem → allowed methodsMap m = false)
      as Hops.
    { intros m op. apply (Hskip path pathItem). by left. }
    revert Hops. generalize (operations pathItem). intros ops.
    induction ops as [|[m operation] ops IHops]; intros Hops; [done|].
    cbn [foldr foldl fst snd mbind outcome_bind].
    rewrite processOperation_skipped, countOperation_skipped;
      [|intros op ->; apply (Hops m op); by left..].
    destruct IHops as [-> ->]; [|done]. intros m' op' ?. apply (Hops m' op'). by right. }
  destruct (IH total) as [-> ->]; [|done].
  intros p pi m op ?. apply (Hskip p pi). by right.
Qed.

(** X7.  When no operation of the document is defined under a method that
    the filter allows (an empty document, a filter with none of the five
    names), [main] counts nothing, sends nothing and returns, without
    looking into any operation: not even a malformed one makes it panic. *)
Theorem X7_nothing_allowed api :
  swaggerFile ≠ "" → host ≠ "" →
  (∀ path pathItem m operation,
     Paths api !! path = Some pathItem → (m, Some operation) ∈ operations pathItem →
     allowed methodsMap m = false) →
  main api = {| totalRequests := Some 0%nat; sent := []; ending := Returned |}.
Proof.
  intros Hfile Hhost Hskip. rewrite main_unfold by done.
  destruct (nothing_allowed (map_to_list (Paths api))) as [-> ->].
  { intros path pathItem m op Hentry. apply (Hskip path pathItem).
    by apply elem_of_map_to_list. }
  cbv zeta. cbn [fst snd]. by destruct (Z.to_nat threads).
Qed.

(** *** A panic while counting *)

Lemma countOperation_ok_inv pathItem m op total total' :
  countOperation pathItem m (Some op) total = Ok total' →
  allowed methodsMap m = true →
  hasIntegerParams op (PathItem_Parameters pathItem) ≠ Panic.
Proof.
  unfold countOperation. intros Hcount Hallowed. rewrite Hallowed in Hcount.
  by destruct (hasIntegerParams _ _).
Qed.

Lemma countOperations_ok_inv pathItem ops acc total m op :
  foldl (λ acc op, total ← acc; countOperation pathItem op.1 op.2 total) acc ops
  = Ok total →
  (m, Some op) ∈ ops → allowed methodsMap m = true →
  hasIntegerParams op (PathItem_Parameters pathItem) ≠ Panic.
Proof.
  revert acc. induction ops as [|[m' operation'] ops IH]; intros acc Hcount Hin Hallowed;
    [by apply elem_of_nil in Hin|].
  cbn [foldl fst snd] in Hcount.
  apply elem_of_cons in Hin as [[= <- <-]|Hin]; [|by eapply IH].
  destruct acc as [start|]; cbn [mbind outcome_bind] in Hcount;
    [|by rewrite foldl_outcome_panic in Hcount].
  destruct (countOperation pathItem m (Some op) start) as [next|] eqn:Hthis;
    [by eapply countOperation_ok_inv|by rewrite foldl_outcome_panic in Hcount].
Qed.

Lemma countPaths_ok_inv entries total path pathItem m op :
  countPaths methodsMap intFuzzing entries = Ok total →
  (path, pathItem) ∈ entries → (m, Some op) ∈ operations pathItem →
  allowed methodsMap m = true →
  hasIntegerParams op (PathItem_Parameters pathItem) ≠ Panic.
Proof.
  unfold countPaths. generalize (Ok 0%nat : outcome nat).
  induction entries as [|entry entries IH]; intros acc Hcount Hentry Hop Hallowed;
    [by apply elem_of_nil in Hentry|].
  cbn [foldl] in Hcount.
  apply elem_of_cons in Hentry as [<-|Hentry]; [|by eapply IH].
  destruct acc as [start|]; cbn [mbind outcome_bind snd] in Hcount;
    [|by rewrite foldl_outcome_panic in Hcount].
  destruct (countPath methodsMap intFuzzing pathItem start) as [next|] eqn:Hthis;
    [|by rewrite foldl_outcome_panic in Hcount].
  unfold countPath in Hthis. by eapply countOperations_ok_inv.
Qed.

Lemma hasIntegerParams_panic operation pathParams :
  hasIntegerParams operation pathParams = Panic ↔
  (∀ param, param ∈ (pathParams ++ Parameters operation)%list →
     Schema param !! "type" ≠ Some (VStr "integer"))
  ∧ ∃ requestBody content jsonContent,
      RequestBody operation = Some requestBody
      ∧ mapAt requestBody "content" = Some content
      ∧ content !! "application/json" = Some jsonContent
      ∧ ∀ members, jsonContent ≠ VObj members.
Proof.
  unfold hasIntegerParams.
  destruct (existsb _ _) eqn:Hparams.
  { apply existsb_isIntegerSchema in Hparams as (param & Hin & Hty).
    split; [done|]. intros [Hnone _]. by destruct (Hnone param). }
  assert (∀ param, param ∈ (pathParams ++ Parameters operation)%list →
            Schema param !! "type" ≠ Some (VStr "integer")) as Hnone.
  { intros param Hin Hty.
    assert (existsb (λ param, isIntegerSchema (Schema param))
              (pathParams ++ Parameters operation) = true) as Hsome
      by (apply existsb_isIntegerSchema; by exists param).
    congruence. }
  destruct (RequestBody operation) as [requestBody|];
    [|split; [done|by intros [_ (? & ? & ? & [=] & _)]]].
  destruct (mapAt requestBody "content") as [content|] eqn:Hcontent;
    [|split; [done|intros [_ (? & ? & ? & [= <-] & ? & _)]; congruence]].
  destruct (content !! "application/json") as [jsonContent|] eqn:Hjson;
    [|split; [done|intros [_ (? & ? & ? & [= <-] & ? & ? & _)]; congruence]].
  assert ((∀ members, jsonContent ≠ VObj members) →
          ∃ requestBody0 content0 jsonContent0,
            Some requestBody = Some requestBody0
            ∧ mapAt requestBody0 "content" = Some content0
            ∧ content0 !! "application/json" = Some jsonContent0
            ∧ ∀ members, jsonContent0 ≠ VObj members) as Hthere.
  { intros ?. by exists requestBody, content, jsonContent. }
  destruct jsonContent as [| | | | | |members]; try (by split; [auto|]).
  split.
  - by destruct (mapAt members "schema").
  - intros [_ (rb & c & jc & [= <-] & Hc & Hj & Hno)].
    rewrite Hcontent in Hc. injection Hc as <-. rewrite Hjson in Hj. injection Hj as <-.
    by destruct (Hno members).
Qed.

(** X8.  [hasIntegerParams] runs in the counting loop for every allowed
    operation, fuzzing on or off.  If, for such an operation, no merged
    parameter has the type ["integer"] and the [application/json] entry of the
    body content is not an object, it panics there: [main] ends before the
    total is known and before any request is sent. *)
Theorem X8_panic_while_counting api path pathItem m operation :
  swaggerFile ≠ "" → host ≠ "" →
  Paths api !! path = Some pathItem →
  (m, Some operation) ∈ operations pathItem →
  allowed methodsMap m = true →
  (∀ param, param ∈ (PathItem_Parameters pathItem ++ Parameters operation)%list →
     Schema param !! "type" ≠ Some (VStr "integer")) →
  (∃ requestBody content jsonContent,
     RequestBody operation = Some requestBody
     ∧ mapAt requestBody "content" = Some content
     ∧ content !! "application/json" = Some jsonContent
     ∧ ∀ members, jsonContent ≠ VObj members) →
  main api = {| totalRequests := None; sent := []; ending := RuntimePanic |}.
Proof.
  intros Hfile Hhost Hpath Hop Hallowed Hnone Hbody. rewrite main_unfold by done.
  destruct (countPaths _ _ _) as [total|] eqn:Hcount; [|done].
  eapply countPaths_ok_inv in Hcount; [|by apply elem_of_map_to_list|done..].
  destruct Hcount. by apply hasIntegerParams_panic.
Qed.

End Runs.

Lemma X6_sent_requests_come_from_the_document_witness :
  ∃ path pathItem operation fuzzValue,
    Paths itemsApi !! path = Some pathItem
    ∧ ("GET", Some operation) ∈ operations pathItem
    ∧ "GET" ∈ methodNames
    ∧ allowed getOnly "GET" = true
    ∧ (fuzzValue = 1000 ∨ false = true ∧ fuzzValue ∈ intFuzzValues)
    ∧ buildRequest (rt := sampleRuntime) (normalizeHost "https://h/") false ∅ ∅
        path "GET" pathItem operation fuzzValue
      = Ok {| method := "GET"; url := "https://h/items/1000"; body := "";
              headerMap := ∅ |}
    ∧ (∅ : gmap string string) = ∅.
Proof.
  apply (X6_sent_requests_come_from_the_document (rt := sampleRuntime)
           "swagger.json" "https://h/" getOnly false ∅ ∅ 10 (λ _, true) itemsApi
           {| method := "GET"; url := "https://h/items/1000"; body := "";
              headerMap := ∅ |}).
  assert (sent (main (rt := sampleRuntime) "swagger.json" "https://h/" getOnly false ∅ ∅
                  10 (λ _, true) itemsApi)
          = [{| method := "GET"; url := "https://h/items/1000"; body := "";
                headerMap := ∅ |}]) as -> by (by vm_compute).
  by apply list_elem_of_singleton.
Defined.

Lemma X7_nothing_allowed_witness :
  main (rt := sampleRuntime) "swagger.json" "https://h" postOnly true ∅ ∅ 0 (λ _, false)
    thingsApi
  = {| totalRequests := Some 0%nat; sent := []; ending := Returned |}.
Proof.
  apply (X7_nothing_allowed (rt := sampleRuntime) "swagger.json" "https://h" postOnly true
           ∅ ∅ 0 (λ _, false) thingsApi); [done..|].
  intros path pathItem m operation Hpath.
  change (Paths thingsApi) with ({["/things" := onlyGet listThings []]} : gmap string PathItem)
    in Hpath.
  apply lookup_singleton_Some in Hpath as [_ <-].
  unfold operations. rewrite !elem_of_cons.
  by intros [[= -> _]|[[=]|[[=]|[[=]|[[=]|[]%elem_of_nil]]]]].
Defined.

Lemma X8_panic_while_counting_witness :
  main (rt := sampleRuntime) "swagger.json" "https://h" postOnly false ∅ ∅ 0 (λ _, false)
    importApi
  = {| totalRequests := None; sent := []; ending := RuntimePanic |}.
Proof.
  apply (X8_panic_while_counting (rt := sampleRuntime) "swagger.json" "https://h" postOnly
           false ∅ ∅ 0 (λ _, false) importApi "/import" (onlyPost importOp []) "POST"
           importOp);
    try done.
  - unfold operations. rewrite !elem_of_cons. by right; left.
  - by intros param []%elem_of_nil.
  - by exists {["content" := VObj {["application/json" := VStr "oops"]}]},
              {["application/json" := VStr "oops"]}, (VStr "oops").
Defined.

(** ** Documents on which nothing panics *)

Section Shaped.
Context `{rt : GoRuntime}.
Context (swaggerFile host : string) (methodsMap : gmap string bool) (intFuzzing : bool)
  (headerMap0 : gmap string string) (paramOverrideMap : gmap string string)
  (threads : Z) (answered : nat → bool).

Local Abbreviation resolveParams := (resolveParams intFuzzing paramOverrideMap).
Local Abbreviation makeBody := (makeBody intFuzzing paramOverrideMap).
Local Abbreviation buildRequest :=
  (buildRequest (normalizeHost host) intFuzzing headerMap0 paramOverrideMap).
Local Abbreviation processOperation :=
  (processOperation (normalizeHost host) methodsMap intFuzzing headerMap0 paramOverrideMap).
Local Abbreviation processPaths :=
  (processPaths (normalizeHost host) methodsMap intFuzzing headerMap0 paramOverrideMap).
Local Abbreviation countOperation := (countOperation methodsMap intFuzzing).
Local Abbreviation main :=
  (main swaggerFile host methodsMap intFuzzing headerMap0 paramOverrideMap threads answered).

Lemma hasIntegerParams_shaped pathItem operation :
  operationShaped pathItem operation →
  ∃ hasIntegers, hasIntegerParams operation (PathItem_Parameters pathItem) = Ok hasIntegers.
Proof.
  intros [_ Hbody]. unfold hasIntegerParams.
  destruct (existsb _ _); [by eexists|].
  destruct (RequestBody operation) as [requestBody|]; [|by eexists].
  destruct Hbody as (content & -> & Hjson).
  destruct (content !! "application/json") as [jsonContent|]; [|by eexists].
  destruct Hjson as (members & schema & -> & -> & _). by eexists.
Qed.

Lemma resolveParams_shaped method fuzzValue allParams st :
  Forall (λ param, wellShaped (VObj (Schema param)) = true) allParams →
  ∃ st', resolveParams method fuzzValue allParams st = Ok st'.
Proof.
  intros Hall. revert st.
  induction Hall as [|param rest Hparam _ IH]; intros st; simpl; [by eexists|].
  destruct (getDummyValue_wellShaped_bounded _ (Schema param) (Example param) intFuzzing
              fuzzValue (Name param) paramOverrideMap (le_n _) Hparam) as [value ->].
  simpl. apply IH.
Qed.

Lemma makeBody_shaped method pathItem operation fuzzValue folded :
  operationShaped pathItem operation →
  ∃ body, makeBody method operation fuzzValue folded = Ok body.
Proof.
  intros [_ Hbody]. unfold makeBody.
  destruct (RequestBody operation) as [requestBody|].
  - destruct Hbody as (content & Hcontent & Hjson).
    apply mustMapAt_Some in Hcontent as ->. simpl.
    destruct (content !! "application/json") as [jsonContent|]; [|by eexists].
    destruct Hjson as (members & schema & -> & Hschema & Hshape).
    apply mustMapAt_Some in Hschema as ->. simpl.
    destruct (getDummyValue_wellShaped_bounded _ schema VNil intFuzzing fuzzValue ""
                paramOverrideMap (le_n _) Hshape) as [bodyData ->].
    by eexists.
  - destruct (carriesBody method); [|by eexists].
    destruct (0 <? size folded)%nat; by eexists.
Qed.

Lemma buildRequest_shaped path method pathItem operation fuzzValue :
  operationShaped pathItem operation →
  ∃ req, buildRequest path method pathItem operation fuzzValue = Ok req.
Proof.
  intros Hshaped. unfold buildRequest.
  destruct (resolveParams_shaped method fuzzValue
              (PathItem_Parameters pathItem ++ Parameters operation)%list
              {| requestURL := normalizeHost host +:+ path; queryParams := ∅;
                 bodyParams := ∅ |} (proj1 Hshaped)) as [st ->].
  simpl.
  destruct (makeBody_shaped method pathItem operation fuzzValue (bodyParams st) Hshaped)
    as [body ->].
  by eexists.
Qed.

Lemma processOperation_shaped path pathItem m operation :
  (∀ op, operation = Some op → allowed methodsMap m = true → operationShaped pathItem op) →
  (processOperation path pathItem m operation).2 = Ok ().
Proof.
  intros Hshaped. unfold processOperation.
  destruct operation as [op|]; [|done].
  destruct (allowed methodsMap m) eqn:Hallowed; [|done].
  specialize (Hshaped op eq_refl eq_refl).
  destruct (hasIntegerParams_shaped pathItem op Hshaped) as [hasIntegers ->].
  destruct (sendEach_all (buildRequest path m pathItem op)
              (fuzzValuesFor intFuzzing hasIntegers)) as (reqs & -> & _); [|done].
  intros fuzzValue _.
  by destruct (buildRequest_shaped path m pathItem op fuzzValue Hshaped) as [req ->].
Qed.

Lemma andThen_all_ok {A} (f : A → sending) l :
  (∀ x, x ∈ l → (f x).2 = Ok ()) →
  (foldr (λ x rest, andThen (f x) rest) ([], Ok ()) l).2 = Ok ().
Proof.
  induction l as [|x l IH]; intros Hall; [done|].
  cbn [foldr]. rewrite (andThen_ok _ _ ()) by (apply Hall; by left).
  simpl. apply IH. intros y Hy. apply Hall. by right.
Qed.

Lemma processPaths_shaped entries :
  (∀ path pathItem m operation,
     (path, pathItem) ∈ entries → (m, Some operation) ∈ operations pathItem →
     allowed methodsMap m = true → operationShaped pathItem operation) →
  (processPaths entries).2 = Ok ().
Proof.
  intros Hshaped.
  apply (andThen_all_ok
           (processPath (normalizeHost host) methodsMap intFuzzing headerMap0
              paramOverrideMap) entries).
  intros [path pathItem] Hentry.
  apply (andThen_all_ok (λ op, processOperation path pathItem op.1 op.2)
           (operations pathItem)).
  intros [m operation] Hop. apply processOperation_shaped. simpl.
  intros op -> Hallowed. by apply (Hshaped path pathItem m op).
Qed.

Lemma foldl_outcome_ok {A B} (f : B → A → outcome B) l b :
  (∀ b x, x ∈ l → ∃ b', f b x = Ok b') →
  ∃ b', foldl (λ acc x, b ← acc; f b x) (Ok b) l = Ok b'.
Proof.
  revert b. induction l as [|x l IH]; intros b Hall; [by eexists|].
  cbn [foldl mbind outcome_bind].
  destruct (Hall b x) as [b' ->]; [by left|].
  apply IH. intros b'' y Hy. apply Hall. by right.
Qed.

Lemma countOperation_shaped pathItem m operation total :
  (∀ op, operation = Some op → allowed methodsMap m = true → operationShaped pathItem op) →
  ∃ total', countOperation pathItem m operation total = Ok total'.
Proof.
  intros Hshaped. unfold countOperation.
  destruct operation as [op|]; [|by eexists].
  destruct (allowed methodsMap m) eqn:Hallowed; [|by eexists].
  destruct (hasIntegerParams_shaped pathItem op (Hshaped op eq_refl eq_refl))
    as [hasIntegers ->].
  simpl. destruct (intFuzzing && hasIntegers); by eexists.
Qed.

Lemma countPaths_shaped entries :
  (∀ path pathItem m operation,
     (path, pathItem) ∈ entries → (m, Some operation) ∈ operations pathItem →
     allowed methodsMap m = true → operationShaped pathItem operation) →
  ∃ total, countPaths methodsMap intFuzzing entries = Ok total.
Proof.
  intros Hshaped.
  apply (foldl_outcome_ok (λ total entry, countPath methodsMap intFuzzing entry.2 total)).
  intros total [path pathItem] Hentry.
  apply (foldl_outcome_ok (λ total op, countOperation pathItem op.1 op.2 total)).
  intros total' [m operation] Hop. apply countOperation_shaped. simpl.
  intros op -> Hallowed. by apply (Hshaped path pathItem m op).
Qed.

(** X9.  A run over a document whose allowed operations are all well shaped
    never panics, whatever the workers do: the total is computed, and the
    producer builds exactly that many requests.  With at least one worker and
    every round of a worker ending, [main] returns after sending them all;
    with no worker and a total that is not zero, it stays in its first send
    and nothing is sent. *)
Theorem X9_shaped_document_never_panics api :
  swaggerFile ≠ "" → host ≠ "" →
  (∀ path pathItem m operation,
     Paths api !! path = Some pathItem → (m, Some operation) ∈ operations pathItem →
     allowed methodsMap m = true → operationShaped pathItem operation) →
  ∃ total,
    totalRequests (main api) = Some total
    ∧ (processPaths (map_to_list (Paths api))).2 = Ok ()
    ∧ length (processPaths (map_to_list (Paths api))).1 = total
    ∧ ending (main api) ≠ RuntimePanic
    ∧ ((0 < threads)%Z → (∀ n, (n < total)%nat → answered n = true) →
       ending (main api) = Returned ∧ length (sent (main api)) = total)
    ∧ ((threads ≤ 0)%Z → total ≠ 0%nat →
       sent (main api) = [] ∧ ending (main api) = Stuck).
Proof.
  intros Hfile Hhost Hshaped.
  assert (∀ path pathItem m operation,
            (path, pathItem) ∈ map_to_list (Paths api) →
            (m, Some operation) ∈ operations pathItem →
            allowed methodsMap m = true → operationShaped pathItem operation) as Hentries.
  { intros path pathItem m operation Hentry%elem_of_map_to_list.
    by apply (Hshaped path). }
  rewrite main_unfold by done.
  destruct (countPaths_shaped _ Hentries) as [total Hcount]. rewrite Hcount.
  pose proof (processPaths_shaped _ Hentries) as Hsent.
  pose proof (count_process_paths (normalizeHost host) methodsMap intFuzzing headerMap0
                paramOverrideMap _ _ _ Hcount) as [_ Hlen].
  rewrite Hsent in Hlen. rewrite Nat.sub_0_r in Hlen.
  exists total. cbv zeta. cbn [totalRequests sent ending]. rewrite Hsent, Hlen.
  split_and!; [done..| | |].
  - destruct (_ <? _)%nat; [done|]. by destruct (forallb _ _).
  - intros Hthreads Hanswered.
    rewrite deliver_all by (lia || intros i Hi; apply Hanswered; lia).
    rewrite Hlen, Nat.ltb_irrefl. split; [|done].
    assert (forallb answered (seq 0 total) = true) as ->; [|done].
    apply forallb_forall. intros n Hn%in_seq. apply Hanswered. lia.
  - intros Hthreads Htotal.
    assert (Z.to_nat threads = 0%nat) as -> by lia.
    rewrite deliver_none. split; [done|].
    destruct total; [done|]. done.
Qed.

End Shaped.

Lemma X9_shaped_document_never_panics_witness :
  ∃ total,
    totalRequests (main (rt := sampleRuntime) "swagger.json" "https://h" postOnly true ∅ ∅
                     10 (λ _, true) petsApi) = Some total
    ∧ ending (main (rt := sampleRuntime) "swagger.json" "https://h" postOnly true ∅ ∅
                10 (λ _, true) petsApi) = Returned
    ∧ length (sent (main (rt := sampleRuntime) "swagger.json" "https://h" postOnly true ∅ ∅
                      10 (λ _, true) petsApi)) = total.
Proof.
  destruct (X9_shaped_document_never_panics (rt := sampleRuntime) "swagger.json" "https://h"
              postOnly true ∅ ∅ 10 (λ _, true) petsApi)
    as (total & Htotal & _ & _ & _ & Hreturns & _); [done..| |].
  - intros path pathItem m operation Hpath.
    change (Paths petsApi) with ({["/pets" := onlyPost createPet []]} : gmap string PathItem)
      in Hpath.
    apply lookup_singleton_Some in Hpath as [_ <-].
    unfold operations, onlyPost. cbn [Get Post Put Delete Patch]. rewrite !elem_of_cons.
    intros [[=]|[[= _ ->]|[[=]|[[=]|[[=]|[]%elem_of_nil]]]]] _.
    split.
    + apply Forall_cons. split; [by vm_compute|constructor].
    + exists {["application/json" := VObj {["schema" := VObj petSchema]}]}.
      split; [done|].
      exists {["schema" := VObj petSchema]}, petSchema. by vm_compute.
  - exists total. destruct Hreturns as [Hend Hsent]; [done..|]. by split_and!.
Defined.

(** ** The host given with trailing slashes *)

(** X10.  Slashes written after a non-empty host change nothing in a run:
    the same total, the same requests, the same ending. *)
Theorem X10_trailing_slashes_ignored `{rt : GoRuntime} swaggerFile host slashes methodsMap
    intFuzzing headerMap0 paramOverrideMap threads answered api :
  host ≠ "" → onlySlashes slashes = true →
  main swaggerFile (host +:+ slashes) methodsMap intFuzzing headerMap0 paramOverrideMap
    threads answered api
  = main swaggerFile host methodsMap intFuzzing headerMap0 paramOverrideMap threads answered
      api.
Proof.
  intros Hhost Hslashes. unfold main, normalizeHost.
  rewrite trimRightSlash_app_slashes by done.
  by destruct host.
Qed.

Lemma X10_trailing_slashes_ignored_witness :
  main (rt := sampleRuntime) "swagger.json" ("https://h" +:+ "//") getOnly true ∅ ∅
    10 (λ _, true) itemsApi
  = main (rt := sampleRuntime) "swagger.json" "https://h" getOnly true ∅ ∅
      10 (λ _, true) itemsApi.
Proof.
  by apply (X10_trailing_slashes_ignored (rt := sampleRuntime) "swagger.json" "https://h"
              "//" getOnly true ∅ ∅ 10 (λ _, true) itemsApi).
Defined.

(** ** Query parameters and the method *)

Lemma makeBody_none `{rt : GoRuntime} intFuzzing paramOverrideMap method operation
    fuzzValue folded :
  RequestBody operation = None → carriesBody method = false →
  makeBody intFuzzing paramOverrideMap method operation fuzzValue folded = Ok "".
Proof. unfold makeBody. by intros -> ->. Qed.

Section Query.
Context `{rt : GoRuntime}.
Context (normalizedHost : string) (intFuzzing : bool)
  (headerMap0 : gmap string string) (paramOverrideMap : gmap string string).

Local Abbreviation resolveParams := (resolveParams intFuzzing paramOverrideMap).
Local Abbreviation makeBody := (makeBody intFuzzing paramOverrideMap).
Local Abbreviation valuesOf := (valuesOf intFuzzing paramOverrideMap).
Local Abbreviation buildRequest :=
  (buildRequest normalizedHost intFuzzing headerMap0 paramOverrideMap).

Lemma placeParams_snoc method values pv st :
  placeParams method (values ++ [pv]) st
  = placeParam method pv.1 pv.2 (placeParams method values st).
Proof. unfold placeParams. by rewrite foldl_app. Qed.

Lemma placeParams_no_query method values st :
  carriesBody method = true →
  queryParams (placeParams method values st) = queryParams st.
Proof.
  intros Hbody. induction values as [|pv values IH] using rev_ind; [done|].
  rewrite placeParams_snoc. unfold placeParam. rewrite Hbody. simpl.
  destruct (String.eqb (In pv.1) "query") eqn:Hq; [done|].
  by destruct (String.eqb (In pv.1) "path").
Qed.

Lemma placeParams_no_path method values st :
  (∀ pv, pv ∈ values → In pv.1 ≠ "path") →
  requestURL (placeParams method values st) = requestURL st.
Proof.
  induction values as [|pv values IH] using rev_ind; intros Hnone; [done|].
  rewrite placeParams_snoc. unfold placeParam.
  assert (String.eqb (In pv.1) "path" = false) as ->.
  { apply String.eqb_neq, Hnone, elem_of_app. right. by left. }
  rewrite <-IH by (intros ??; apply Hnone, elem_of_app; by left).
  by destruct (carriesBody method && String.eqb (In pv.1) "query"),
       (String.eqb (In pv.1) "query").
Qed.

(** X11.  The URL of a POST, PUT or PATCH request has no query string added:
    it is the host and path after the path parameters are substituted, and
    the host and path themselves when no parameter is located in the path. *)
Theorem X11_no_query_string_with_a_body_method path method pathItem operation fuzzValue
    req :
  carriesBody method = true →
  buildRequest path method pathItem operation fuzzValue = Ok req →
  ∃ values,
    valuesOf fuzzValue (PathItem_Parameters pathItem ++ Parameters operation)%list values
    ∧ url req = requestURL (placeParams method values (startOf normalizedHost path))
    ∧ ((∀ param, param ∈ (PathItem_Parameters pathItem ++ Parameters operation)%list →
          In param ≠ "path") →
       url req = normalizedHost +:+ path).
Proof.
  intros Hbody Hreq.
  apply buildRequest_url in Hreq as (values & Hvalues & ->).
  exists values. split; [done|].
  unfold finalURL. rewrite placeParams_no_query by done.
  split; [done|]. intros Hnone. apply placeParams_no_path.
  intros pv Hpv. by apply Hnone, (valuesOf_elem _ _ _ _ _ _ Hvalues Hpv).
Qed.

Lemma makeBody_declared method method' operation fuzzValue folded folded' :
  RequestBody operation ≠ None →
  makeBody method operation fuzzValue folded = makeBody method' operation fuzzValue folded'.
Proof. unfold makeBody. by destruct (RequestBody operation). Qed.

(** X12.  A declared [requestBody] decides the body under every method: the
    requests built from one operation for the same fuzz value carry the same
    body whatever the method, the path and the path-level parameters, a GET
    or DELETE request included. *)
Theorem X12_declared_body_under_any_method path path' method method' pathItem pathItem'
    operation fuzzValue req req' :
  RequestBody operation ≠ None →
  buildRequest path method pathItem operation fuzzValue = Ok req →
  buildRequest path' method' pathItem' operation fuzzValue = Ok req' →
  body req = body req'.
Proof.
  intros Hdeclared. unfold buildRequest.
  destruct (resolveParams method _ _ _) as [st|]; [simpl|done].
  destruct (resolveParams method' _ _ _) as [st'|]; [simpl|by destruct (makeBody _ _ _ _)].
  rewrite (makeBody_declared method method' operation fuzzValue (bodyParams st)
             (bodyParams st')) by done.
  destruct (makeBody _ _ _ _) as [b|]; [simpl|done].
  by intros [= <-] [= <-].
Qed.

Lemma queryValuesOf_snoc name values pv :
  queryValuesOf name (values ++ [pv])
  = if String.eqb (In pv.1) "query" && String.eqb (Name pv.1) name
    then (queryValuesOf name values ++ [Sprint pv.2])%list
    else queryValuesOf name values.
Proof.
  unfold queryValuesOf. rewrite filter_app, filter_cons, filter_nil.
  destruct (String.eqb (In pv.1) "query" && String.eqb (Name pv.1) name) eqn:Hpv.
  - rewrite decide_True by done. by rewrite fmap_app.
  - rewrite decide_False by done. by rewrite app_nil_r.
Qed.

Lemma placeParams_queryParams method values path name :
  carriesBody method = false →
  queryParams (placeParams method values (startOf normalizedHost path)) !! name
  = match queryValuesOf name values with
    | [] => None
    | printed => Some printed
    end.
Proof.
  intros Hbody. induction values as [|pv values IH] using rev_ind; [done|].
  rewrite placeParams_snoc, queryValuesOf_snoc. unfold placeParam.
  rewrite Hbody. cbn [andb].
  destruct (String.eqb (In pv.1) "path") eqn:Hpath.
  { apply String.eqb_eq in Hpath. rewrite Hpath. by simpl. }
  destruct (String.eqb (In pv.1) "query"); [|done].
  cbn [queryParams andb]. unfold Values_Add.
  destruct (String.eqb_spec (Name pv.1) name) as [Hname|Hname].
  - rewrite Hname, lookup_insert_eq, IH.
    by destruct (queryValuesOf name values).
  - by rewrite lookup_insert_ne.
Qed.

(** X13.  In a request of any other method the query parameters of a name
    are all kept, in the order of the merged list: the query values of a
    name are the printed values of the query-located parameters of that
    name, and the name is absent when there is none.  Without a declared
    [requestBody] the request has no body. *)
Theorem X13_query_values_accumulate path method pathItem operation fuzzValue req :
  carriesBody method = false →
  buildRequest path method pathItem operation fuzzValue = Ok req →
  ∃ values,
    valuesOf fuzzValue (PathItem_Parameters pathItem ++ Parameters operation)%list values
    ∧ url req = finalURL (placeParams method values (startOf normalizedHost path))
    ∧ (∀ name,
         queryParams (placeParams method values (startOf normalizedHost path)) !! name
         = match queryValuesOf name values with
           | [] => None
           | printed => Some printed
           end)
    ∧ (RequestBody operation = None → body req = "").
Proof.
  intros Hbody Hreq.
  destruct (buildRequest_url _ _ _ _ _ _ _ _ _ _ Hreq) as (values & Hvalues & Hurl).
  exists values. repeat split; [done..| |].
  - intros name. by apply placeParams_queryParams.
  - intros Hnone. revert Hreq. unfold buildRequest.
    destruct (resolveParams _ _ _ _) as [st|]; [simpl|done].
    rewrite makeBody_none by done. by intros [= <-].
Qed.

End Query.

Lemma X11_no_query_string_with_a_body_method_witness :
  ∃ values,
    valuesOf false ∅ 1000 ([] ++ [qParam])%list values
    ∧ url {| method := "POST"; url := "https://h/search"; body := ""; headerMap := ∅ |}
      = requestURL (placeParams (rt := sampleRuntime) "POST" values
                      (startOf "https://h" "/search"))
    ∧ ((∀ param, param ∈ ([] ++ [qParam])%list → In param ≠ "path") →
       url {| method := "POST"; url := "https://h/search"; body := ""; headerMap := ∅ |}
       = "https://h" +:+ "/search").
Proof.
  by apply (X11_no_query_string_with_a_body_method (rt := sampleRuntime) "https://h" false
              ∅ ∅ "/search" "POST" (onlyPost searchXml []) searchXml 1000).
Defined.

Lemma X12_declared_body_under_any_method_witness :
  body {| method := "GET"; url := "https://h/search?q=test_string"; body := "1000";
          headerMap := ∅ |}
  = body {| method := "POST"; url := "https://h/find"; body := "1000"; headerMap := ∅ |}.
Proof.
  by apply (X12_declared_body_under_any_method (rt := sampleRuntime) "https://h" false ∅ ∅
              "/search" "/find" "GET" "POST" (onlyGet searchJson []) (onlyPost searchJson [])
              searchJson 1000).
Defined.

Lemma X13_query_values_accumulate_witness :
  ∃ values,
    valuesOf false ∅ 1000 ([qParamA] ++ [qParamB])%list values
    ∧ url {| method := "GET"; url := "https://h/search?q=A&q=B"; body := "";
             headerMap := ∅ |}
      = finalURL (placeParams (rt := sampleRuntime) "GET" values
                    (startOf "https://h" "/search"))
    ∧ (∀ name,
         queryParams (placeParams (rt := sampleRuntime) "GET" values
                        (startOf "https://h" "/search")) !! name
         = match queryValuesOf (rt := sampleRuntime) name values with
           | [] => None
           | printed => Some printed
           end)
    ∧ (RequestBody searchB = None
       → body {| method := "GET"; url := "https://h/search?q=A&q=B"; body := "";
                 headerMap := ∅ |} = "").
Proof.
  by apply (X13_query_values_accumulate (rt := sampleRuntime) "https://h" false ∅ ∅
              "/search" "GET" (onlyGet searchB [qParamA]) searchB 1000).
Defined.

(** ** The fuzz value when fuzzing is off *)

Lemma objectFromProperties_ext intFuzz fuzzValue fuzzValue' paramOverrides
    (properties : gmap string any) :
  (∀ key propMap, properties !! key = Some (VObj propMap) →
     getDummyValue propMap VNil intFuzz fuzzValue key paramOverrides
     = getDummyValue propMap VNil intFuzz fuzzValue' key paramOverrides) →
  objectFromProperties intFuzz fuzzValue paramOverrides properties
  = objectFromProperties intFuzz fuzzValue' paramOverrides properties.
Proof.
  intros Hsame.
  pose proof (objectFromProperties_cases intFuzz fuzzValue paramOverrides properties) as H1.
  pose proof (objectFromProperties_cases intFuzz fuzzValue' paramOverrides properties) as H2.
  destruct (objectFromProperties intFuzz fuzzValue _ _) as [value1|],
           (objectFromProperties intFuzz fuzzValue' _ _) as [value2|]; [| | |done].
  - destruct H1 as (result1 & -> & Hdom1 & Hall1), H2 as (result2 & -> & Hdom2 & Hall2).
    do 2 f_equal. apply map_eq. intros key.
    destruct (properties !! key) as [prop|] eqn:Hprop.
    + destruct (Hall1 key prop Hprop) as (propMap & v1 & -> & Hv1 & ->).
      destruct (Hall2 key _ Hprop) as (propMap' & v2 & [= <-] & Hv2 & ->).
      rewrite (Hsame key propMap Hprop), Hv2 in Hv1. by injection Hv1 as ->.
    + apply not_elem_of_dom in Hprop.
      rewrite (proj1 (not_elem_of_dom result1 key)) by (by rewrite Hdom1).
      by rewrite (proj1 (not_elem_of_dom result2 key)) by (by rewrite Hdom2).
  - destruct H1 as (result1 & -> & _ & Hall1), H2 as (key & prop & Hprop & Hpanic).
    destruct (Hall1 key prop Hprop) as (propMap & v1 & -> & Hv1 & _).
    by rewrite (Hsame key propMap Hprop), (Hpanic propMap) in Hv1.
  - destruct H2 as (result2 & -> & _ & Hall2), H1 as (key & prop & Hprop & Hpanic).
    destruct (Hall2 key prop Hprop) as (propMap & v2 & -> & Hv2 & _).
    by rewrite <-(Hsame key propMap Hprop), (Hpanic propMap) in Hv2.
Qed.

(** Which rule decides [getDummyValue], whatever the fuzz value is: one of
    the rules before the switch that return a fixed value, the loop over
    [properties] of a schema without a type, or the switch. *)
Lemma getDummyValue_shape schema example intFuzz paramName paramOverrides :
  (∃ value, ∀ fuzzValue,
     getDummyValue schema example intFuzz fuzzValue paramName paramOverrides = Ok value)
  ∨ (∃ properties,
       mapAt schema "properties" = Some properties
       ∧ ∀ fuzzValue,
           getDummyValue schema example intFuzz fuzzValue paramName paramOverrides
           = objectFromProperties intFuzz fuzzValue paramOverrides properties)
  ∨ (∀ fuzzValue,
       getDummyValue schema example intFuzz fuzzValue paramName paramOverrides
       = byType schema intFuzz fuzzValue paramName paramOverrides (stringAt schema "type")).
Proof.
  assert (intFuzz = true ∨ paramOverrides !! paramName = None
          ∨ ∃ override, intFuzz = false ∧ paramOverrides !! paramName = Some override)
    as [Hno|[Hno|(override & -> & Hoverride)]].
  { destruct intFuzz; [by left|]. right.
    destruct (paramOverrides !! paramName); [right; by eexists|by left]. }
  3: { left. exists (VStr override). intros fuzzValue.
       by rewrite getDummyValue_unfold, Hoverride. }
  all: assert (∀ fuzzValue,
      getDummyValue schema example intFuzz fuzzValue paramName paramOverrides
      = if negb (isNil example) then Ok example else
        if String.eqb (stringAt schema "format") "uuid" then Ok (VStr staticUUID) else
        match (if String.eqb (stringAt schema "type") "" then mapAt schema "properties"
               else None) with
        | Some properties => objectFromProperties intFuzz fuzzValue paramOverrides properties
        | None =>
          byType schema intFuzz fuzzValue paramName paramOverrides (stringAt schema "type")
        end) as Hrest
    by (intros fuzzValue; apply getDummyValue_no_override; auto).
  all: destruct (negb (isNil example)) eqn:Hexample;
    [left; exists example; intros fuzzValue; by rewrite Hrest|].
  all: destruct (String.eqb (stringAt schema "format") "uuid") eqn:Hformat;
    [left; exists (VStr staticUUID); intros fuzzValue; by rewrite Hrest|].
  all: destruct (String.eqb (stringAt schema "type") "") eqn:Htype;
    [|right; right; intros fuzzValue; by rewrite Hrest].
  all: destruct (mapAt schema "properties") as [properties|] eqn:Hproperties;
    [right; left; exists properties; split; [done|]; intros fuzzValue; by rewrite Hrest
    |right; right; intros fuzzValue; by rewrite Hrest].
Qed.

Lemma getDummyValue_fuzzValue_bounded n :
  ∀ schema example paramName paramOverrides fuzzValue fuzzValue',
    (anySize (VObj schema) ≤ n)%nat →
    getDummyValue schema example false fuzzValue paramName paramOverrides
    = getDummyValue schema example false fuzzValue' paramName paramOverrides.
Proof.
  induction n as [|n IH]; intros schema example paramName paramOverrides fuzzValue fuzzValue'
                                 Hsize.
  { cbn [anySize] in Hsize. lia. }
  destruct (getDummyValue_shape schema example false paramName paramOverrides)
    as [[value Hvalue]|[(properties & Hmap & Hobject)|Hswitch]].
  - by rewrite !Hvalue.
  - rewrite !Hobject. apply objectFromProperties_ext. intros key propMap Hprop.
    apply IH. apply mapAt_lookup, anySize_lookup in Hmap. apply anySize_lookup in Hprop.
    lia.
  - rewrite !Hswitch. unfold byType.
    destruct (String.eqb (stringAt schema "type") "string"); [done|].
    destruct (String.eqb (stringAt schema "type") "integer"); [done|].
    destruct (String.eqb (stringAt schema "type") "number"); [done|].
    destruct (String.eqb (stringAt schema "type") "boolean"); [done|].
    destruct (String.eqb (stringAt schema "type") "array").
    { destruct (mustMapAt schema "items") as [items|] eqn:Hitems; [simpl|done].
      apply mustMapAt_Some, mapAt_lookup, anySize_lookup in Hitems.
      rewrite (IH items VNil paramName paramOverrides fuzzValue fuzzValue') by lia.
      done. }
    assert (∀ properties, mapAt schema "properties" = Some properties →
              objectFromProperties false fuzzValue paramOverrides properties
              = objectFromProperties false fuzzValue' paramOverrides properties) as Hobject.
    { intros properties Hmap. apply objectFromProperties_ext. intros key propMap Hprop.
      apply IH. apply mapAt_lookup, anySize_lookup in Hmap. apply anySize_lookup in Hprop.
      lia. }
    destruct (String.eqb (stringAt schema "type") "object");
      (destruct (mapAt schema "properties") as [properties|]; [by apply Hobject|done]).
Qed.

(** X14.  With fuzzing off the fuzz value is never read: [getDummyValue]
    returns the same for every fuzz value, and so does the building of a
    request. *)
Theorem X14_fuzz_value_unused_when_fuzzing_is_off `{rt : GoRuntime} schema example paramName
    paramOverrides normalizedHost headerMap0 path method pathItem operation
    fuzzValue fuzzValue' :
  getDummyValue schema example false fuzzValue paramName paramOverrides
  = getDummyValue schema example false fuzzValue' paramName paramOverrides
  ∧ buildRequest normalizedHost false headerMap0 paramOverrides path method pathItem
      operation fuzzValue
    = buildRequest normalizedHost false headerMap0 paramOverrides path method pathItem
        operation fuzzValue'.
Proof.
  split; [by eapply getDummyValue_fuzzValue_bounded|].
  assert (∀ params st,
            resolveParams false paramOverrides method fuzzValue params st
            = resolveParams false paramOverrides method fuzzValue' params st) as Hparams.
  { induction params as [|param params IH]; intros st; simpl; [done|].
    rewrite (getDummyValue_fuzzValue_bounded _ (Schema param) (Example param) (Name param)
               paramOverrides fuzzValue fuzzValue' (le_n _)).
    destruct (getDummyValue _ _ _ _ _ _) as [value|]; [simpl|done]. apply IH. }
  assert (∀ folded,
            makeBody false paramOverrides method operation fuzzValue folded
            = makeBody false paramOverrides method operation fuzzValue' folded) as Hbody.
  { intros folded. unfold makeBody.
    destruct (RequestBody operation) as [requestBody|]; [|done].
    destruct (mustMapAt requestBody "content") as [content|]; [simpl|done].
    destruct (content !! "application/json") as [[| | | | | |members]|]; try done.
    destruct (mustMapAt members "schema") as [bodySchema|]; [simpl|done].
    by rewrite (getDummyValue_fuzzValue_bounded _ bodySchema VNil "" paramOverrides
                  fuzzValue fuzzValue' (le_n _)). }
  unfold buildRequest. rewrite Hparams.
  destruct (resolveParams _ _ _ _ _ _) as [st|]; [simpl|done].
  by rewrite Hbody.
Qed.

(** ** Malformed schemas and operations *)

(** Whether the loop over [properties] panics does not depend on the fuzz
    value, when that holds for the properties. *)
Lemma objectFromProperties_panic intFuzz fuzzValue fuzzValue' paramOverrides
    (properties : gmap string any) :
  (∀ key propMap, properties !! key = Some (VObj propMap) →
     getDummyValue propMap VNil intFuzz fuzzValue key paramOverrides = Panic →
     getDummyValue propMap VNil intFuzz fuzzValue' key paramOverrides = Panic) →
  objectFromProperties intFuzz fuzzValue paramOverrides properties = Panic →
  objectFromProperties intFuzz fuzzValue' paramOverrides properties = Panic.
Proof.
  intros Hsame Hpanic.
  pose proof (objectFromProperties_cases intFuzz fuzzValue paramOverrides properties) as H1.
  pose proof (objectFromProperties_cases intFuzz fuzzValue' paramOverrides properties) as H2.
  rewrite Hpanic in H1. destruct H1 as (key & prop & Hprop & Hbad).
  destruct (objectFromProperties intFuzz fuzzValue' _ _) as [value|]; [|done].
  destruct H2 as (result & _ & _ & Hall).
  destruct (Hall key prop Hprop) as (propMap & v & -> & Hv & _).
  by rewrite (Hsame key propMap Hprop (Hbad propMap eq_refl)) in Hv.
Qed.

Lemma getDummyValue_panic_bounded n :
  ∀ schema example intFuzz paramName paramOverrides fuzzValue fuzzValue',
    (anySize (VObj schema) ≤ n)%nat →
    getDummyValue schema example intFuzz fuzzValue paramName paramOverrides = Panic →
    getDummyValue schema example intFuzz fuzzValue' paramName paramOverrides = Panic.
Proof.
  induction n as [|n IH]; intros schema example intFuzz paramName paramOverrides
                                 fuzzValue fuzzValue' Hsize.
  { cbn [anySize] in Hsize. lia. }
  assert (∀ properties, mapAt schema "properties" = Some properties →
            objectFromProperties intFuzz fuzzValue paramOverrides properties = Panic →
            objectFromProperties intFuzz fuzzValue' paramOverrides properties = Panic)
    as Hobject.
  { intros properties Hmap. apply objectFromProperties_panic. intros key propMap Hprop.
    apply IH. apply mapAt_lookup, anySize_lookup in Hmap. apply anySize_lookup in Hprop.
    lia. }
  destruct (getDummyValue_shape schema example intFuzz paramName paramOverrides)
    as [[value Hvalue]|[(properties & Hmap & Hloop)|Hswitch]].
  - by rewrite !Hvalue.
  - rewrite !Hloop. by apply Hobject.
  - rewrite !Hswitch. unfold byType.
    destruct (String.eqb (stringAt schema "type") "string"); [done|].
    destruct (String.eqb (stringAt schema "type") "integer").
    { by destruct intFuzz, (paramOverrides !! paramName). }
    destruct (String.eqb (stringAt schema "type") "number"); [done|].
    destruct (String.eqb (stringAt schema "type") "boolean"); [done|].
    destruct (String.eqb (stringAt schema "type") "array").
    { destruct (mustMapAt schema "items") as [items|] eqn:Hitems; [simpl|done].
      apply mustMapAt_Some, mapAt_lookup, anySize_lookup in Hitems.
      destruct (getDummyValue items VNil intFuzz fuzzValue paramName paramOverrides)
        as [v|] eqn:Hv; [done|].
      intros _.
      rewrite (IH items VNil intFuzz paramName paramOverrides fuzzValue fuzzValue');
        [done|lia|done]. }
    destruct (String.eqb (stringAt schema "type") "object");
      (destruct (mapAt schema "properties") as [properties|]; [by apply Hobject|done]).
Qed.

(** Whether [getDummyValue] panics does not depend on the fuzz value. *)
Lemma getDummyValue_panic_any_fuzzValue schema example intFuzz paramName paramOverrides
    fuzzValue fuzzValue' :
  getDummyValue schema example intFuzz fuzzValue paramName paramOverrides = Panic →
  getDummyValue schema example intFuzz fuzzValue' paramName paramOverrides = Panic.
Proof. by apply getDummyValue_panic_bounded with (n := anySize (VObj schema)). Qed.

(** A property that is not an object, or whose synthesis panics, makes the
    object panic. *)
Lemma objectFromProperties_bad_property intFuzz fuzzValue paramOverrides
    (properties : gmap string any) key prop :
  properties !! key = Some prop →
  (∀ propMap, prop = VObj propMap →
     getDummyValue propMap VNil intFuzz fuzzValue key paramOverrides = Panic) →
  objectFromProperties intFuzz fuzzValue paramOverrides properties = Panic.
Proof.
  intros Hprop Hbad.
  pose proof (objectFromProperties_cases intFuzz fuzzValue paramOverrides properties)
    as Hcases.
  destruct (objectFromProperties _ _ _ _) as [value|]; [|done].
  destruct Hcases as (result & _ & _ & Hall).
  destruct (Hall key prop Hprop) as (propMap & v & -> & Hv & _).
  by rewrite (Hbad propMap) in Hv.
Qed.

Lemma sendEach_panic_inv (build : Z → outcome request) fuzzValues :
  (sendEach build fuzzValues).2 = Panic →
  ∃ fuzzValue, fuzzValue ∈ fuzzValues ∧ build fuzzValue = Panic.
Proof.
  induction fuzzValues as [|fuzzValue rest IH]; simpl; [done|].
  destruct (build fuzzValue) as [req|] eqn:Hbuild.
  - rewrite (andThen_ok _ _ ()) by done. simpl.
    intros (fv & Hin & Hfv)%IH. exists fv. by split; [right|].
  - intros _. exists fuzzValue. by split; [left|].
Qed.

(** When building the body panics. *)
Lemma makeBody_panic `{rt : GoRuntime} intFuzzing paramOverrideMap method operation
    fuzzValue folded :
  makeBody intFuzzing paramOverrideMap method operation fuzzValue folded = Panic ↔
  ∃ requestBody,
    RequestBody operation = Some requestBody
    ∧ match mapAt requestBody "content" with
      | None => True
      | Some content =>
        match content !! "application/json" with
        | None => False
        | Some (VObj members) =>
          match mapAt members "schema" with
          | None => True
          | Some schema =>
            getDummyValue schema VNil intFuzzing fuzzValue "" paramOverrideMap = Panic
          end
        | Some _ => True
        end
      end.
Proof.
  unfold makeBody.
  destruct (RequestBody operation) as [requestBody|].
  2: { split; [|by intros (? & [=] & _)].
       destruct (carriesBody method); [|done]. by destruct (0 <? size folded)%nat. }
  transitivity
    (match mapAt requestBody "content" with
     | None => True
     | Some content =>
       match content !! "application/json" with
       | None => False
       | Some (VObj members) =>
         match mapAt members "schema" with
         | None => True
         | Some schema =>
           getDummyValue schema VNil intFuzzing fuzzValue "" paramOverrideMap = Panic
         end
       | Some _ => True
       end
     end).
  2: { split; [intros ?; by exists requestBody|by intros (? & [= <-] & ?)]. }
  destruct (mapAt requestBody "content") as [content|] eqn:Hcontent.
  2: { by rewrite mustMapAt_None. }
  rewrite (proj2 (mustMapAt_Some _ _ _) Hcontent). simpl.
  destruct (content !! "application/json") as [jsonContent|]; [|done].
  destruct jsonContent as [| | | | | |members]; try done.
  destruct (mapAt members "schema") as [schema|] eqn:Hschema.
  2: { by rewrite mustMapAt_None. }
  rewrite (proj2 (mustMapAt_Some _ _ _) Hschema). simpl.
  by destruct (getDummyValue schema VNil intFuzzing fuzzValue "" paramOverrideMap).
Qed.

Section Malformed.
Context `{rt : GoRuntime}.
Context (swaggerFile host : string) (methodsMap : gmap string bool) (intFuzzing : bool)
  (headerMap0 : gmap string string) (paramOverrideMap : gmap string string)
  (threads : Z) (answered : nat → bool).

Local Abbreviation resolveParams := (resolveParams intFuzzing paramOverrideMap).
Local Abbreviation makeBody := (makeBody intFuzzing paramOverrideMap).
Local Abbreviation buildRequest :=
  (buildRequest (normalizeHost host) intFuzzing headerMap0 paramOverrideMap).
Local Abbreviation processOperation :=
  (processOperation (normalizeHost host) methodsMap intFuzzing headerMap0 paramOverrideMap).
Local Abbreviation malformed := (malformed intFuzzing paramOverrideMap).
Local Abbreviation main :=
  (main swaggerFile host methodsMap intFuzzing headerMap0 paramOverrideMap threads answered).

Lemma resolveParams_panic_inv method fuzzValue allParams st :
  resolveParams method fuzzValue allParams st = Panic →
  ∃ param, param ∈ allParams
    ∧ getDummyValue (Schema param) (Example param) intFuzzing fuzzValue (Name param)
        paramOverrideMap = Panic.
Proof.
  revert st. induction allParams as [|param rest IH]; intros st; simpl; [done|].
  destruct (getDummyValue (Schema param) _ _ _ _ _) as [value|] eqn:Hvalue; simpl.
  - intros (param' & Hin & Hpanic)%IH. exists param'. by split; [right|].
  - intros _. exists param. by split; [left|].
Qed.

(** The requests of a malformed operation cannot be built. *)
Lemma buildRequest_malformed path method pathItem operation fuzzValue :
  malformed pathItem operation →
  buildRequest path method pathItem operation fuzzValue = Panic.
Proof.
  intros [(param & fuzzValue0 & Hin & Hpanic)|(requestBody & Hbody & Hshape)].
  { eapply buildRequest_param_panic; [done|].
    by eapply getDummyValue_panic_any_fuzzValue. }
  unfold buildRequest.
  destruct (resolveParams _ _ _ _) as [st|]; [simpl|done].
  assert (makeBody method operation fuzzValue (bodyParams st) = Panic) as ->; [|done].
  apply makeBody_panic. exists requestBody. split; [done|].
  destruct (mapAt requestBody "content") as [content|]; [|done].
  destruct (content !! "application/json") as [[| | | | | |members]|]; try done.
  destruct (mapAt members "schema") as [schema|]; [|done].
  destruct Hshape as [fuzzValue0 Hpanic].
  by eapply getDummyValue_panic_any_fuzzValue.
Qed.

Lemma buildRequest_panic_inv path method pathItem operation fuzzValue :
  buildRequest path method pathItem operation fuzzValue = Panic →
  malformed pathItem operation.
Proof.
  unfold buildRequest.
  destruct (resolveParams _ _ _ _) as [st|] eqn:Hst; simpl.
  - destruct (makeBody method operation fuzzValue (bodyParams st)) as [b|] eqn:Hb; [done|].
    intros _. apply makeBody_panic in Hb as (requestBody & Hbody & Hshape).
    right. exists requestBody. split; [done|].
    destruct (mapAt requestBody "content") as [content|]; [|done].
    destruct (content !! "application/json") as [[| | | | | |members]|]; try done.
    destruct (mapAt members "schema") as [schema|]; [|done].
    by exists fuzzValue.
  - intros _. apply resolveParams_panic_inv in Hst as (param & Hin & Hpanic).
    left. by exists param, fuzzValue.
Qed.

(** An allowed operation makes the producer panic exactly when it is
    malformed, and then before its first request is sent. *)
Lemma processOperation_malformed path pathItem method operation :
  allowed methodsMap method = true →
  ((processOperation path pathItem method (Some operation)).2 = Panic
   ↔ malformed pathItem operation)
  ∧ (malformed pathItem operation →
     processOperation path pathItem method (Some operation) = ([], Panic)).
Proof.
  intros Hallowed.
  assert (malformed pathItem operation →
          processOperation path pathItem method (Some operation) = ([], Panic)) as Hnone.
  { intros Hbad. apply processOperation_panic; [done|].
    intros fuzzValue. by apply buildRequest_malformed. }
  split; [|done]. split; [|by intros ->%Hnone].
  unfold processOperation. rewrite Hallowed.
  destruct (hasIntegerParams _ _) as [hasIntegers|] eqn:Hint.
  - intros (fuzzValue & _ & Hpanic)%sendEach_panic_inv.
    by eapply buildRequest_panic_inv.
  - intros _.
    apply hasIntegerParams_panic
      in Hint as (_ & requestBody & content & jsonContent & Hbody & Hcontent & Hjson & Hno).
    right. exists requestBody. split; [done|]. rewrite Hcontent, Hjson.
    destruct jsonContent as [| | | | | |members]; try done. by destruct (Hno members).
Qed.

(** C7, amended: a malformed schema node makes [getDummyValue] panic when
    the walk reaches it, and the panic goes up to the root: an array schema
    without a map-valued [items], or whose [items] panics; an object a
    property of which is not an object, or panics.  An operation that passes
    the method filter makes the producer panic exactly when it is malformed:
    a merged parameter whose synthesis panics, or a [requestBody] whose
    [content] is not a map, whose [application/json] entry is not an object
    or has no map-valued [schema], or whose body schema panics.  Then no
    request is sent for it (no default is put in its place), and a run over a
    document with such an operation never returns and never ends by a
    reported exit: it ends by the run-time panic, which nothing recovers,
    unless it stays in an earlier send; it ends by the panic when there is a
    worker and every round of a worker ends. *)
Theorem C7_malformed_schema_panics :
  (∀ schema fuzzValue paramName,
     intFuzzing = true ∨ paramOverrideMap !! paramName = None →
     stringAt schema "format" ≠ "uuid" →
     stringAt schema "type" = "array" →
     (∀ items, mapAt schema "items" = Some items →
        getDummyValue items VNil intFuzzing fuzzValue paramName paramOverrideMap = Panic) →
     getDummyValue schema VNil intFuzzing fuzzValue paramName paramOverrideMap = Panic)
  ∧ (∀ schema fuzzValue paramName properties key prop,
       intFuzzing = true ∨ paramOverrideMap !! paramName = None →
       stringAt schema "format" ≠ "uuid" →
       stringAt schema "type" ∉ ["string"; "integer"; "number"; "boolean"; "array"] →
       mapAt schema "properties" = Some properties →
       properties !! key = Some prop →
       (∀ propMap, prop = VObj propMap →
          getDummyValue propMap VNil intFuzzing fuzzValue key paramOverrideMap = Panic) →
       getDummyValue schema VNil intFuzzing fuzzValue paramName paramOverrideMap = Panic)
  ∧ (∀ path pathItem method operation,
       allowed methodsMap method = true →
       ((processOperation path pathItem method (Some operation)).2 = Panic
        ↔ malformed pathItem operation)
       ∧ (malformed pathItem operation →
          processOperation path pathItem method (Some operation) = ([], Panic)))
  ∧ (∀ api path pathItem method operation,
       swaggerFile ≠ "" → host ≠ "" →
       Paths api !! path = Some pathItem →
       (method, Some operation) ∈ operations pathItem →
       allowed methodsMap method = true →
       malformed pathItem operation →
       (ending (main api) = RuntimePanic ∨ ending (main api) = Stuck)
       ∧ ((0 < threads)%Z → (∀ n, answered n = true) →
          ending (main api) = RuntimePanic)).
Proof.
  split_and!.
  - intros schema fuzzValue paramName Hno Hformat Htype Hitems.
    rewrite getDummyValue_by_type by (done || by rewrite Htype).
    rewrite Htype. unfold byType. simpl.
    destruct (mustMapAt schema "items") as [items|] eqn:Hmap; [simpl|done].
    apply mustMapAt_Some in Hmap. by rewrite (Hitems items Hmap).
  - intros schema fuzzValue paramName properties key prop Hno Hformat Htype Hmap Hprop Hbad.
    rewrite getDummyValue_object with (properties := properties) by done.
    by eapply objectFromProperties_bad_property.
  - intros path pathItem method operation. apply processOperation_malformed.
  - intros api path pathItem method operation Hfile Hhost Hpath Hop Hallowed Hbad.
    eapply main_panics; [done..|].
    by rewrite (proj2 (processOperation_malformed path pathItem method operation Hallowed)).
Qed.

End Malformed.

(** C7, as stated, fails: both runs end in a run-time panic, not in a
    reported exit. *)
Lemma C7_counterexample :
  main (rt := sampleRuntime) "swagger.json" "https://h" postOnly false ∅ ∅ 10 (λ _, true)
    notesApi
  = {| totalRequests := Some 1%nat; sent := []; ending := RuntimePanic |}
  ∧ main (rt := sampleRuntime) "swagger.json" "https://h" postOnly false ∅ ∅ 10 (λ _, true)
      uploadApi
    = {| totalRequests := Some 1%nat; sent := []; ending := RuntimePanic |}.
Proof. by vm_compute. Qed.

Lemma C7_malformed_schema_panics_witness :
  getDummyValue arrayWithoutItems VNil false 1000 "tags" ∅ = Panic
  ∧ getDummyValue noteSchema VNil false 1000 "" ∅ = Panic
  ∧ processOperation (rt := sampleRuntime) (normalizeHost "https://h") postOnly false ∅ ∅
      "/notes" (onlyPost createNote []) "POST" (Some createNote) = ([], Panic)
  ∧ ending (main (rt := sampleRuntime) "swagger.json" "https://h" postOnly false ∅ ∅
              10 (λ _, true) notesApi) = RuntimePanic
  ∧ ending (main (rt := sampleRuntime) "swagger.json" "https://h" postOnly false ∅ ∅
              10 (λ _, true) uploadApi) = RuntimePanic.
Proof.
  pose proof (C7_malformed_schema_panics (rt := sampleRuntime) "swagger.json" "https://h"
                postOnly false ∅ ∅ 10 (λ _, true)) as (Harray & Hobject & Hoperation & Hrun).
  assert (getDummyValue arrayWithoutItems VNil false 1000 "labels" ∅ = Panic) as Hlabels.
  { apply Harray; [by right|done..]. }
  assert (getDummyValue noteSchema VNil false 1000 "" ∅ = Panic) as Hnote.
  { apply (Hobject noteSchema 1000 "" {["labels" := VObj arrayWithoutItems]} "labels"
             (VObj arrayWithoutItems)); [by right|done| |done..|by intros ? [= <-]].
    by apply (bool_decide_unpack _). }
  assert (malformed false ∅ (onlyPost createNote []) createNote) as Hbad.
  { right. eexists. split; [done|]. by exists 1000. }
  assert (("POST", Some createNote) ∈ operations (onlyPost createNote [])) as Hnotes.
  { unfold operations. rewrite !elem_of_cons. by right; left. }
  assert (("POST", Some upload) ∈ operations (onlyPost upload [])) as Hupload.
  { unfold operations. rewrite !elem_of_cons. by right; left. }
  assert (malformed false ∅ (onlyPost upload []) upload) as Hbad'.
  { right. exists ∅. split; [reflexivity|]. by vm_compute. }
  destruct (Hrun notesApi "/notes" (onlyPost createNote []) "POST" createNote
              ltac:(done) ltac:(done) eq_refl Hnotes eq_refl Hbad) as [_ Hend].
  destruct (Hrun uploadApi "/upload" (onlyPost upload []) "POST" upload
              ltac:(done) ltac:(done) eq_refl Hupload eq_refl Hbad') as [_ Hend'].
  split_and!.
  - apply Harray; [by right|done..].
  - exact Hnote.
  - by apply Hoperation.
  - apply Hend; [lia|done].
  - apply Hend'; [lia|done].
Defined.

(** ** The flags *)

Section Cutting.
Local Arguments String.append : simpl nomatch.

Lemma cutAt_app sep name value :
  occurs sep name = false → cutAt sep (name +:+ String sep value) = Some (name, value).
Proof.
  induction name as [|c name IH]; cbn [occurs String.append cutAt].
  { intros _. by rewrite Ascii.eqb_refl. }
  intros [Hc Hname]%orb_false_iff. rewrite (Ascii.eqb_sym c sep), Hc.
  by rewrite IH.
Qed.

Lemma cutAt_Some sep s before after :
  cutAt sep s = Some (before, after) →
  s = before +:+ String sep after ∧ occurs sep before = false.
Proof.
  revert before. induction s as [|c s IH]; intros before; cbn [cutAt]; [done|].
  destruct (Ascii.eqb_spec c sep) as [->|Hne].
  { by intros [= <- <-]. }
  destruct (cutAt sep s) as [[b a]|]; [|done].
  intros [= <- <-]. destruct (IH b eq_refl) as [-> Hb].
  split; [done|]. cbn [occurs]. rewrite Hb, orb_false_r.
  apply Ascii.eqb_neq. congruence.
Qed.

Lemma cutAt_None sep s : cutAt sep s = None ↔ occurs sep s = false.
Proof.
  induction s as [|c s IH]; cbn [cutAt occurs]; [done|].
  rewrite orb_false_iff, <-IH, (Ascii.eqb_sym sep c).
  destruct (Ascii.eqb c sep); [by split; [|intros []]|].
  destruct (cutAt sep s) as [[]|]; by split; [|intros []].
Qed.

Lemma Split_cons s sep : ∃ piece pieces, Split s sep = piece :: pieces.
Proof.
  induction s as [|c s (piece & pieces & IH)]; cbn [Split]; [by eexists _, _|].
  destruct (Ascii.eqb c sep); [by eexists _, _|]. rewrite IH. by eexists _, _.
Qed.

Lemma Split_piece piece sep :
  occurs sep piece = false → Split piece sep = [piece].
Proof.
  induction piece as [|c piece IH]; cbn [occurs Split]; [done|].
  intros [Hc Hpiece]%orb_false_iff. rewrite (Ascii.eqb_sym c sep), Hc. by rewrite IH.
Qed.

Lemma Split_app piece rest sep :
  occurs sep piece = false →
  Split (piece +:+ String sep rest) sep = piece :: Split rest sep.
Proof.
  induction piece as [|c piece IH]; cbn [occurs String.append Split].
  { intros _. by rewrite Ascii.eqb_refl. }
  intros [Hc Hpiece]%orb_false_iff. rewrite (Ascii.eqb_sym c sep), Hc. by rewrite IH.
Qed.

(** The pieces have no byte that the text has not. *)
Lemma Split_occurs c s sep :
  occurs c s = false → Forall (λ piece, occurs c piece = false) (Split s sep).
Proof.
  induction s as [|d s IH]; cbn [occurs Split]; [by repeat constructor|].
  intros [Hd Hs]%orb_false_iff. specialize (IH Hs).
  destruct (Ascii.eqb d sep); [by constructor|].
  destruct (Split s sep) as [|piece pieces].
  { constructor; [|constructor]. cbn [occurs]. by rewrite Hd. }
  apply Forall_cons in IH as [Hpiece Hpieces].
  constructor; [|done]. cbn [occurs]. by rewrite Hd, Hpiece.
Qed.

(** [strings.Split] undoes [strings.Join]. *)
Lemma Split_concat pieces sep :
  pieces ≠ [] → Forall (λ piece, occurs sep piece = false) pieces →
  Split (String.concat (String sep "") pieces) sep = pieces.
Proof.
  intros Hne Hpieces. induction Hpieces as [|piece pieces Hpiece Hpieces IH]; [done|].
  destruct pieces as [|piece' pieces].
  { by apply Split_piece. }
  change (String.concat (String sep "") (piece :: piece' :: pieces))
    with (piece +:+ String sep (String.concat (String sep "") (piece' :: pieces))).
  rewrite Split_app by done. f_equal. by apply IH.
Qed.

End Cutting.

(** *** Parameter overrides *)

Lemma parseParamOverrides_snoc paramOverrides override :
  parseParamOverrides (arrayFlags_Set paramOverrides override)
  = addParamOverride (parseParamOverrides paramOverrides) override.
Proof. unfold parseParamOverrides, arrayFlags_Set. by rewrite foldl_app. Qed.

Lemma addParamOverride_cut paramOverrideMap name value :
  occurs "=" name = false →
  addParamOverride paramOverrideMap (name +:+ "=" +:+ value)
  = <[name := value]> paramOverrideMap.
Proof.
  intros Hname. unfold addParamOverride, SplitN2.
  change (name +:+ "=" +:+ value) with (name +:+ String "=" value).
  by rewrite cutAt_app.
Qed.

(** X15.  The last [-param-override] flag of a name decides: an entry
    [name=value] whose name has no [=] binds [name] to everything after the
    first [=], whatever was given before; and with fuzzing off a parameter of
    that name gets this text, whatever its schema and example are. *)
Theorem X15_last_param_override_wins schema example fuzzValue paramOverrides name value :
  occurs "=" name = false →
  parseParamOverrides (arrayFlags_Set paramOverrides (name +:+ "=" +:+ value)) !! name
  = Some value
  ∧ getDummyValue schema example false fuzzValue name
      (parseParamOverrides (arrayFlags_Set paramOverrides (name +:+ "=" +:+ value)))
    = Ok (VStr value).
Proof.
  intros Hname.
  assert (parseParamOverrides (arrayFlags_Set paramOverrides (name +:+ "=" +:+ value))
            !! name = Some value) as Hlookup.
  { by rewrite parseParamOverrides_snoc, addParamOverride_cut, lookup_insert_eq. }
  split; [done|]. by apply getDummyValue_override.
Qed.

Lemma X15_last_param_override_wins_witness :
  parseParamOverrides (arrayFlags_Set ["id=1"; "q"] ("id" +:+ "=" +:+ "a=b")) !! "id"
  = Some "a=b"
  ∧ getDummyValue integerSchema (VInt 7) false 5 "id"
      (parseParamOverrides (arrayFlags_Set ["id=1"; "q"] ("id" +:+ "=" +:+ "a=b")))
    = Ok (VStr "a=b").
Proof.
  by apply (X15_last_param_override_wins integerSchema (VInt 7) 5 ["id=1"; "q"] "id" "a=b").
Defined.

(** X16.  Nothing else becomes an override: a name bound by the flags has no
    [=] and was given as an entry [name=value]; an entry without [=] changes
    nothing, wherever it stands. *)
Theorem X16_param_overrides_come_from_flags paramOverrides name value :
  parseParamOverrides paramOverrides !! name = Some value →
  occurs "=" name = false
  ∧ (name +:+ "=" +:+ value) ∈ paramOverrides
  ∧ ∀ before entry after,
      paramOverrides = (before ++ entry :: after)%list → occurs "=" entry = false →
      parseParamOverrides (before ++ after)%list = parseParamOverrides paramOverrides.
Proof.
  intros Hlookup. split_and!.
  - revert Hlookup.
    induction paramOverrides as [|entry paramOverrides IH] using rev_ind; [done|].
    change (paramOverrides ++ [entry])%list with (arrayFlags_Set paramOverrides entry).
    rewrite parseParamOverrides_snoc. unfold addParamOverride, SplitN2.
    destruct (cutAt "=" entry) as [[n v]|] eqn:Hcut; [|done].
    apply cutAt_Some in Hcut as [-> Hn].
    destruct (decide (n = name)) as [->|Hne]; [done|].
    by rewrite lookup_insert_ne.
  - revert Hlookup.
    induction paramOverrides as [|entry paramOverrides IH] using rev_ind; [done|].
    change (paramOverrides ++ [entry])%list with (arrayFlags_Set paramOverrides entry).
    rewrite parseParamOverrides_snoc. unfold addParamOverride, SplitN2, arrayFlags_Set.
    rewrite elem_of_app, list_elem_of_singleton.
    destruct (cutAt "=" entry) as [[n v]|] eqn:Hcut; [|by left; apply IH].
    apply cutAt_Some in Hcut as [-> Hn].
    destruct (decide (n = name)) as [->|Hne].
    + rewrite lookup_insert_eq. intros [= ->]. by right.
    + rewrite lookup_insert_ne by done. by left; apply IH.
  - intros before entry after -> Hentry. unfold parseParamOverrides.
    rewrite !foldl_app. cbn [foldl]. f_equal.
    unfold addParamOverride at 2, SplitN2.
    by rewrite (proj2 (cutAt_None "=" entry) Hentry).
Qed.

Lemma X16_param_overrides_come_from_flags_witness :
  occurs "=" "id" = false
  ∧ ("id" +:+ "=" +:+ "42") ∈ ["id=1"; "plain"; "id=42"]
  ∧ ∀ before entry after,
      ["id=1"; "plain"; "id=42"] = (before ++ entry :: after)%list →
      occurs "=" entry = false →
      parseParamOverrides (before ++ after)%list
      = parseParamOverrides ["id=1"; "plain"; "id=42"].
Proof.
  by apply (X16_param_overrides_come_from_flags ["id=1"; "plain"; "id=42"] "id" "42").
Defined.

(** X17.  The body schema is synthesized under the empty parameter name, so
    with fuzzing off an override entry with nothing before its [=] replaces
    the whole JSON body of every operation that declares one. *)
Theorem X17_override_of_the_empty_name `{rt : GoRuntime} paramOverrides value method operation
    fuzzValue folded requestBody content members schema :
  RequestBody operation = Some requestBody →
  mapAt requestBody "content" = Some content →
  content !! "application/json" = Some (VObj members) →
  mapAt members "schema" = Some schema →
  makeBody false (parseParamOverrides (arrayFlags_Set paramOverrides ("=" +:+ value)))
    method operation fuzzValue folded
  = Ok (jsonMarshal (VStr value)).
Proof.
  intros Hbody Hcontent%mustMapAt_Some Hjson Hschema%mustMapAt_Some.
  unfold makeBody. rewrite Hbody, Hcontent. simpl. rewrite Hjson, Hschema. simpl.
  rewrite getDummyValue_override with (override := value); [done|].
  rewrite parseParamOverrides_snoc.
  rewrite (addParamOverride_cut _ "" value) by done. by rewrite lookup_insert_eq.
Qed.

Lemma X17_override_of_the_empty_name_witness :
  makeBody (rt := sampleRuntime) false
    (parseParamOverrides (arrayFlags_Set ["q=1"] ("=" +:+ "x"))) "POST" createPet 1000 ∅
  = Ok (jsonMarshal (GoRuntime := sampleRuntime) (VStr "x")).
Proof.
  by apply (X17_override_of_the_empty_name (rt := sampleRuntime) ["q=1"] "x" "POST" createPet
              1000 ∅
              {["content" := VObj {["application/json" := VObj {["schema" := VObj petSchema]}]}]}
              {["application/json" := VObj {["schema" := VObj petSchema]}]}
              {["schema" := VObj petSchema]} petSchema).
Defined.

(** *** Headers and methods *)

Section Text.
Context `{tx : GoText}.

Lemma addHeader_cut headerMap name value :
  occurs ":" name = false →
  addHeader headerMap (name +:+ ":" +:+ value)
  = <[TrimSpace name := TrimSpace value]> headerMap.
Proof.
  intros Hname. unfold addHeader, SplitN2.
  change (name +:+ ":" +:+ value) with (name +:+ String ":" value).
  by rewrite cutAt_app.
Qed.

Lemma addHeader_dropped headerMap pieces :
  Forall (λ piece, occurs ":" piece = false) pieces →
  foldl addHeader headerMap pieces = headerMap.
Proof.
  induction 1 as [|piece pieces Hpiece _ IH]; [done|].
  cbn [foldl]. unfold addHeader at 2, SplitN2.
  by rewrite (proj2 (cutAt_None ":" piece) Hpiece).
Qed.

Lemma append_not_empty s c rest : String.eqb (s +:+ String c rest) "" = false.
Proof. by destruct s. Qed.

(** X18.  The [-H] text is cut at commas before it is cut at the first colon
    of each piece: one header [name:value] (the value may have colons) gives
    the trimmed name bound to the trimmed value, but what follows a comma
    in the value is a piece of its own, and is dropped when it has no
    colon. *)
Theorem X18_header_value_cut_at_comma name value rest :
  occurs "," name = false → occurs ":" name = false → occurs "," value = false →
  occurs ":" rest = false →
  parseHeaders (name +:+ ":" +:+ value) = {[TrimSpace name := TrimSpace value]}
  ∧ parseHeaders (name +:+ ":" +:+ value +:+ "," +:+ rest)
    = {[TrimSpace name := TrimSpace value]}.
Proof.
  intros Hcomma Hcolon Hvalue Hrest.
  assert (occurs "," (name +:+ ":" +:+ value) = false) as Hpiece.
  { by rewrite !occurs_app, Hcomma, Hvalue. }
  unfold parseHeaders. split.
  - change (name +:+ ":" +:+ value) with (name +:+ String ":" value) at 1.
    rewrite append_not_empty, Split_piece by done.
    cbn [foldl]. by rewrite addHeader_cut.
  - change (name +:+ ":" +:+ value +:+ "," +:+ rest)
      with (name +:+ String ":" (value +:+ "," +:+ rest)) at 1.
    rewrite append_not_empty.
    assert (name +:+ ":" +:+ value +:+ "," +:+ rest
            = (name +:+ ":" +:+ value) +:+ String "," rest) as ->.
    { by rewrite append_assoc. }
    rewrite Split_app by done. cbn [foldl].
    rewrite addHeader_cut by done.
    by rewrite addHeader_dropped by (by apply Split_occurs).
Qed.

Lemma parseMethods_lookup pieces (methodsMap : gmap string bool) m :
  default false
    (foldl (λ methodsMap m, <[TrimSpace m := true]> methodsMap) methodsMap pieces !! m)
  = true
  ↔ default false (methodsMap !! m) = true ∨ ∃ piece, piece ∈ pieces ∧ TrimSpace piece = m.
Proof.
  revert methodsMap. induction pieces as [|piece pieces IH]; intros methodsMap.
  { cbn [foldl]. split; [by left|]. by intros [?|(? & []%elem_of_nil & _)]. }
  cbn [foldl]. rewrite IH. split.
  - intros [Hold|(piece' & Hin & Htrim)].
    + destruct (decide (TrimSpace piece = m)) as [<-|Hne].
      * right. exists piece. by split; [left|].
      * rewrite lookup_insert_ne in Hold by done. by left.
    + right. exists piece'. by split; [right|].
  - intros [Hold|(piece' & [->|Hin]%elem_of_cons & Htrim)].
    + left. destruct (decide (TrimSpace piece = m)) as [<-|Hne].
      * by rewrite lookup_insert_eq.
      * by rewrite lookup_insert_ne.
    + left. by rewrite Htrim, lookup_insert_eq.
    + right. by exists piece'.
Qed.

(** X19.  A method is allowed exactly when it is the trimmed form of one of
    the comma-separated pieces of the upper-cased [-methods] text; order and
    repetition of the pieces play no part. *)
Theorem X19_allowed_methods methods m :
  allowed (parseMethods methods) m = true
  ↔ ∃ piece, piece ∈ Split (ToUpper methods) "," ∧ TrimSpace piece = m.
Proof.
  unfold allowed, parseMethods. rewrite parseMethods_lookup, lookup_empty. simpl.
  split; [by intros [?|?]|by right].
Qed.

End Text.

Lemma X18_header_value_cut_at_comma_witness :
  parseHeaders (tx := sampleText) ("Accept" +:+ ":" +:+ " a")
  = {[TrimSpace (GoText := sampleText) "Accept" := TrimSpace (GoText := sampleText) " a"]}
  ∧ parseHeaders (tx := sampleText) ("Accept" +:+ ":" +:+ " a" +:+ "," +:+ "b")
    = {[TrimSpace (GoText := sampleText) "Accept" := TrimSpace (GoText := sampleText) " a"]}.
Proof.
  by apply (X18_header_value_cut_at_comma (tx := sampleText) "Accept" " a" "b").
Defined.

(** ** The workers *)

Lemma barAdvance_app effects1 effects2 :
  barAdvance (effects1 ++ effects2) = barAdvance effects1 + barAdvance effects2.
Proof.
  induction effects1 as [|[line|n] effects1 IH]; cbn [barAdvance foldr app]; [done|done|].
  fold (barAdvance (effects1 ++ effects2)). fold (barAdvance effects1). lia.
Qed.

Lemma barAdvance_handle verbose req got :
  barAdvance (handle verbose req got) = if verbose then 0 else 1.
Proof. by destruct verbose, got. Qed.

Lemma barAdvance_handled verbose reqs answers :
  length answers = length reqs →
  barAdvance (concat (zip_with (handle verbose) reqs answers))
  = if verbose then 0 else Z.of_nat (length reqs).
Proof.
  revert answers. induction reqs as [|req reqs IH]; intros [|got answers] Hlen;
    try done; [by destruct verbose|].
  cbn [zip_with concat]. rewrite barAdvance_app, barAdvance_handle, IH by (by injection Hlen).
  destruct verbose; cbn [length]; lia.
Qed.

Section Bar.
Context `{rt : GoRuntime}.
Context (swaggerFile host : string) (methodsMap : gmap string bool) (intFuzzing : bool)
  (headerMap0 : gmap string string) (paramOverrideMap : gmap string string)
  (threads : Z) (answered : nat → bool).

Local Abbreviation main :=
  (main swaggerFile host methodsMap intFuzzing headerMap0 paramOverrideMap threads answered).

Lemma main_returned_total api :
  ending (main api) = Returned →
  totalRequests (main api) = Some (length (sent (main api))).
Proof.
  destruct (decide (swaggerFile = "" ∨ host = "")) as [Hempty|Hfull].
  { by rewrite main_flags_missing. }
  rewrite main_unfold by (intros ->; apply Hfull; auto).
  destruct (countPaths _ _ _) as [total|] eqn:Hcount; simpl; [|done].
  apply (count_process_paths (normalizeHost host) methodsMap intFuzzing headerMap0
           paramOverrideMap) in Hcount as [_ Hcount].
  pose proof (deliver_length (Z.to_nat threads) answered 0
                (processPaths (normalizeHost host) methodsMap intFuzzing headerMap0
                   paramOverrideMap (map_to_list (Paths api))).1) as Hle.
  destruct (Nat.ltb_spec
              (length (deliver (Z.to_nat threads) answered 0
                         (processPaths (normalizeHost host) methodsMap intFuzzing headerMap0
                            paramOverrideMap (map_to_list (Paths api))).1))
              (length (processPaths (normalizeHost host) methodsMap intFuzzing headerMap0
                         paramOverrideMap (map_to_list (Paths api))).1)) as [Hlt|Hge];
    [done|].
  destruct (processPaths _ _ _ _ _ _).2; [|done].
  intros _. f_equal. lia.
Qed.

(** X20.  Each request taken from the channel advances the progress bar by
    exactly one when the run is not verbose, whether the request could be
    created, sent or answered, and prints exactly one line and leaves the
    bar alone when it is verbose.  So in a run that returns, the workers
    advance the bar to exactly the total it was created with. *)
Theorem X20_progress_bar_reaches_the_total api verbose answers :
  ending (main api) = Returned →
  length answers = length (sent (main api)) →
  ∃ total,
    totalRequests (main api) = Some total
    ∧ barAdvance (concat (zip_with (handle verbose) (sent (main api)) answers))
      = (if verbose then 0 else Z.of_nat total)
    ∧ Forall (λ effects, ∃ e, effects = [e]
                ∧ match e with Printf _ => verbose = true | BarAdd n => verbose = false ∧ n = 1 end)
        (zip_with (handle verbose) (sent (main api)) answers).
Proof.
  intros Hend Hlen. eexists. split; [by apply main_returned_total|].
  split; [by apply barAdvance_handled|].
  apply Forall_forall. intros effects Hin.
  apply elem_of_lookup_zip_with in Hin as (i & req & got & -> & _ & _).
  destruct verbose, got; by eexists.
Qed.

End Bar.

Lemma X20_progress_bar_reaches_the_total_witness :
  ∃ total,
    totalRequests (main (rt := sampleRuntime) "swagger.json" "https://h" getOnly false ∅ ∅
                     10 (λ _, true) itemsApi) = Some total
    ∧ barAdvance
        (concat (zip_with (handle false)
                   (sent (main (rt := sampleRuntime) "swagger.json" "https://h" getOnly false
                            ∅ ∅ 10 (λ _, true) itemsApi)) [SendError "refused"]))
      = (if false then 0 else Z.of_nat total)
    ∧ Forall (λ effects, ∃ e, effects = [e]
                ∧ match e with Printf _ => false = true | BarAdd n => false = false ∧ n = 1 end)
        (zip_with (handle false)
           (sent (main (rt := sampleRuntime) "swagger.json" "https://h" getOnly false ∅ ∅
                    10 (λ _, true) itemsApi)) [SendError "refused"]).
Proof.
  by apply (X20_progress_bar_reaches_the_total (rt := sampleRuntime) "swagger.json"
              "https://h" getOnly false ∅ ∅ 10 (λ _, true) itemsApi false
              [SendError "refused"]).
Defined.

(** *** The headers a worker sets *)

Section Headers.
Context `{tx : GoText}.

Lemma Header_Set_last (h : Header) before key value after :
  (∀ kv, kv ∈ after →
     CanonicalMIMEHeaderKey kv.1 = CanonicalMIMEHeaderKey key → kv.2 = value) →
  foldl (λ h kv, Header_Set h kv.1 kv.2) h (before ++ (key, value) :: after)
    !! CanonicalMIMEHeaderKey key
  = Some [value].
Proof.
  induction after as [|kv after IH] using rev_ind; intros Hafter.
  { rewrite foldl_app. cbn [foldl]. unfold Header_Set at 1. cbn [fst snd].
    by rewrite lookup_insert_eq. }
  rewrite app_comm_cons, app_assoc, foldl_app. cbn [foldl]. unfold Header_Set at 1.
  destruct (decide (CanonicalMIMEHeaderKey kv.1 = CanonicalMIMEHeaderKey key)) as [Heq|Hne].
  - rewrite Heq, lookup_insert_eq. f_equal. f_equal.
    apply Hafter; [|done]. apply elem_of_app. right. by left.
  - rewrite lookup_insert_ne by done. apply IH.
    intros kv' Hin. apply Hafter, elem_of_app. by left.
Qed.

(** X21.  The headers of the request a worker sends.  A configured header
    whose key is the only configured one of its canonical form is sent with
    its value, also when that form is the one of [Content-Type]: the default
    is then replaced.  When no configured key has the canonical form of
    [Content-Type], the content type sent is [application/json]. *)
Theorem X21_worker_headers (req : request) :
  (∀ key value,
     headerMap req !! key = Some value →
     (∀ key' value', headerMap req !! key' = Some value' →
        CanonicalMIMEHeaderKey key' = CanonicalMIMEHeaderKey key → key' = key) →
     workerHeader req !! CanonicalMIMEHeaderKey key = Some [value])
  ∧ ((∀ key value, headerMap req !! key = Some value →
        CanonicalMIMEHeaderKey key ≠ CanonicalMIMEHeaderKey "Content-Type") →
     workerHeader req !! CanonicalMIMEHeaderKey "Content-Type" = Some ["application/json"]).
Proof.
  unfold workerHeader, workerHeaderSets. split.
  - intros key value Hkey Hunique.
    pose proof Hkey as Hsplit.
    apply elem_of_map_to_list, list_elem_of_split in Hsplit.
    destruct Hsplit as (before & after & Hsplit). rewrite Hsplit.
    apply (Header_Set_last ∅ (("Content-Type", "application/json") :: before)).
    intros [key' value'] Hin Hcanon. simpl in *.
    assert ((key', value') ∈ map_to_list (headerMap req)) as Hin'.
    { rewrite Hsplit. apply elem_of_app. right. by right. }
    apply elem_of_map_to_list in Hin'.
    rewrite (Hunique key' value' Hin' Hcanon) in Hin'. congruence.
  - intros Hnone.
    apply (Header_Set_last ∅ [] "Content-Type" "application/json").
    intros [key value] Hin%elem_of_map_to_list Hcanon. simpl in *.
    by destruct (Hnone key value Hin).
Qed.

End Headers.

(** ** [arrayFlags] *)

Lemma concat_snoc sep pieces piece :
  pieces ≠ [] →
  String.concat sep (pieces ++ [piece]) = String.concat sep pieces +:+ sep +:+ piece.
Proof.
  intros Hne. induction pieces as [|first pieces IH]; [done|].
  destruct pieces as [|second pieces]; [done|].
  change (String.concat sep ((first :: second :: pieces) ++ [piece]))
    with (first +:+ sep +:+ String.concat sep ((second :: pieces) ++ [piece])).
  rewrite IH by done.
  change (String.concat sep (first :: second :: pieces))
    with (first +:+ sep +:+ String.concat sep (second :: pieces)).
  by rewrite !append_assoc.
Qed.

(** X22.  [Set] appends and [String] joins with commas: after [Set(value)]
    the text is [value] for the first entry and the former text, a comma and
    [value] afterwards; cutting the text at commas gives the entries back
    when none of them has a comma. *)
Theorem X22_arrayFlags (i : arrayFlags) value :
  arrayFlags_String (arrayFlags_Set i value)
  = match i with
    | [] => value
    | _ => arrayFlags_String i +:+ "," +:+ value
    end
  ∧ (Forall (λ entry, occurs "," entry = false) (arrayFlags_Set i value) →
     Split (arrayFlags_String (arrayFlags_Set i value)) "," = arrayFlags_Set i value).
Proof.
  unfold arrayFlags_String, arrayFlags_Set. split.
  - destruct i as [|first i]; [done|]. by apply concat_snoc.
  - intros Hentries. apply (Split_concat _ ","%char); [|done]. by destruct i.
Qed.
